(** * Scene/Primitive.js: lifecycle of a batched primitive

    A shallow embedding of [Source/Scene/Primitive.js]: the [Primitive]
    object, its per-frame [update], the per-instance attribute accessors
    returned by [getGeometryInstanceAttributes], and the validation of a
    shader program against the attribute layout of the combined geometry.

    JavaScript objects become records, [undefined] becomes [None], thrown
    exceptions become the [Throw] completion, and the objects that [update]
    mutates (the primitive, the rendering context, the promise callbacks)
    are threaded through a state-and-exception monad. *)

From Stdlib Require Import ZArith List String Bool Lia.
From stdpp Require Import base gmap strings list fin_maps.

Set Implicit Arguments.
Unset Strict Implicit.

Open Scope string_scope.
Open Scope list_scope.
Open Scope nat_scope.

(** ** Completions of a JavaScript call *)

(** The exceptions that the modelled code can raise: [DeveloperError] is the
    library's precondition error, [TypeError] is what the engine raises when a
    property of [undefined] is read, [RangeError] is what [TypedArray.set]
    raises when the source does not fit. *)
Inductive Exception : Type :=
| DeveloperError (message : string)
| TypeError
| RangeError.

Inductive Completion (A : Type) : Type :=
| Return (a : A)
| Throw (e : Exception).

Arguments Return {A} a.
Arguments Throw {A} e.

(** ** Enumerations *)

(** Modelled from the spec: Scene/PrimitiveState.js is not among the
    sources; the specification enumerates these five states. *)
Inductive PrimitiveState : Type := READY | COMBINING | COMBINED | COMPLETE | FAILED.

(** Modelled from the spec: Scene/SceneMode.js is not among the sources.
    [update] names the 3D, the Columbus view and the 2D mode; [MORPHING]
    stands for any other mode, which its last branch handles. *)
Inductive SceneMode : Type := SCENE2D | COLUMBUS_VIEW | SCENE3D | MORPHING.

(** Renderer/BufferUsage.js *)
Inductive BufferUsage : Type := STATIC_DRAW | DYNAMIC_DRAW.

Global Instance PrimitiveState_eq_dec : EqDecision PrimitiveState.
Proof. solve_decision. Defined.

Global Instance SceneMode_eq_dec : EqDecision SceneMode.
Proof. solve_decision. Defined.

(** ** Values handed in by the caller *)

(** The id of a geometry instance is any JavaScript value; [===] on the
    values below is structural equality. *)
Inductive Id : Type :=
| IdUndefined
| IdString (s : string)
| IdNumber (n : Z)
| IdObject (ref : nat).

Global Instance Id_eq_dec : EqDecision Id.
Proof. solve_decision. Defined.

(** A typed array, as the sequence of its elements. *)
Definition TypedArray : Type := list Z.

(** The argument of an attribute setter: [undefined], [null], another
    value whose [length] property is undefined (a number, a boolean, a plain
    object), or an array-like value. *)
Inductive Value : Type :=
| VUndefined
| VNull
| VNoLength
| VArray (elements : TypedArray).

Definition Matrix4 : Type := list Z.

(** Matrix4.IDENTITY, column-major. *)
Definition Matrix4_IDENTITY : Matrix4 :=
  [1; 0; 0; 0;  0; 1; 0; 0;  0; 0; 1; 0;  0; 0; 0; 1]%Z.

(** The classes of typed arrays. *)
Inductive TypedArrayClass : Type :=
| Int8Array | Uint8Array | Int16Array | Uint16Array | Float32Array | Float64Array.

(** What a [Float32Array] holds once an integer has been stored in it: the
    nearest number whose significand has 24 bits, and of two that are as
    near the one with the even significand.  This is for integers below
    2^128 in magnitude, where the array holds a finite number. *)
Definition Float32Array_element (z : Z) : Z :=
  let magnitude := Z.abs z in
  let exponent := Z.log2 magnitude in
  if (exponent <? 24)%Z then z
  else
    let unit := (2 ^ (exponent - 23))%Z in
    let significand := (magnitude / unit)%Z in
    let remainder := (magnitude mod unit)%Z in
    let half := (unit / 2)%Z in
    let rounded :=
      if (remainder <? half)%Z then significand
      else if (half <? remainder)%Z then (significand + 1)%Z
      else if Z.even significand then significand
      else (significand + 1)%Z in
    (Z.sgn z * rounded * unit)%Z.

(** What a typed array of a class holds once an integer has been stored in
    it: the integer modulo 2^8 or 2^16 in the arrays of integers, read as
    signed in the signed ones; the integer rounded to single precision; the
    integer itself. *)
Definition stored (class : TypedArrayClass) (z : Z) : Z :=
  match class with
  | Int8Array => ((z + 128) mod 256 - 128)%Z
  | Uint8Array => (z mod 256)%Z
  | Int16Array => ((z + 32768) mod 65536 - 32768)%Z
  | Uint16Array => (z mod 65536)%Z
  | Float32Array => Float32Array_element z
  | Float64Array => z
  end.

(** Modelled from the spec: Core/ComponentDatatype.js is not among the
    sources.  Of a datatype this file reads [sizeInBytes] and passes the
    datatype itself to [createTypedArray], which makes a typed array of the
    class that goes with the datatype. *)
Record ComponentDatatype : Type := {
  datatypeName : string;
  sizeInBytes : nat;
  typedArrayClass : TypedArrayClass
}.

(** What the typed array made for a datatype holds once a number has been
    stored in it. *)
Definition toElement (componentDatatype : ComponentDatatype) (z : Z) : Z :=
  stored (typedArrayClass componentDatatype) z.

(** Bounding spheres are kept symbolic: the sphere of a geometry and the
    results of the operations of Core/BoundingSphere.js used by [update]. *)
Inductive BoundingSphere : Type :=
| Sphere (n : nat)
| ProjectTo2D (sphere : BoundingSphere) (projection : nat)
| CenterXZero (sphere : BoundingSphere)
| Union (left right : BoundingSphere).

(** Core/GeometryAttribute.js *)
Record GeometryAttribute : Type := {
  ga_componentDatatype : ComponentDatatype;
  ga_componentsPerAttribute : nat;
  ga_normalize : bool;
  ga_values : TypedArray
}.

(** Core/Geometry.js; [g_attributes] lists the own properties of the
    [GeometryAttributes] object in enumeration order, a property may hold
    [undefined]. *)
Record Geometry : Type := {
  g_attributes : list (string * option GeometryAttribute);
  g_indices : option TypedArray;
  g_primitiveType : nat;
  g_boundingSphere : option BoundingSphere
}.

(** Core/GeometryInstanceAttribute.js *)
Record GeometryInstanceAttribute : Type := {
  gia_componentDatatype : ComponentDatatype;
  gia_componentsPerAttribute : nat;
  gia_normalize : bool;
  gia_value : TypedArray
}.

(** Core/GeometryInstance.js *)
Record GeometryInstance : Type := {
  gi_geometry : Geometry;
  gi_modelMatrix : Matrix4;
  gi_id : Id;
  gi_attributes : list (string * GeometryInstanceAttribute)
}.

(** [options.geometryInstances]: an array of instances or a single one. *)
Inductive GeometryInstances : Type :=
| InstanceArray (instances : list GeometryInstance)
| SingleInstance (instance : GeometryInstance).

(** Shader sources are kept symbolic: the text handed in by the appearance
    and the rewritings applied to it by this file. *)
Inductive ShaderSource : Type :=
| SourceText (text : string)
| ColumbusViewShader (allow3DOnly : bool) (vertexShaderSource : ShaderSource)
| ShowShader (vertexShaderSource : ShaderSource)
| PickVertexShader (vertexShaderSource : ShaderSource)
| PickFragmentShader (fragmentShaderSource : ShaderSource) (qualifier : string).

Record Material : Type := {
  mat_identity : nat;
  mat_uniforms : nat
}.

(** An appearance; [ap_identity] is the identity of the object, which is
    what [!==] compares. *)
Record Appearance : Type := {
  ap_identity : nat;
  ap_material : option Material;
  ap_renderState : nat;
  ap_vertexShaderSource : ShaderSource;
  ap_fragmentShaderSource : ShaderSource
}.

(** ** Objects of the renderer *)

(** The object a pick id resolves to: the instance id, or the primitive
    itself when the instance has none ([defaultValue(insts[i].id, this)]). *)
Inductive PickObject : Type :=
| PickInstance (id : Id)
| PickPrimitive.

Record PickId : Type := {
  pick_object : PickObject;
  pick_color : nat
}.

(** A linked shader program: its handle and the names of its active vertex
    attributes, the own properties of [getVertexAttributes()] in enumeration
    order. *)
Record ShaderProgram : Type := {
  sp_handle : nat;
  sp_vertexAttributes : list string
}.

Definition getVertexAttributes (shaderProgram : ShaderProgram) : list string :=
  sp_vertexAttributes shaderProgram.

(** An entry of [result.vaAttributes[i]]: a per-instance vertex attribute of
    merged geometry [i].  [update] replaces its [values] by a vertex
    buffer. *)
Record VertexArrayAttribute : Type := {
  vaa_index : nat;
  vaa_componentDatatype : ComponentDatatype;
  vaa_componentsPerAttribute : nat;
  vaa_normalize : bool;
  vaa_values : option TypedArray;
  vaa_vertexBuffer : option nat
}.

Record DrawCommand : Type := {
  dc_primitiveType : nat;
  dc_vertexArray : option nat;
  dc_renderState : option nat;
  dc_shaderProgram : option ShaderProgram;
  dc_uniformMap : option nat;
  dc_modelMatrix : option Matrix4;
  dc_boundingVolume : option BoundingSphere
}.

(** Renderer/CommandLists.js *)
Record CommandLists : Type := {
  colorList : list DrawCommand;
  pickList : list DrawCommand
}.

(** ** Per-instance attributes *)

(** One range of a merged vertex buffer that holds an attribute of an
    instance.  [ir_attribute] refers to the vertex array attribute
    [_vaAttributes[i][j]] that owns the buffer, by its position [(i, j)]:
    the range and the array share that object. *)
Record IndexRange : Type := {
  ir_attribute : nat * nat;
  ir_offset : nat;
  ir_count : nat
}.

(** The record of one attribute of one instance. *)
Record AttributeRecord : Type := {
  ar_value : TypedArray;
  ar_indices : list IndexRange;
  ar_dirty : bool
}.

(** [result.vaAttributeIndices]: the ids of the instances and, at the same
    position, the object mapping attribute names to records.  The
    constructor installs the empty object, which has neither property. *)
Record PerInstanceAttributes : Type := {
  pia_ids : option (list Id);
  pia_indices : option (list (gmap string AttributeRecord))
}.

(** A reference to an attribute record: the position of the instance and
    the attribute name, that is the object
    [_perInstanceAttributes.indices[i][name]].  The dirty queue and the
    closures of the accessors hold such references: the records are shared,
    not copied.  The table they point into is the one the success callback
    stores in [_perInstanceAttributes], which happens once and before any
    accessor can be obtained. *)
Definition AttributeRef : Type := nat * string.

(** ** The primitive *)

(** The fields assigned by the constructor, in its order, followed by the
    property [_geomtries] that [update] adds: [None] while the object has no
    such property, [Some None] once it holds [undefined].  [_appearance] and
    [_material] hold the identity of the object last seen, [_va] and [_rs]
    hold renderer handles. *)
Record Primitive : Type := {
  geometryInstances : option GeometryInstances;
  appearance : option Appearance;
  _appearance : option nat;
  _material : option nat;
  modelMatrix : Matrix4;
  show : bool;
  state : PrimitiveState;
  _geometries : option (list Geometry);
  _vaAttributes : option (list (list VertexArrayAttribute));
  _vertexCacheOptimize : bool;
  _releaseGeometryInstances : bool;
  _allow3DOnly : bool;
  _boundingSphere : option BoundingSphere;
  _boundingSphere2D : option BoundingSphere;
  _perInstanceAttributes : option PerInstanceAttributes;
  _lastPerInstanceAttributeIndex : nat;
  _dirtyAttributes : list AttributeRef;
  _va : list nat;
  _attributeIndices : option (gmap string nat);
  _rs : option nat;
  _sp : option ShaderProgram;
  _pickSP : option ShaderProgram;
  _pickIds : list PickId;
  _commandLists : CommandLists;
  _geomtries : option (option (list Geometry))
}.

Definition set_geometryInstances (v : option GeometryInstances) (p : Primitive) : Primitive :=
  {| geometryInstances := v; appearance := appearance p; _appearance := _appearance p;
     _material := _material p; modelMatrix := modelMatrix p; show := show p;
     state := state p; _geometries := _geometries p; _vaAttributes := _vaAttributes p;
     _vertexCacheOptimize := _vertexCacheOptimize p;
     _releaseGeometryInstances := _releaseGeometryInstances p;
     _allow3DOnly := _allow3DOnly p; _boundingSphere := _boundingSphere p;
     _boundingSphere2D := _boundingSphere2D p;
     _perInstanceAttributes := _perInstanceAttributes p;
     _lastPerInstanceAttributeIndex := _lastPerInstanceAttributeIndex p;
     _dirtyAttributes := _dirtyAttributes p; _va := _va p;
     _attributeIndices := _attributeIndices p; _rs := _rs p; _sp := _sp p;
     _pickSP := _pickSP p; _pickIds := _pickIds p; _commandLists := _commandLists p;
     _geomtries := _geomtries p |}.

Definition set__appearance (v : option nat) (p : Primitive) : Primitive :=
  {| geometryInstances := geometryInstances p; appearance := appearance p;
     _appearance := v; _material := _material p; modelMatrix := modelMatrix p;
     show := show p; state := state p; _geometries := _geometries p;
     _vaAttributes := _vaAttributes p; _vertexCacheOptimize := _vertexCacheOptimize p;
     _releaseGeometryInstances := _releaseGeometryInstances p;
     _allow3DOnly := _allow3DOnly p; _boundingSphere := _boundingSphere p;
     _boundingSphere2D := _boundingSphere2D p;
     _perInstanceAttributes := _perInstanceAttributes p;
     _lastPerInstanceAttributeIndex := _lastPerInstanceAttributeIndex p;
     _dirtyAttributes := _dirtyAttributes p; _va := _va p;
     _attributeIndices := _attributeIndices p; _rs := _rs p; _sp := _sp p;
     _pickSP := _pickSP p; _pickIds := _pickIds p; _commandLists := _commandLists p;
     _geomtries := _geomtries p |}.

Definition set__material (v : option nat) (p : Primitive) : Primitive :=
  {| geometryInstances := geometryInstances p; appearance := appearance p;
     _appearance := _appearance p; _material := v; modelMatrix := modelMatrix p;
     show := show p; state := state p; _geometries := _geometries p;
     _vaAttributes := _vaAttributes p; _vertexCacheOptimize := _vertexCacheOptimize p;
     _releaseGeometryInstances := _releaseGeometryInstances p;
     _allow3DOnly := _allow3DOnly p; _boundingSphere := _boundingSphere p;
     _boundingSphere2D := _boundingSphere2D p;
     _perInstanceAttributes := _perInstanceAttributes p;
     _lastPerInstanceAttributeIndex := _lastPerInstanceAttributeIndex p;
     _dirtyAttributes := _dirtyAttributes p; _va := _va p;
     _attributeIndices := _attributeIndices p; _rs := _rs p; _sp := _sp p;
     _pickSP := _pickSP p; _pickIds := _pickIds p; _commandLists := _commandLists p;
     _geomtries := _geomtries p |}.

Definition set_modelMatrix (v : Matrix4) (p : Primitive) : Primitive :=
  {| geometryInstances := geometryInstances p; appearance := appearance p;
     _appearance := _appearance p; _material := _material p; modelMatrix := v;
     show := show p; state := state p; _geometries := _geometries p;
     _vaAttributes := _vaAttributes p; _vertexCacheOptimize := _vertexCacheOptimize p;
     _releaseGeometryInstances := _releaseGeometryInstances p;
     _allow3DOnly := _allow3DOnly p; _boundingSphere := _boundingSphere p;
     _boundingSphere2D := _boundingSphere2D p;
     _perInstanceAttributes := _perInstanceAttributes p;
     _lastPerInstanceAttributeIndex := _lastPerInstanceAttributeIndex p;
     _dirtyAttributes := _dirtyAttributes p; _va := _va p;
     _attributeIndices := _attributeIndices p; _rs := _rs p; _sp := _sp p;
     _pickSP := _pickSP p; _pickIds := _pickIds p; _commandLists := _commandLists p;
     _geomtries := _geomtries p |}.

Definition set_state (v : PrimitiveState) (p : Primitive) : Primitive :=
  {| geometryInstances := geometryInstances p; appearance := appearance p;
     _appearance := _appearance p; _material := _material p;
     modelMatrix := modelMatrix p; show := show p; state := v;
     _geometries := _geometries p; _vaAttributes := _vaAttributes p;
     _vertexCacheOptimize := _vertexCacheOptimize p;
     _releaseGeometryInstances := _releaseGeometryInstances p;
     _allow3DOnly := _allow3DOnly p; _boundingSphere := _boundingSphere p;
     _boundingSphere2D := _boundingSphere2D p;
     _perInstanceAttributes := _perInstanceAttributes p;
     _lastPerInstanceAttributeIndex := _lastPerInstanceAttributeIndex p;
     _dirtyAttributes := _dirtyAttributes p; _va := _va p;
     _attributeIndices := _attributeIndices p; _rs := _rs p; _sp := _sp p;
     _pickSP := _pickSP p; _pickIds := _pickIds p; _commandLists := _commandLists p;
     _geomtries := _geomtries p |}.

Definition set__geometries (v : option (list Geometry)) (p : Primitive) : Primitive :=
  {| geometryInstances := geometryInstances p; appearance := appearance p;
     _appearance := _appearance p; _material := _material p;
     modelMatrix := modelMatrix p; show := show p; state := state p; _geometries := v;
     _vaAttributes := _vaAttributes p; _vertexCacheOptimize := _vertexCacheOptimize p;
     _releaseGeometryInstances := _releaseGeometryInstances p;
     _allow3DOnly := _allow3DOnly p; _boundingSphere := _boundingSphere p;
     _boundingSphere2D := _boundingSphere2D p;
     _perInstanceAttributes := _perInstanceAttributes p;
     _lastPerInstanceAttributeIndex := _lastPerInstanceAttributeIndex p;
     _dirtyAttributes := _dirtyAttributes p; _va := _va p;
     _attributeIndices := _attributeIndices p; _rs := _rs p; _sp := _sp p;
     _pickSP := _pickSP p; _pickIds := _pickIds p; _commandLists := _commandLists p;
     _geomtries := _geomtries p |}.

Definition set__vaAttributes (v : option (list (list VertexArrayAttribute))) (p : Primitive) : Primitive :=
  {| geometryInstances := geometryInstances p; appearance := appearance p;
     _appearance := _appearance p; _material := _material p;
     modelMatrix := modelMatrix p; show := show p; state := state p;
     _geometries := _geometries p; _vaAttributes := v;
     _vertexCacheOptimize := _vertexCacheOptimize p;
     _releaseGeometryInstances := _releaseGeometryInstances p;
     _allow3DOnly := _allow3DOnly p; _boundingSphere := _boundingSphere p;
     _boundingSphere2D := _boundingSphere2D p;
     _perInstanceAttributes := _perInstanceAttributes p;
     _lastPerInstanceAttributeIndex := _lastPerInstanceAttributeIndex p;
     _dirtyAttributes := _dirtyAttributes p; _va := _va p;
     _attributeIndices := _attributeIndices p; _rs := _rs p; _sp := _sp p;
     _pickSP := _pickSP p; _pickIds := _pickIds p; _commandLists := _commandLists p;
     _geomtries := _geomtries p |}.

Definition set__boundingSphere (v : option BoundingSphere) (p : Primitive) : Primitive :=
  {| geometryInstances := geometryInstances p; appearance := appearance p;
     _appearance := _appearance p; _material := _material p;
     modelMatrix := modelMatrix p; show := show p; state := state p;
     _geometries := _geometries p; _vaAttributes := _vaAttributes p;
     _vertexCacheOptimize := _vertexCacheOptimize p;
     _releaseGeometryInstances := _releaseGeometryInstances p;
     _allow3DOnly := _allow3DOnly p; _boundingSphere := v;
     _boundingSphere2D := _boundingSphere2D p;
     _perInstanceAttributes := _perInstanceAttributes p;
     _lastPerInstanceAttributeIndex := _lastPerInstanceAttributeIndex p;
     _dirtyAttributes := _dirtyAttributes p; _va := _va p;
     _attributeIndices := _attributeIndices p; _rs := _rs p; _sp := _sp p;
     _pickSP := _pickSP p; _pickIds := _pickIds p; _commandLists := _commandLists p;
     _geomtries := _geomtries p |}.

Definition set__boundingSphere2D (v : option BoundingSphere) (p : Primitive) : Primitive :=
  {| geometryInstances := geometryInstances p; appearance := appearance p;
     _appearance := _appearance p; _material := _material p;
     modelMatrix := modelMatrix p; show := show p; state := state p;
     _geometries := _geometries p; _vaAttributes := _vaAttributes p;
     _vertexCacheOptimize := _vertexCacheOptimize p;
     _releaseGeometryInstances := _releaseGeometryInstances p;
     _allow3DOnly := _allow3DOnly p; _boundingSphere := _boundingSphere p;
     _boundingSphere2D := v; _perInstanceAttributes := _perInstanceAttributes p;
     _lastPerInstanceAttributeIndex := _lastPerInstanceAttributeIndex p;
     _dirtyAttributes := _dirtyAttributes p; _va := _va p;
     _attributeIndices := _attributeIndices p; _rs := _rs p; _sp := _sp p;
     _pickSP := _pickSP p; _pickIds := _pickIds p; _commandLists := _commandLists p;
     _geomtries := _geomtries p |}.

Definition set__perInstanceAttributes (v : option PerInstanceAttributes) (p : Primitive) : Primitive :=
  {| geometryInstances := geometryInstances p; appearance := appearance p;
     _appearance := _appearance p; _material := _material p;
     modelMatrix := modelMatrix p; show := show p; state := state p;
     _geometries := _geometries p; _vaAttributes := _vaAttributes p;
     _vertexCacheOptimize := _vertexCacheOptimize p;
     _releaseGeometryInstances := _releaseGeometryInstances p;
     _allow3DOnly := _allow3DOnly p; _boundingSphere := _boundingSphere p;
     _boundingSphere2D := _boundingSphere2D p; _perInstanceAttributes := v;
     _lastPerInstanceAttributeIndex := _lastPerInstanceAttributeIndex p;
     _dirtyAttributes := _dirtyAttributes p; _va := _va p;
     _attributeIndices := _attributeIndices p; _rs := _rs p; _sp := _sp p;
     _pickSP := _pickSP p; _pickIds := _pickIds p; _commandLists := _commandLists p;
     _geomtries := _geomtries p |}.

Definition set__lastPerInstanceAttributeIndex (v : nat) (p : Primitive) : Primitive :=
  {| geometryInstances := geometryInstances p; appearance := appearance p;
     _appearance := _appearance p; _material := _material p;
     modelMatrix := modelMatrix p; show := show p; state := state p;
     _geometries := _geometries p; _vaAttributes := _vaAttributes p;
     _vertexCacheOptimize := _vertexCacheOptimize p;
     _releaseGeometryInstances := _releaseGeometryInstances p;
     _allow3DOnly := _allow3DOnly p; _boundingSphere := _boundingSphere p;
     _boundingSphere2D := _boundingSphere2D p;
     _perInstanceAttributes := _perInstanceAttributes p;
     _lastPerInstanceAttributeIndex := v; _dirtyAttributes := _dirtyAttributes p;
     _va := _va p; _attributeIndices := _attributeIndices p; _rs := _rs p; _sp := _sp p;
     _pickSP := _pickSP p; _pickIds := _pickIds p; _commandLists := _commandLists p;
     _geomtries := _geomtries p |}.

Definition set__dirtyAttributes (v : list AttributeRef) (p : Primitive) : Primitive :=
  {| geometryInstances := geometryInstances p; appearance := appearance p;
     _appearance := _appearance p; _material := _material p;
     modelMatrix := modelMatrix p; show := show p; state := state p;
     _geometries := _geometries p; _vaAttributes := _vaAttributes p;
     _vertexCacheOptimize := _vertexCacheOptimize p;
     _releaseGeometryInstances := _releaseGeometryInstances p;
     _allow3DOnly := _allow3DOnly p; _boundingSphere := _boundingSphere p;
     _boundingSphere2D := _boundingSphere2D p;
     _perInstanceAttributes := _perInstanceAttributes p;
     _lastPerInstanceAttributeIndex := _lastPerInstanceAttributeIndex p;
     _dirtyAttributes := v; _va := _va p; _attributeIndices := _attributeIndices p;
     _rs := _rs p; _sp := _sp p; _pickSP := _pickSP p; _pickIds := _pickIds p;
     _commandLists := _commandLists p; _geomtries := _geomtries p |}.

Definition set__va (v : list nat) (p : Primitive) : Primitive :=
  {| geometryInstances := geometryInstances p; appearance := appearance p;
     _appearance := _appearance p; _material := _material p;
     modelMatrix := modelMatrix p; show := show p; state := state p;
     _geometries := _geometries p; _vaAttributes := _vaAttributes p;
     _vertexCacheOptimize := _vertexCacheOptimize p;
     _releaseGeometryInstances := _releaseGeometryInstances p;
     _allow3DOnly := _allow3DOnly p; _boundingSphere := _boundingSphere p;
     _boundingSphere2D := _boundingSphere2D p;
     _perInstanceAttributes := _perInstanceAttributes p;
     _lastPerInstanceAttributeIndex := _lastPerInstanceAttributeIndex p;
     _dirtyAttributes := _dirtyAttributes p; _va := v;
     _attributeIndices := _attributeIndices p; _rs := _rs p; _sp := _sp p;
     _pickSP := _pickSP p; _pickIds := _pickIds p; _commandLists := _commandLists p;
     _geomtries := _geomtries p |}.

Definition set__attributeIndices (v : option (gmap string nat)) (p : Primitive) : Primitive :=
  {| geometryInstances := geometryInstances p; appearance := appearance p;
     _appearance := _appearance p; _material := _material p;
     modelMatrix := modelMatrix p; show := show p; state := state p;
     _geometries := _geometries p; _vaAttributes := _vaAttributes p;
     _vertexCacheOptimize := _vertexCacheOptimize p;
     _releaseGeometryInstances := _releaseGeometryInstances p;
     _allow3DOnly := _allow3DOnly p; _boundingSphere := _boundingSphere p;
     _boundingSphere2D := _boundingSphere2D p;
     _perInstanceAttributes := _perInstanceAttributes p;
     _lastPerInstanceAttributeIndex := _lastPerInstanceAttributeIndex p;
     _dirtyAttributes := _dirtyAttributes p; _va := _va p; _attributeIndices := v;
     _rs := _rs p; _sp := _sp p; _pickSP := _pickSP p; _pickIds := _pickIds p;
     _commandLists := _commandLists p; _geomtries := _geomtries p |}.

Definition set__rs (v : option nat) (p : Primitive) : Primitive :=
  {| geometryInstances := geometryInstances p; appearance := appearance p;
     _appearance := _appearance p; _material := _material p;
     modelMatrix := modelMatrix p; show := show p; state := state p;
     _geometries := _geometries p; _vaAttributes := _vaAttributes p;
     _vertexCacheOptimize := _vertexCacheOptimize p;
     _releaseGeometryInstances := _releaseGeometryInstances p;
     _allow3DOnly := _allow3DOnly p; _boundingSphere := _boundingSphere p;
     _boundingSphere2D := _boundingSphere2D p;
     _perInstanceAttributes := _perInstanceAttributes p;
     _lastPerInstanceAttributeIndex := _lastPerInstanceAttributeIndex p;
     _dirtyAttributes := _dirtyAttributes p; _va := _va p;
     _attributeIndices := _attributeIndices p; _rs := v; _sp := _sp p;
     _pickSP := _pickSP p; _pickIds := _pickIds p; _commandLists := _commandLists p;
     _geomtries := _geomtries p |}.

Definition set__sp (v : option ShaderProgram) (p : Primitive) : Primitive :=
  {| geometryInstances := geometryInstances p; appearance := appearance p;
     _appearance := _appearance p; _material := _material p;
     modelMatrix := modelMatrix p; show := show p; state := state p;
     _geometries := _geometries p; _vaAttributes := _vaAttributes p;
     _vertexCacheOptimize := _vertexCacheOptimize p;
     _releaseGeometryInstances := _releaseGeometryInstances p;
     _allow3DOnly := _allow3DOnly p; _boundingSphere := _boundingSphere p;
     _boundingSphere2D := _boundingSphere2D p;
     _perInstanceAttributes := _perInstanceAttributes p;
     _lastPerInstanceAttributeIndex := _lastPerInstanceAttributeIndex p;
     _dirtyAttributes := _dirtyAttributes p; _va := _va p;
     _attributeIndices := _attributeIndices p; _rs := _rs p; _sp := v;
     _pickSP := _pickSP p; _pickIds := _pickIds p; _commandLists := _commandLists p;
     _geomtries := _geomtries p |}.

Definition set__pickSP (v : option ShaderProgram) (p : Primitive) : Primitive :=
  {| geometryInstances := geometryInstances p; appearance := appearance p;
     _appearance := _appearance p; _material := _material p;
     modelMatrix := modelMatrix p; show := show p; state := state p;
     _geometries := _geometries p; _vaAttributes := _vaAttributes p;
     _vertexCacheOptimize := _vertexCacheOptimize p;
     _releaseGeometryInstances := _releaseGeometryInstances p;
     _allow3DOnly := _allow3DOnly p; _boundingSphere := _boundingSphere p;
     _boundingSphere2D := _boundingSphere2D p;
     _perInstanceAttributes := _perInstanceAttributes p;
     _lastPerInstanceAttributeIndex := _lastPerInstanceAttributeIndex p;
     _dirtyAttributes := _dirtyAttributes p; _va := _va p;
     _attributeIndices := _attributeIndices p; _rs := _rs p; _sp := _sp p; _pickSP := v;
     _pickIds := _pickIds p; _commandLists := _commandLists p;
     _geomtries := _geomtries p |}.

Definition set__pickIds (v : list PickId) (p : Primitive) : Primitive :=
  {| geometryInstances := geometryInstances p; appearance := appearance p;
     _appearance := _appearance p; _material := _material p;
     modelMatrix := modelMatrix p; show := show p; state := state p;
     _geometries := _geometries p; _vaAttributes := _vaAttributes p;
     _vertexCacheOptimize := _vertexCacheOptimize p;
     _releaseGeometryInstances := _releaseGeometryInstances p;
     _allow3DOnly := _allow3DOnly p; _boundingSphere := _boundingSphere p;
     _boundingSphere2D := _boundingSphere2D p;
     _perInstanceAttributes := _perInstanceAttributes p;
     _lastPerInstanceAttributeIndex := _lastPerInstanceAttributeIndex p;
     _dirtyAttributes := _dirtyAttributes p; _va := _va p;
     _attributeIndices := _attributeIndices p; _rs := _rs p; _sp := _sp p;
     _pickSP := _pickSP p; _pickIds := v; _commandLists := _commandLists p;
     _geomtries := _geomtries p |}.

Definition set__commandLists (v : CommandLists) (p : Primitive) : Primitive :=
  {| geometryInstances := geometryInstances p; appearance := appearance p;
     _appearance := _appearance p; _material := _material p;
     modelMatrix := modelMatrix p; show := show p; state := state p;
     _geometries := _geometries p; _vaAttributes := _vaAttributes p;
     _vertexCacheOptimize := _vertexCacheOptimize p;
     _releaseGeometryInstances := _releaseGeometryInstances p;
     _allow3DOnly := _allow3DOnly p; _boundingSphere := _boundingSphere p;
     _boundingSphere2D := _boundingSphere2D p;
     _perInstanceAttributes := _perInstanceAttributes p;
     _lastPerInstanceAttributeIndex := _lastPerInstanceAttributeIndex p;
     _dirtyAttributes := _dirtyAttributes p; _va := _va p;
     _attributeIndices := _attributeIndices p; _rs := _rs p; _sp := _sp p;
     _pickSP := _pickSP p; _pickIds := _pickIds p; _commandLists := v;
     _geomtries := _geomtries p |}.

Definition set__geomtries (v : option (option (list Geometry))) (p : Primitive) : Primitive :=
  {| geometryInstances := geometryInstances p; appearance := appearance p;
     _appearance := _appearance p; _material := _material p;
     modelMatrix := modelMatrix p; show := show p; state := state p;
     _geometries := _geometries p; _vaAttributes := _vaAttributes p;
     _vertexCacheOptimize := _vertexCacheOptimize p;
     _releaseGeometryInstances := _releaseGeometryInstances p;
     _allow3DOnly := _allow3DOnly p; _boundingSphere := _boundingSphere p;
     _boundingSphere2D := _boundingSphere2D p;
     _perInstanceAttributes := _perInstanceAttributes p;
     _lastPerInstanceAttributeIndex := _lastPerInstanceAttributeIndex p;
     _dirtyAttributes := _dirtyAttributes p; _va := _va p;
     _attributeIndices := _attributeIndices p; _rs := _rs p; _sp := _sp p;
     _pickSP := _pickSP p; _pickIds := _pickIds p; _commandLists := _commandLists p;
     _geomtries := v |}.

(** ** The rendering context, the task processor and the world *)

(** The calls by which [update] creates or changes a resource of the
    renderer, on the context and on the objects it returned.  A created
    resource is identified by the position of its call in the log.  The
    query [context.getElementIndexUint()] creates and changes nothing and is
    not logged. *)
Inductive ContextCall : Type :=
| createPickId (object : PickObject)
| createVertexBuffer (values : option TypedArray) (usage : BufferUsage)
| createVertexArrayFromGeometry (geometry : Geometry)
    (attributeIndices : option (gmap string nat)) (bufferUsage : BufferUsage)
    (vertexArrayAttributes : list VertexArrayAttribute)
| createRenderState (renderState : nat)
| replaceShaderProgram (shaderProgram : option ShaderProgram)
    (vertexShaderSource fragmentShaderSource : ShaderSource)
    (attributeIndices : option (gmap string nat))
| copyFromArrayView (vertexBuffer : nat) (arrayView : TypedArray) (offsetInBytes : nat).

(** The context: whether 32-bit indices are supported, the active vertex
    attributes the GL reports for a pair of shader sources, and the log of
    calls made so far. *)
Record Context : Type := {
  ctx_elementIndexUint : bool;
  ctx_activeVertexAttributes : ShaderSource -> ShaderSource -> list string;
  ctx_calls : list ContextCall
}.

Definition log_call (call : ContextCall) (context : Context) : Context :=
  {| ctx_elementIndexUint := ctx_elementIndexUint context;
     ctx_activeVertexAttributes := ctx_activeVertexAttributes context;
     ctx_calls := ctx_calls context ++ [call] |}.

Record Projection : Type := {
  proj_ellipsoid : nat;
  proj_isGeographic : bool
}.

Record Passes : Type := {
  color : bool;
  pick : bool
}.

Record FrameState : Type := {
  mode : SceneMode;
  passes : Passes;
  scene2D_projection : Projection
}.

(** The message [update] hands to [taskProcessor.scheduleTask]. *)
Record Task : Type := {
  task : string;
  task_instances : list GeometryInstance;
  task_pickIds : list nat;
  task_ellipsoid : nat;
  task_isGeographic : bool;
  task_elementIndexUintSupported : bool;
  task_allow3DOnly : bool;
  task_vertexCacheOptimize : bool;
  task_modelMatrix : Matrix4
}.

(** The buffers listed as transferable: the buffer of attribute [name] or
    of the indices of the cloned instance at a position. *)
Inductive BufferRef : Type :=
| AttributeBuffer (instance : nat) (name : string)
| IndicesBuffer (instance : nat).

Global Instance BufferRef_eq_dec : EqDecision BufferRef.
Proof. solve_decision. Defined.

(** The answer of [taskProcessor.scheduleTask]: a promise, or [undefined]
    when the processor declines the task. *)
Definition TaskProcessor : Type := Task -> list BufferRef -> option nat.

(** What the combine task resolves with. *)
Record CombineResult : Type := {
  res_geometries : list Geometry;
  res_attributeIndices : gmap string nat;
  res_vaAttributes : list (list VertexArrayAttribute);
  res_vaAttributeIndices : option PerInstanceAttributes;
  res_modelMatrix : Matrix4
}.

(** Everything [update] and the accessors can change: the primitive, the
    context, and the promises on which [when] registered the primitive's
    callbacks and which have not been settled yet. *)
Record World : Type := {
  this : Primitive;
  context : Context;
  callbacks : list nat
}.

Definition set_this (p : Primitive) (w : World) : World :=
  {| this := p; context := context w; callbacks := callbacks w |}.

Definition set_context (c : Context) (w : World) : World :=
  {| this := this w; context := c; callbacks := callbacks w |}.

Definition set_callbacks (l : list nat) (w : World) : World :=
  {| this := this w; context := context w; callbacks := l |}.

(** ** The monad of a method body *)

Definition M (A : Type) : Type := World -> Completion A * World.

Definition ret {A} (a : A) : M A := fun w => (Return a, w).

Definition throw {A} (e : Exception) : M A := fun w => (Throw e, w).

Definition bind {A B} (m : M A) (f : A -> M B) : M B :=
  fun w =>
    match m w with
    | (Return a, w') => f a w'
    | (Throw e, w') => (Throw e, w')
    end.

Declare Scope js_scope.
Delimit Scope js_scope with js.
Notation "x <- m ;; k" := (bind m (fun x => k))
  (at level 100, m at next level, right associativity) : js_scope.
Notation "m ;; k" := (bind m (fun _ => k))
  (at level 100, right associativity) : js_scope.

(** Reading and assigning the fields of [this]. *)
Definition get {A} (field : Primitive -> A) : M A := fun w => (Return (field (this w)), w).

Definition assign (setter : Primitive -> Primitive) : M unit :=
  fun w => (Return tt, set_this (setter (this w)) w).

(** A call on the context: it is logged and yields the position of the
    call, which names the resource it created. *)
Definition call (c : ContextCall) : M nat :=
  fun w => (Return (length (ctx_calls (context w))), set_context (log_call c (context w)) w).

(** Reading a property of a value that may be [undefined]. *)
Definition defined {A} (o : option A) : M A :=
  match o with
  | Some a => ret a
  | None => throw TypeError
  end.

(** [for (i = 0; i < length; ++i) body(i, l[i])] *)
Fixpoint for_each_from {A} (i : nat) (l : list A) (body : nat -> A -> M unit) : M unit :=
  match l with
  | [] => ret tt
  | x :: rest => bind (body i x) (fun _ => for_each_from (S i) rest body)
  end.

Definition for_each {A} (l : list A) (body : nat -> A -> M unit) : M unit :=
  for_each_from 0 l body.

Local Open Scope js_scope.

(** ** The constructor *)

Record Options : Type := {
  opt_geometryInstances : option GeometryInstances;
  opt_appearance : option Appearance;
  opt_vertexCacheOptimize : option bool;
  opt_releaseGeometryInstances : option bool;
  opt_allow3DOnly : option bool
}.

(** Core/defaultValue.js *)
Definition defaultValue {A} (a : option A) (b : A) : A :=
  match a with
  | Some x => x
  | None => b
  end.

(** [new Primitive(options)] *)
Definition new_Primitive (options : Options) : Primitive :=
  {| geometryInstances := opt_geometryInstances options;
     appearance := opt_appearance options;
     _appearance := None;
     _material := None;
     modelMatrix := Matrix4_IDENTITY;
     show := true;
     state := READY;
     _geometries := None;
     _vaAttributes := None;
     _vertexCacheOptimize := defaultValue (opt_vertexCacheOptimize options) true;
     _releaseGeometryInstances := defaultValue (opt_releaseGeometryInstances options) true;
     _allow3DOnly := defaultValue (opt_allow3DOnly options) false;
     _boundingSphere := None;
     _boundingSphere2D := None;
     _perInstanceAttributes := Some {| pia_ids := None; pia_indices := None |};
     _lastPerInstanceAttributeIndex := 0;
     _dirtyAttributes := [];
     _va := [];
     _attributeIndices := None;
     _rs := None;
     _sp := None;
     _pickSP := None;
     _pickIds := [];
     _commandLists := {| colorList := []; pickList := [] |};
     _geomtries := None |}.

(** ** Cloning the instances *)

Definition cloneAttribute (attribute : GeometryAttribute) : GeometryAttribute :=
  {| ga_componentDatatype := ga_componentDatatype attribute;
     ga_componentsPerAttribute := ga_componentsPerAttribute attribute;
     ga_normalize := ga_normalize attribute;
     ga_values := ga_values attribute |}.

(** Modelled from the spec: Core/GeometryAttributes.js is not among the
    sources.  [new GeometryAttributes()] has the standard vertex attributes
    as own properties, in this order, each holding [undefined]. *)
Definition new_GeometryAttributes : list (string * option GeometryAttribute) :=
  [("position", None); ("normal", None); ("st", None); ("binormal", None);
   ("tangent", None); ("color", None)].

(** [object[property] = value] on an object given by its own properties in
    enumeration order: a property the object has keeps its place, a new one
    comes last.  (The names here are names of attributes, none of which is
    an array index, which would be enumerated first.) *)
Fixpoint assign_property {A} (property : string) (value : A) (object : list (string * A))
  : list (string * A) :=
  match object with
  | [] => [(property, value)]
  | (name, old) :: rest =>
      if decide (name = property) then (name, value) :: rest
      else (name, old) :: assign_property property value rest
  end.

(** The loop of [cloneGeometry] over the own properties of [attributes]:
    those holding [undefined] are not copied. *)
Fixpoint cloneAttributes (attributes newAttributes : list (string * option GeometryAttribute))
  : list (string * option GeometryAttribute) :=
  match attributes with
  | [] => newAttributes
  | (property, Some attribute) :: rest =>
      cloneAttributes rest
        (assign_property property (Some (cloneAttribute attribute)) newAttributes)
  | (_, None) :: rest => cloneAttributes rest newAttributes
  end.

Definition cloneGeometry (geometry : Geometry) : Geometry :=
  {| g_attributes := cloneAttributes (g_attributes geometry) new_GeometryAttributes;
     g_indices := g_indices geometry;
     g_primitiveType := g_primitiveType geometry;
     g_boundingSphere := g_boundingSphere geometry |}.

Definition cloneGeometryInstanceAttribute (attribute : GeometryInstanceAttribute)
  : GeometryInstanceAttribute :=
  {| gia_componentDatatype := gia_componentDatatype attribute;
     gia_componentsPerAttribute := gia_componentsPerAttribute attribute;
     gia_normalize := gia_normalize attribute;
     gia_value := gia_value attribute |}.

(** The loop of [cloneInstance] over the own properties of [attributes]. *)
Fixpoint cloneInstanceAttributes
  (attributes newAttributes : list (string * GeometryInstanceAttribute))
  : list (string * GeometryInstanceAttribute) :=
  match attributes with
  | [] => newAttributes
  | (property, attribute) :: rest =>
      cloneInstanceAttributes rest
        (assign_property property (cloneGeometryInstanceAttribute attribute) newAttributes)
  end.

Definition cloneInstance (instance : GeometryInstance) : GeometryInstance :=
  {| gi_geometry := cloneGeometry (gi_geometry instance);
     gi_modelMatrix := gi_modelMatrix instance;
     gi_id := gi_id instance;
     gi_attributes := cloneInstanceAttributes (gi_attributes instance) [] |}.

(** ** Shader sources *)

Definition createColumbusViewShader (primitive : Primitive) (vertexShaderSource : ShaderSource)
  : ShaderSource :=
  ColumbusViewShader (_allow3DOnly primitive) vertexShaderSource.

Definition createPickVertexShaderSource (vertexShaderSource : ShaderSource) : ShaderSource :=
  PickVertexShader vertexShaderSource.

(** Renderer/createPickFragmentShaderSource.js *)
Definition createPickFragmentShaderSource (fragmentShaderSource : ShaderSource)
  (qualifier : string) : ShaderSource :=
  PickFragmentShader fragmentShaderSource qualifier.

(** [show] is not among the properties an object inherits, so the entry
    of the layout decides [typeof primitive._attributeIndices.show]. *)
Definition appendShow (primitive : Primitive) (vertexShaderSource : ShaderSource)
  : Completion ShaderSource :=
  match _attributeIndices primitive with
  | None => Throw TypeError
  | Some attributeIndices =>
      match attributeIndices !! "show" with
      | None => Return vertexShaderSource
      | Some _ => Return (ShowShader vertexShaderSource)
      end
  end.

(** ** validateShaderMatching *)

Definition mismatch_message (name : string) : string :=
  ("Appearance/Geometry mismatch.  The appearance requires vertex shader attribute input '"
   ++ name
   ++ "', which was not computed as part of the Geometry.  Use the appearance's vertexFormat property when constructing the geometry.")%string.

(** The properties a plain object inherits from [Object.prototype]. *)
Definition Object_prototype : list string :=
  ["constructor"; "hasOwnProperty"; "isPrototypeOf"; "propertyIsEnumerable";
   "toLocaleString"; "toString"; "valueOf"; "__proto__"; "__defineGetter__";
   "__defineSetter__"; "__lookupGetter__"; "__lookupSetter__"].

(** [typeof object[name] === 'undefined'] for a plain object whose own
    properties are the entries of [object], none of them holding
    [undefined]: the property is looked up in the object and then in its
    prototype. *)
Definition typeof_undefined {A} (object : gmap string A) (name : string) : bool :=
  match object !! name with
  | Some _ => false
  | None => negb (bool_decide (name ∈ Object_prototype))
  end.

(** The [for (var name in shaderAttributes)] loop; [names] are the own
    properties of [shaderAttributes]. *)
Fixpoint validate_names (names : list string) (attributeIndices : gmap string nat)
  : Completion unit :=
  match names with
  | [] => Return tt
  | name :: rest =>
      if typeof_undefined attributeIndices name
      then Throw (DeveloperError (mismatch_message name))
      else validate_names rest attributeIndices
  end.

Definition validateShaderMatching (shaderProgram : ShaderProgram)
  (attributeIndices : gmap string nat) : Completion unit :=
  let shaderAttributes := getVertexAttributes shaderProgram in
  validate_names shaderAttributes attributeIndices.

(** ** update *)

(** A computation that leaves the world alone. *)
Definition lift {A} (c : Completion A) : M A := fun w => (c, w).

(** [typeof o === 'undefined'] *)
Definition is_undefined {A} (o : option A) : bool :=
  match o with
  | Some _ => false
  | None => true
  end.

(** [Array.prototype.indexOf], [-1] when the element is absent. *)
Fixpoint indexOf (l : list BufferRef) (x : BufferRef) : Z :=
  match l with
  | [] => -1
  | y :: rest =>
      if decide (x = y) then 0
      else let i := indexOf rest x in if (i <? 0)%Z then -1 else (i + 1)
  end%Z.

(** The attribute loop of the READY branch for the cloned instance at
    position [i]. *)
Fixpoint collect_attribute_buffers (i : nat)
  (attributes : list (string * option GeometryAttribute))
  (transferableObjects : list BufferRef) : list BufferRef :=
  match attributes with
  | [] => transferableObjects
  | (name, Some _) :: rest =>
      if (indexOf transferableObjects (AttributeBuffer i name) <? 0)%Z
      then collect_attribute_buffers i rest (transferableObjects ++ [AttributeBuffer i name])
      else collect_attribute_buffers i rest transferableObjects
  | (_, None) :: rest => collect_attribute_buffers i rest transferableObjects
  end.

(** The first loop of the READY branch: the clones and the transferable
    buffers. *)
Fixpoint copy_instances (i : nat) (instances : list GeometryInstance)
  (transferableObjects : list BufferRef) : list GeometryInstance * list BufferRef :=
  match instances with
  | [] => ([], transferableObjects)
  | instance :: rest =>
      let inst := cloneInstance instance in
      let geometry := gi_geometry inst in
      let t := collect_attribute_buffers i (g_attributes geometry) transferableObjects in
      let t := match g_indices geometry with
               | Some _ => t ++ [IndicesBuffer i]
               | None => t
               end in
      let (insts, t) := copy_instances (S i) rest t in
      (inst :: insts, t)
  end.

Definition context_createPickId (object : PickObject) : M PickId :=
  key <- call (createPickId object) ;;
  ret {| pick_object := object; pick_color := key |}.

Definition context_getElementIndexUint : M bool :=
  fun w => (Return (ctx_elementIndexUint (context w)), w).

(** [defaultValue(insts[i].id, this)] *)
Definition pickObject (id : Id) : PickObject :=
  match id with
  | IdUndefined => PickPrimitive
  | id => PickInstance id
  end.

(** The second loop of the READY branch. *)
Fixpoint create_pick_ids (insts : list GeometryInstance) (pickColors : list nat)
  : M (list nat) :=
  match insts with
  | [] => ret pickColors
  | inst :: rest =>
      pickId <- context_createPickId (pickObject (gi_id inst)) ;;
      pickIds <- get _pickIds ;;
      assign (set__pickIds (pickIds ++ [pickId])) ;;
      create_pick_ids rest (pickColors ++ [pick_color pickId])
  end.

(** Modelled from the spec: ThirdParty/when is not among the sources.
    [when(promise, onSuccess, onFailure)] registers the two callbacks on the
    promise; the pending result is observed through a callback invoked
    exactly once, success or failure, after the call that dispatched the
    task has returned. *)
Definition when (promise : nat) : M unit :=
  fun w => (Return tt, set_callbacks (callbacks w ++ [promise]) w).

(** The success callback registered by [update]. *)
Definition on_combined (result : CombineResult) (that : Primitive) : Primitive :=
  let that := set__geometries (Some (res_geometries result)) that in
  let that := set__attributeIndices (Some (res_attributeIndices result)) that in
  let that := set__vaAttributes (Some (res_vaAttributes result)) that in
  let that := set__perInstanceAttributes (res_vaAttributeIndices result) that in
  let that := set_modelMatrix (res_modelMatrix result) that in
  set_state COMBINED that.

(** The failure callback registered by [update]. *)
Definition on_failed (that : Primitive) : Primitive :=
  set_state FAILED that.

(** The message of the combine task. *)
Definition combineGeometry (p : Primitive) (projection : Projection)
  (elementIndexUint : bool) (insts : list GeometryInstance) (pickColors : list nat) : Task :=
  {| task := "combineGeometry";
     task_instances := insts;
     task_pickIds := pickColors;
     task_ellipsoid := proj_ellipsoid projection;
     task_isGeographic := proj_isGeographic projection;
     task_elementIndexUintSupported := elementIndexUint;
     task_allow3DOnly := _allow3DOnly p;
     task_vertexCacheOptimize := _vertexCacheOptimize p;
     task_modelMatrix := modelMatrix p |}.

(** The branch of [update] for the READY state.  The result is [true]
    when the branch returned from [update] because the task processor gave
    no promise. *)
Definition READY_branch (taskProcessor : TaskProcessor) (frameState : FrameState) : M bool :=
  geometryInstances <- get geometryInstances ;;
  instances <- match geometryInstances with
               | Some (InstanceArray l) => ret l
               | Some (SingleInstance instance) => ret [instance]
               | None => throw TypeError
               end ;;
  let (insts, transferableObjects) := copy_instances 0 instances [] in
  pickColors <- create_pick_ids insts [] ;;
  let projection := scene2D_projection frameState in
  p <- get (fun this => this) ;;
  elementIndexUint <- context_getElementIndexUint ;;
  let promise :=
    taskProcessor (combineGeometry p projection elementIndexUint insts pickColors)
      transferableObjects in
  match promise with
  | None => ret true
  | Some promise =>
      when promise ;;
      assign (set_state COMBINING) ;;
      ret false
  end.

(** The inner loop of the COMBINED branch: every attribute of one merged
    geometry gets a vertex buffer and loses its values. *)
Fixpoint create_vertex_buffers (attributes : list VertexArrayAttribute)
  : M (list VertexArrayAttribute) :=
  match attributes with
  | [] => ret []
  | attribute :: rest =>
      vertexBuffer <- call (createVertexBuffer (vaa_values attribute) DYNAMIC_DRAW) ;;
      let attribute :=
        {| vaa_index := vaa_index attribute;
           vaa_componentDatatype := vaa_componentDatatype attribute;
           vaa_componentsPerAttribute := vaa_componentsPerAttribute attribute;
           vaa_normalize := vaa_normalize attribute;
           vaa_values := None;
           vaa_vertexBuffer := Some vertexBuffer |} in
      rest <- create_vertex_buffers rest ;;
      ret (attribute :: rest)
  end.

(** The first loop of the COMBINED branch, from position [i] on.  The local
    [vaAttributes] is the array held by [this._vaAttributes]; its elements
    are changed in place, so the field is read and written back here. *)
Fixpoint create_vertex_arrays (i : nat) (geometries : list Geometry)
  (attributeIndices : option (gmap string nat)) (va : list nat) : M (list nat) :=
  match geometries with
  | [] => ret va
  | geometry :: rest =>
      vaAttributes <- get _vaAttributes ;;
      vaAttributes <- defined vaAttributes ;;
      attributes <- defined (vaAttributes !! i) ;;
      attributes <- create_vertex_buffers attributes ;;
      assign (set__vaAttributes (Some (<[i := attributes]> vaAttributes))) ;;
      vertexArray <- call (createVertexArrayFromGeometry geometry attributeIndices
                             STATIC_DRAW attributes) ;;
      create_vertex_arrays (S i) rest attributeIndices (va ++ [vertexArray])
  end.

(** [new DrawCommand()] with the fields the COMBINED branch assigns. *)
Definition new_DrawCommand (primitiveType : nat) (vertexArray : option nat) : DrawCommand :=
  {| dc_primitiveType := primitiveType;
     dc_vertexArray := vertexArray;
     dc_renderState := None;
     dc_shaderProgram := None;
     dc_uniformMap := None;
     dc_modelMatrix := None;
     dc_boundingVolume := None |}.

(** The second loop of the COMBINED branch; [colorCommands] and
    [pickCommands] are the arrays of [this._commandLists]. *)
Definition create_commands (geometries : list Geometry) : M unit :=
  for_each geometries (fun i geometry =>
    va <- get _va ;;
    commandLists <- get _commandLists ;;
    let colorCommand := new_DrawCommand (g_primitiveType geometry) (va !! i) in
    let pickCommand := new_DrawCommand (g_primitiveType geometry) (va !! i) in
    assign (set__commandLists
              {| colorList := colorList commandLists ++ [colorCommand];
                 pickList := pickList commandLists ++ [pickCommand] |})).

(** The branch of [update] for the COMBINED state. *)
Definition COMBINED_branch (frameState : FrameState) : M unit :=
  let projection := scene2D_projection frameState in
  geometries <- get _geometries ;;
  attributeIndices <- get _attributeIndices ;;
  geometries <- defined geometries ;;
  first <- defined (geometries !! 0) ;;
  assign (set__boundingSphere (g_boundingSphere first)) ;;
  p <- get (fun this => this) ;;
  match _boundingSphere p with
  | Some sphere =>
      if negb (_allow3DOnly p)
      then assign (set__boundingSphere2D (Some (ProjectTo2D sphere (proj_ellipsoid projection))))
      else ret tt
  | None => ret tt
  end ;;
  va <- create_vertex_arrays 0 geometries attributeIndices [] ;;
  assign (set__va va) ;;
  create_commands geometries ;;
  release <- get _releaseGeometryInstances ;;
  (if release : bool then assign (set_geometryInstances None) else ret tt) ;;
  assign (set__geomtries (Some None)) ;;
  assign (set_state COMPLETE).

(** [shaderCache.replaceShaderProgram]: the program linked from the two
    sources, with the active vertex attributes the GL reports for them. *)
Definition shaderCache_replaceShaderProgram (shaderProgram : option ShaderProgram)
  (vertexShaderSource fragmentShaderSource : ShaderSource)
  (attributeIndices : option (gmap string nat)) : M ShaderProgram :=
  active <- (fun w => (Return (ctx_activeVertexAttributes (context w)
                                 vertexShaderSource fragmentShaderSource), w)) ;;
  handle <- call (replaceShaderProgram shaderProgram vertexShaderSource
                    fragmentShaderSource attributeIndices) ;;
  ret {| sp_handle := handle; sp_vertexAttributes := active |}.

Definition for_range (length : nat) (body : nat -> M unit) : M unit :=
  for_each (seq 0 length) (fun _ i => body i).

(** Assignments to the fields of [colorCommands[i]] and [pickCommands[i]]. *)
Definition modify_colorCommand (i : nat) (f : DrawCommand -> DrawCommand) : M unit :=
  commandLists <- get _commandLists ;;
  colorCommand <- defined (colorList commandLists !! i) ;;
  assign (set__commandLists
            {| colorList := <[i := f colorCommand]> (colorList commandLists);
               pickList := pickList commandLists |}).

Definition modify_pickCommand (i : nat) (f : DrawCommand -> DrawCommand) : M unit :=
  commandLists <- get _commandLists ;;
  pickCommand <- defined (pickList commandLists !! i) ;;
  assign (set__commandLists
            {| colorList := colorList commandLists;
               pickList := <[i := f pickCommand]> (pickList commandLists) |}).

Definition set_shading (renderState : option nat) (shaderProgram : option ShaderProgram)
  (uniformMap : option nat) (command : DrawCommand) : DrawCommand :=
  {| dc_primitiveType := dc_primitiveType command;
     dc_vertexArray := dc_vertexArray command;
     dc_renderState := renderState;
     dc_shaderProgram := shaderProgram;
     dc_uniformMap := uniformMap;
     dc_modelMatrix := dc_modelMatrix command;
     dc_boundingVolume := dc_boundingVolume command |}.

Definition set_dc_modelMatrix (modelMatrix : Matrix4) (command : DrawCommand) : DrawCommand :=
  {| dc_primitiveType := dc_primitiveType command;
     dc_vertexArray := dc_vertexArray command;
     dc_renderState := dc_renderState command;
     dc_shaderProgram := dc_shaderProgram command;
     dc_uniformMap := dc_uniformMap command;
     dc_modelMatrix := Some modelMatrix;
     dc_boundingVolume := dc_boundingVolume command |}.

Definition set_dc_boundingVolume (boundingVolume : option BoundingSphere)
  (command : DrawCommand) : DrawCommand :=
  {| dc_primitiveType := dc_primitiveType command;
     dc_vertexArray := dc_vertexArray command;
     dc_renderState := dc_renderState command;
     dc_shaderProgram := dc_shaderProgram command;
     dc_uniformMap := dc_uniformMap command;
     dc_modelMatrix := dc_modelMatrix command;
     dc_boundingVolume := boundingVolume |}.

(** Create or recreate render state and shader program if the appearance or
    its material changed. *)
Definition update_appearance : M unit :=
  appearance <- get appearance ;;
  appearance <- defined appearance ;;
  let material := ap_material appearance in
  p <- get (fun this => this) ;;
  flags <- (if negb (bool_decide (_appearance p = Some (ap_identity appearance)))
            then assign (set__appearance (Some (ap_identity appearance))) ;;
                 assign (set__material (mat_identity <$> material)) ;;
                 ret (true, true)
            else if negb (bool_decide (_material p = (mat_identity <$> material)))
            then assign (set__material (mat_identity <$> material)) ;;
                 ret (false, true)
            else ret (false, false)) ;;
  let (createRS, createSP) := flags : bool * bool in
  (if createRS
   then rs <- call (createRenderState (ap_renderState appearance)) ;;
        assign (set__rs (Some rs))
   else ret tt) ;;
  (if createSP
   then p <- get (fun this => this) ;;
        let vs := createColumbusViewShader p (ap_vertexShaderSource appearance) in
        vs <- lift (appendShow p vs) ;;
        let fs := ap_fragmentShaderSource appearance in
        sp <- shaderCache_replaceShaderProgram (_sp p) vs fs (_attributeIndices p) ;;
        assign (set__sp (Some sp)) ;;
        pickSP <- shaderCache_replaceShaderProgram (_pickSP p)
                    (createPickVertexShaderSource vs)
                    (createPickFragmentShaderSource fs "varying")
                    (_attributeIndices p) ;;
        assign (set__pickSP (Some pickSP)) ;;
        attributeIndices <- defined (_attributeIndices p) ;;
        lift (validateShaderMatching sp attributeIndices) ;;
        lift (validateShaderMatching pickSP attributeIndices)
   else ret tt) ;;
  (if createRS || createSP
   then p <- get (fun this => this) ;;
        let uniforms := mat_uniforms <$> material in
        for_range (length (colorList (_commandLists p))) (fun i =>
          modify_colorCommand i (set_shading (_rs p) (_sp p) uniforms) ;;
          modify_pickCommand i (set_shading (_rs p) (_pickSP p) uniforms))
   else ret tt).

(** [typedArray.set(source, offset)] on a typed array made for
    [componentDatatype]: a [RangeError] when the source does not fit,
    otherwise the elements of the source are stored, each converted to the
    element type of the array. *)
Definition typedArray_set (componentDatatype : ComponentDatatype)
  (typedArray source : TypedArray) (offset : nat) : Completion TypedArray :=
  if length typedArray <? offset + length source
  then Throw RangeError
  else Return (take offset typedArray ++ (toElement componentDatatype <$> source)
               ++ drop (offset + length source) typedArray).

(** [for (k = ...; k < count; ++k) typedArray.set(value, k * componentsPerAttribute)],
    with [remaining] iterations left. *)
Fixpoint fill_from (componentDatatype : ComponentDatatype) (k remaining : nat)
  (componentsPerAttribute : nat) (value typedArray : TypedArray) : Completion TypedArray :=
  match remaining with
  | 0 => Return typedArray
  | S remaining =>
      match typedArray_set componentDatatype typedArray value (k * componentsPerAttribute) with
      | Return typedArray =>
          fill_from componentDatatype (S k) remaining componentsPerAttribute value typedArray
      | Throw e => Throw e
      end
  end.

(** Modelled from the spec: Core/ComponentDatatype.js is not among the
    sources.  [createTypedArray(componentDatatype, length)] allocates the
    typed array of [length] elements that carries one partial buffer write;
    a new typed array holds zeros, and its element type is that of the
    datatype. *)
Definition createTypedArray (componentDatatype : ComponentDatatype) (length : nat)
  : TypedArray :=
  repeat 0%Z length.

(** The record an attribute reference denotes, and its replacement. *)
Definition lookup_record (ref : AttributeRef) (p : Primitive) : option AttributeRecord :=
  table ← _perInstanceAttributes p;
  indices ← pia_indices table;
  perInstanceAttributes ← indices !! ref.1;
  perInstanceAttributes !! ref.2.

Definition store_record (ref : AttributeRef) (record : AttributeRecord) (p : Primitive)
  : Primitive :=
  match _perInstanceAttributes p with
  | Some table =>
      match pia_indices table with
      | Some indices =>
          match indices !! ref.1 with
          | Some perInstanceAttributes =>
              set__perInstanceAttributes
                (Some {| pia_ids := pia_ids table;
                         pia_indices :=
                           Some (<[ref.1 := <[ref.2 := record]> perInstanceAttributes]> indices) |})
                p
          | None => p
          end
      | None => p
      end
  | None => p
  end.

Definition set_ar_value (value : TypedArray) (record : AttributeRecord) : AttributeRecord :=
  {| ar_value := value; ar_indices := ar_indices record; ar_dirty := ar_dirty record |}.

Definition set_ar_dirty (dirty : bool) (record : AttributeRecord) : AttributeRecord :=
  {| ar_value := ar_value record; ar_indices := ar_indices record; ar_dirty := dirty |}.

(** The vertex array attribute a range refers to. *)
Definition lookup_vaAttribute (path : nat * nat) (p : Primitive)
  : option VertexArrayAttribute :=
  vaAttributes ← _vaAttributes p;
  attributes ← vaAttributes !! path.1;
  attributes !! path.2.

(** The body of the loop over [attribute.indices]: one partial write. *)
Definition flush_range (value : TypedArray) (index : IndexRange) : M unit :=
  let offset := ir_offset index in
  let count := ir_count index in
  vaAttribute <- get (lookup_vaAttribute (ir_attribute index)) ;;
  vaAttribute <- defined vaAttribute ;;
  let componentDatatype := vaa_componentDatatype vaAttribute in
  let componentsPerAttribute := vaa_componentsPerAttribute vaAttribute in
  let typedArray := createTypedArray componentDatatype (count * componentsPerAttribute) in
  typedArray <- lift (fill_from componentDatatype 0 count componentsPerAttribute value
                        typedArray) ;;
  let offsetInBytes := offset * componentsPerAttribute * sizeInBytes componentDatatype in
  vertexBuffer <- defined (vaa_vertexBuffer vaAttribute) ;;
  call (copyFromArrayView vertexBuffer typedArray offsetInBytes) ;;
  ret tt.

(** The body of the loop over [this._dirtyAttributes]. *)
Definition flush_attribute (ref : AttributeRef) : M unit :=
  attribute <- get (lookup_record ref) ;;
  attribute <- defined attribute ;;
  let value := ar_value attribute in
  for_each (ar_indices attribute) (fun _ index => flush_range value index) ;;
  assign (store_record ref (set_ar_dirty false attribute)).

(** Update per-instance attributes. *)
Definition update_perInstanceAttributes : M unit :=
  attributes <- get _dirtyAttributes ;;
  if 0 <? length attributes
  then for_each attributes (fun _ attribute => flush_attribute attribute) ;;
       assign (set__dirtyAttributes [])
  else ret tt.

(** The bounding volume for the mode of the frame. *)
Definition select_boundingSphere (frameState : FrameState) (p : Primitive)
  : option BoundingSphere :=
  match mode frameState, _boundingSphere p, _boundingSphere2D p with
  | SCENE3D, sphere, _ => sphere
  | COLUMBUS_VIEW, _, sphere2D => sphere2D
  | SCENE2D, _, Some sphere2D => Some (CenterXZero sphere2D)
  | _, Some sphere, Some sphere2D => Some (Union sphere sphere2D)
  | _, _, _ => None
  end.

(** The last loop: model matrix and bounding volume of every command. *)
Definition update_commands (boundingSphere : option BoundingSphere) : M unit :=
  p <- get (fun this => this) ;;
  for_range (length (colorList (_commandLists p))) (fun i =>
    modify_colorCommand i (set_dc_modelMatrix (modelMatrix p)) ;;
    modify_pickCommand i (set_dc_modelMatrix (modelMatrix p)) ;;
    modify_colorCommand i (set_dc_boundingVolume boundingSphere) ;;
    modify_pickCommand i (set_dc_boundingVolume boundingSphere)).

(** The early-exit test at the head of [update]. *)
Definition early_exit (p : Primitive) (frameState : FrameState) : bool :=
  negb (show p)
  || (is_undefined (geometryInstances p) && (length (_va p) =? 0))
  || is_undefined (appearance p)
  || (negb (bool_decide (mode frameState = SCENE3D)) && _allow3DOnly p)
  || (negb (color (passes frameState)) && negb (pick (passes frameState))).

(** The part of [update] that runs once the state is COMPLETE. *)
Definition steady_state (frameState : FrameState) (commandList : list CommandLists)
  : M (list CommandLists) :=
  update_appearance ;;
  update_perInstanceAttributes ;;
  p <- get (fun this => this) ;;
  update_commands (select_boundingSphere frameState p) ;;
  commandLists <- get _commandLists ;;
  ret (commandList ++ [commandLists]).

(** [Primitive.prototype.update]; the result is the caller's command list
    after the call. *)
Definition update (taskProcessor : TaskProcessor) (frameState : FrameState)
  (commandList : list CommandLists) : M (list CommandLists) :=
  p <- get (fun this => this) ;;
  if early_exit p frameState then ret commandList else
  returned <- match state p with
              | READY => READY_branch taskProcessor frameState
              | COMBINED => COMBINED_branch frameState ;; ret false
              | _ => ret false
              end ;;
  if returned : bool then ret commandList else
  state <- get state ;;
  if negb (bool_decide (state = COMPLETE)) then ret commandList else
  steady_state frameState commandList.

(** ** Per-instance attribute accessors *)

(** The getter of property [name]; [perInstanceAttributes] is the position
    of the instance whose object the closure captured. *)
Definition createGetFunction (name : string) (perInstanceAttributes : nat) : M TypedArray :=
  attribute <- get (lookup_record (perInstanceAttributes, name)) ;;
  attribute <- defined attribute ;;
  ret (ar_value attribute).

Definition set_message : string := "value must be and array with length between 1 and 4.".

(** The setter of property [name]; the captured [dirtyList] is the array
    held by [this._dirtyAttributes].  The guard tests [typeof value] and
    then reads [value.length], which fails on [null]. *)
Definition createSetFunction (name : string) (perInstanceAttributes : nat) (value : Value)
  : M unit :=
  match value with
  | VUndefined => throw (DeveloperError set_message)
  | VNull => throw TypeError
  | VNoLength => throw (DeveloperError set_message)
  | VArray elements =>
      if (length elements <? 1) || (4 <? length elements)
      then throw (DeveloperError set_message)
      else
        attribute <- get (lookup_record (perInstanceAttributes, name)) ;;
        attribute <- defined attribute ;;
        let attribute := set_ar_value elements attribute in
        assign (store_record (perInstanceAttributes, name) attribute) ;;
        if negb (ar_dirty attribute)
        then dirtyList <- get _dirtyAttributes ;;
             assign (set__dirtyAttributes (dirtyList ++ [(perInstanceAttributes, name)])) ;;
             assign (store_record (perInstanceAttributes, name) (set_ar_dirty true attribute))
        else ret tt
  end.

(** The object returned by [getGeometryInstanceAttributes]: one property
    with a getter and a setter for every name listed, all closed over the
    attributes of the instance at [acc_perInstanceAttributes].  The names
    are listed in the order of the map that holds the records, which says
    nothing about the order in which the properties are enumerated; the
    properties below speak of membership only. *)
Record Accessors : Type := {
  acc_perInstanceAttributes : nat;
  acc_names : list string
}.

(** The search loop, at iteration [i] with [remaining] iterations left;
    [None] stands for the index [-1]. *)
Fixpoint search_from (i remaining lastIndex length : nat) (id : Id) (ids : list Id)
  : option nat :=
  match remaining with
  | 0 => None
  | S remaining =>
      let curIndex := (lastIndex + i) mod length in
      if decide (ids !! curIndex = Some id)
      then Some curIndex
      else search_from (S i) remaining lastIndex length id ids
  end.

Definition getGeometryInstanceAttributes (id : Id) : M (option Accessors) :=
  if decide (id = IdUndefined) then throw (DeveloperError "id is required") else
  table <- get _perInstanceAttributes ;;
  match table with
  | None =>
      throw (DeveloperError "must call update before calling getGeometryInstanceAttributes")
  | Some table =>
      lastIndex <- get _lastPerInstanceAttributeIndex ;;
      ids <- defined (pia_ids table) ;;
      let length := length ids in
      match search_from 0 length lastIndex length id ids with
      | None => ret None
      | Some index =>
          indices <- defined (pia_indices table) ;;
          let names := match indices !! index with
                       | Some perInstanceAttributes => (map_to_list perInstanceAttributes).*1
                       | None => []
                       end in
          assign (set__lastPerInstanceAttributeIndex index) ;;
          ret (Some {| acc_perInstanceAttributes := index; acc_names := names |})
      end
  end.

Definition isDestroyed : M bool := ret false.

(** ** The operations on a primitive *)

(** Modelled from the spec: the task processor and its promises are not
    among the sources.  Once dispatched, a combine resolves exactly once,
    with success or with failure; settling a promise runs the callback that
    [update] registered on it and forgets the registration.

    The operations below are those of a primitive during its life; [destroy]
    ends it, after which no method of the object may be called. *)
Definition settle (promise : nat) (callback : Primitive -> Primitive) (w : World) : World :=
  if bool_decide (promise ∈ callbacks w)
  then set_callbacks (filter (fun q => q ≠ promise) (callbacks w))
         (set_this (callback (this w)) w)
  else w.

Inductive Operation : Type :=
| call_update (taskProcessor : TaskProcessor) (frameState : FrameState)
    (commandList : list CommandLists)
| call_getGeometryInstanceAttributes (id : Id)
| call_get (name : string) (perInstanceAttributes : nat)
| call_set (name : string) (perInstanceAttributes : nat) (value : Value)
| call_isDestroyed
| promise_resolved (promise : nat) (result : CombineResult)
| promise_rejected (promise : nat).

(** The world after an operation, whether it returned or threw. *)
Definition perform (op : Operation) (w : World) : World :=
  match op with
  | call_update taskProcessor frameState commandList =>
      (update taskProcessor frameState commandList w).2
  | call_getGeometryInstanceAttributes id => (getGeometryInstanceAttributes id w).2
  | call_get name perInstanceAttributes => (createGetFunction name perInstanceAttributes w).2
  | call_set name perInstanceAttributes value =>
      (createSetFunction name perInstanceAttributes value w).2
  | call_isDestroyed => (isDestroyed w).2
  | promise_resolved promise result => settle promise (on_combined result) w
  | promise_rejected promise => settle promise on_failed w
  end.

(** The worlds a primitive can be in: freshly constructed, or one operation
    later. *)
Inductive reachable : World -> Prop :=
| reachable_new (options : Options) (c : Context) :
    reachable {| this := new_Primitive options; context := c; callbacks := [] |}
| reachable_perform (op : Operation) (w : World) :
    reachable w -> reachable (perform op w).

(** The edges of the state machine, each with the operation that takes
    it. *)
Inductive transition : Operation -> PrimitiveState -> PrimitiveState -> Prop :=
| transition_stay op s : transition op s s
| transition_dispatch taskProcessor frameState commandList :
    transition (call_update taskProcessor frameState commandList) READY COMBINING
| transition_combined promise result :
    transition (promise_resolved promise result) COMBINING COMBINED
| transition_failed promise :
    transition (promise_rejected promise) COMBINING FAILED
| transition_complete taskProcessor frameState commandList :
    transition (call_update taskProcessor frameState commandList) COMBINED COMPLETE.

(** ** A concrete scene

    Two instances sharing one geometry, the first with id ['a'] and a
    per-instance color, the second without id; a combine result for them;
    and the worlds along one run of the life cycle. *)
Module Sample.

(** [ComponentDatatype.FLOAT], whose typed array is a [Float32Array]. *)
Definition FLOAT : ComponentDatatype :=
  {| datatypeName := "FLOAT"; sizeInBytes := 4; typedArrayClass := Float32Array |}.

Definition position : GeometryAttribute :=
  {| ga_componentDatatype := FLOAT; ga_componentsPerAttribute := 3;
     ga_normalize := false; ga_values := [1; 2; 3]%Z |}.

Definition geometry : Geometry :=
  {| g_attributes := [("position", Some position); ("normal", None)];
     g_indices := Some [0]%Z; g_primitiveType := 4;
     g_boundingSphere := Some (Sphere 0) |}.

Definition instance (id : Id) : GeometryInstance :=
  {| gi_geometry := geometry; gi_modelMatrix := Matrix4_IDENTITY;
     gi_id := id; gi_attributes := [] |}.

Definition surface : Appearance :=
  {| ap_identity := 7; ap_material := None; ap_renderState := 0;
     ap_vertexShaderSource := SourceText "vs";
     ap_fragmentShaderSource := SourceText "fs" |}.

Definition options : Options :=
  {| opt_geometryInstances :=
       Some (InstanceArray [instance (IdString "a"); instance IdUndefined]);
     opt_appearance := Some surface;
     opt_vertexCacheOptimize := None;
     opt_releaseGeometryInstances := None;
     opt_allow3DOnly := None |}.

Definition gl : Context :=
  {| ctx_elementIndexUint := true;
     ctx_activeVertexAttributes := fun _ _ => ["position"];
     ctx_calls := [] |}.

Definition frameState (m : SceneMode) : FrameState :=
  {| mode := m; passes := {| color := true; pick := true |};
     scene2D_projection := {| proj_ellipsoid := 0; proj_isGeographic := true |} |}.

Definition accept : TaskProcessor := fun _ _ => Some 5.
Definition decline : TaskProcessor := fun _ _ => None.

Definition colorOfA : AttributeRecord :=
  {| ar_value := [1; 1; 1; 1]%Z;
     ar_indices := [{| ir_attribute := (0, 0); ir_offset := 2; ir_count := 3 |}];
     ar_dirty := false |}.

Definition result : CombineResult :=
  {| res_geometries := [geometry];
     res_attributeIndices := {[ "position" := 0 ]};
     res_vaAttributes :=
       [[{| vaa_index := 1; vaa_componentDatatype := FLOAT;
            vaa_componentsPerAttribute := 4; vaa_normalize := false;
            vaa_values := Some [0; 0; 0]%Z; vaa_vertexBuffer := None |}]];
     res_vaAttributeIndices :=
       Some {| pia_ids := Some [IdString "a"; IdUndefined];
               pia_indices := Some [{[ "color" := colorOfA ]}; ∅] |};
     res_modelMatrix := Matrix4_IDENTITY |}.

(** Freshly constructed. *)
Definition w0 : World :=
  {| this := new_Primitive options; context := gl; callbacks := [] |}.

(** After the first update: COMBINING. *)
Definition w1 : World := perform (call_update accept (frameState SCENE3D) []) w0.

(** After the combine resolved: COMBINED. *)
Definition w2 : World := perform (promise_resolved 5 result) w1.

(** After the next update: COMPLETE. *)
Definition w3 : World := perform (call_update accept (frameState SCENE3D) []) w2.

(** After the combine failed instead: FAILED. *)
Definition w_failed : World := perform (promise_rejected 5) w1.

(** A second run, in which the first instance also has a one-component
    [show] attribute: the combine result, the COMPLETE world, and the world
    after a four-component value was assigned to [show]. *)

(** [ComponentDatatype.UNSIGNED_BYTE], whose typed array is a
    [Uint8Array]. *)
Definition UNSIGNED_BYTE : ComponentDatatype :=
  {| datatypeName := "UNSIGNED_BYTE"; sizeInBytes := 1; typedArrayClass := Uint8Array |}.

Definition showOfA : AttributeRecord :=
  {| ar_value := [1]%Z;
     ar_indices := [{| ir_attribute := (0, 1); ir_offset := 2; ir_count := 3 |}];
     ar_dirty := false |}.

Definition result_with_show : CombineResult :=
  {| res_geometries := [geometry];
     res_attributeIndices := {[ "position" := 0 ]};
     res_vaAttributes :=
       [[{| vaa_index := 1; vaa_componentDatatype := FLOAT;
            vaa_componentsPerAttribute := 4; vaa_normalize := false;
            vaa_values := Some [0; 0; 0]%Z; vaa_vertexBuffer := None |};
         {| vaa_index := 2; vaa_componentDatatype := UNSIGNED_BYTE;
            vaa_componentsPerAttribute := 1; vaa_normalize := false;
            vaa_values := Some [1; 1; 1; 1; 1]%Z; vaa_vertexBuffer := None |}]];
     res_vaAttributeIndices :=
       Some {| pia_ids := Some [IdString "a"; IdUndefined];
               pia_indices := Some [{[ "color" := colorOfA; "show" := showOfA ]}; ∅] |};
     res_modelMatrix := Matrix4_IDENTITY |}.

Definition v3 : World :=
  perform (call_update accept (frameState SCENE3D) [])
    (perform (promise_resolved 5 result_with_show) w1).


(** The fresh primitive, hidden. *)
Definition w_hidden : World :=
  {| this :=
       {| geometryInstances := geometryInstances (this w0);
          appearance := appearance (this w0);
          _appearance := None; _material := None;
          modelMatrix := Matrix4_IDENTITY; show := false; state := READY;
          _geometries := None; _vaAttributes := None;
          _vertexCacheOptimize := true; _releaseGeometryInstances := true;
          _allow3DOnly := false; _boundingSphere := None; _boundingSphere2D := None;
          _perInstanceAttributes := Some {| pia_ids := None; pia_indices := None |};
          _lastPerInstanceAttributeIndex := 0; _dirtyAttributes := []; _va := [];
          _attributeIndices := None; _rs := None; _sp := None; _pickSP := None;
          _pickIds := []; _commandLists := {| colorList := []; pickList := [] |};
          _geomtries := None |};
     context := gl; callbacks := [] |}.

End Sample.

(** ** Notions used to state the properties *)

(** The arguments that are not vectors of 1 to 4 components: [undefined],
    a value without a length, which [null] is too, and a value whose length
    is outside 1 to 4. *)
Inductive InvalidArgument : Value -> Prop :=
| invalid_undefined : InvalidArgument VUndefined
| invalid_null : InvalidArgument VNull
| invalid_no_length : InvalidArgument VNoLength
| invalid_length elements :
    length elements < 1 \/ 4 < length elements -> InvalidArgument (VArray elements).

(** The instances an update in the READY state works on. *)
Definition instances_of (geometryInstances : GeometryInstances) : list GeometryInstance :=
  match geometryInstances with
  | InstanceArray instances => instances
  | SingleInstance instance => [instance]
  end.

(** The pick ids created for a list of instances when the first of them
    gets the key [key]. *)
Fixpoint new_pick_ids (key : nat) (insts : list GeometryInstance) : list PickId :=
  match insts with
  | [] => []
  | inst :: rest =>
      {| pick_object := pickObject (gi_id inst); pick_color := key |}
      :: new_pick_ids (S key) rest
  end.

Definition log_calls (calls : list ContextCall) (context : Context) : Context :=
  {| ctx_elementIndexUint := ctx_elementIndexUint context;
     ctx_activeVertexAttributes := ctx_activeVertexAttributes context;
     ctx_calls := ctx_calls context ++ calls |}.

(** What the steady state of [update] leaves alone: every field of the
    primitive but the appearance and material last seen, the render state,
    the shader programs, the commands, the dirty queue and the attribute
    records; and the registered callbacks. *)
Record SteadyFields : Type := {
  sf_geometryInstances : option GeometryInstances;
  sf_appearance : option Appearance;
  sf_modelMatrix : Matrix4;
  sf_show : bool;
  sf_state : PrimitiveState;
  sf_geometries : option (list Geometry);
  sf_vaAttributes : option (list (list VertexArrayAttribute));
  sf_vertexCacheOptimize : bool;
  sf_releaseGeometryInstances : bool;
  sf_allow3DOnly : bool;
  sf_boundingSphere : option BoundingSphere;
  sf_boundingSphere2D : option BoundingSphere;
  sf_lastPerInstanceAttributeIndex : nat;
  sf_va : list nat;
  sf_attributeIndices : option (gmap string nat);
  sf_pickIds : list PickId;
  sf_geomtries : option (option (list Geometry));
  sf_callbacks : list nat
}.

Definition steady_fields (w : World) : SteadyFields :=
  let p := this w in
  {| sf_geometryInstances := geometryInstances p;
     sf_appearance := appearance p;
     sf_modelMatrix := modelMatrix p;
     sf_show := show p;
     sf_state := state p;
     sf_geometries := _geometries p;
     sf_vaAttributes := _vaAttributes p;
     sf_vertexCacheOptimize := _vertexCacheOptimize p;
     sf_releaseGeometryInstances := _releaseGeometryInstances p;
     sf_allow3DOnly := _allow3DOnly p;
     sf_boundingSphere := _boundingSphere p;
     sf_boundingSphere2D := _boundingSphere2D p;
     sf_lastPerInstanceAttributeIndex := _lastPerInstanceAttributeIndex p;
     sf_va := _va p;
     sf_attributeIndices := _attributeIndices p;
     sf_pickIds := _pickIds p;
     sf_geomtries := _geomtries p;
     sf_callbacks := callbacks w |}.

(** A method body keeps an observation [f] of the world when [f] has the
    same value after the body has run, whether it returned or threw. *)
Definition keeps {A B} (f : World -> B) (m : M A) : Prop :=
  forall w, f (m w).2 = f w.

(** The world after the READY branch has created the pick ids of the
    cloned instances [insts]: one [createPickId] call and one entry of
    [_pickIds] for each of them. *)
Definition with_pick_ids (insts : list GeometryInstance) (w : World) : World :=
  {| this := set__pickIds
               (_pickIds (this w) ++ new_pick_ids (length (ctx_calls (context w))) insts)
               (this w);
     context := log_calls (map (fun inst => createPickId (pickObject (gi_id inst))) insts)
                  (context w);
     callbacks := callbacks w |}.

(** The answer of the task processor to the combine request that an update
    of [w] in the READY state makes for the instances [geometryInstances]. *)
Definition scheduled (taskProcessor : TaskProcessor) (frameState : FrameState)
  (geometryInstances : GeometryInstances) (w : World) : option nat :=
  let (insts, transferableObjects) := copy_instances 0 (instances_of geometryInstances) [] in
  taskProcessor
    (combineGeometry (this w) (scene2D_projection frameState)
       (ctx_elementIndexUint (context w)) insts
       (map pick_color (new_pick_ids (length (ctx_calls (context w))) insts)))
    transferableObjects.

(** The context calls that create what the specification classes as GPU
    resources: pick ids, vertex buffers, vertex arrays and shader
    programs. *)
Definition creates_gpu_resource (c : ContextCall) : bool :=
  match c with
  | createPickId _ => true
  | createVertexBuffer _ _ => true
  | createVertexArrayFromGeometry _ _ _ _ => true
  | replaceShaderProgram _ _ _ _ => true
  | createRenderState _ => false
  | copyFromArrayView _ _ _ => false
  end.

(** The attributes of one merged geometry after the COMBINED branch gave
    them vertex buffers, the first with handle [handle]. *)
Fixpoint with_vertex_buffers (handle : nat) (attributes : list VertexArrayAttribute)
  : list VertexArrayAttribute :=
  match attributes with
  | [] => []
  | attribute :: rest =>
      {| vaa_index := vaa_index attribute;
         vaa_componentDatatype := vaa_componentDatatype attribute;
         vaa_componentsPerAttribute := vaa_componentsPerAttribute attribute;
         vaa_normalize := vaa_normalize attribute;
         vaa_values := None;
         vaa_vertexBuffer := Some handle |}
      :: with_vertex_buffers (S handle) rest
  end.

(** The primitive after a COMBINED branch that ran to its end, given the
    vertex array attributes, vertex arrays and commands it produced. *)
Definition completed (projection : Projection) (first : Geometry)
  (vaAttributes : list (list VertexArrayAttribute)) (va : list nat)
  (commandLists : CommandLists) (p : Primitive) : Primitive :=
  let p := set__boundingSphere (g_boundingSphere first) p in
  let p := match _boundingSphere p with
           | Some sphere =>
               if negb (_allow3DOnly p)
               then set__boundingSphere2D
                      (Some (ProjectTo2D sphere (proj_ellipsoid projection))) p
               else p
           | None => p
           end in
  let p := set__vaAttributes (Some vaAttributes) p in
  let p := set__va va p in
  let p := set__commandLists commandLists p in
  let p := if _releaseGeometryInstances p then set_geometryInstances None p else p in
  let p := set__geomtries (Some None) p in
  set_state COMPLETE p.

(** The state of the primitive together with the registered callbacks. *)
Definition lifecycle (w : World) : PrimitiveState * list nat :=
  (state (this w), callbacks w).

(** A body that leaves the primitive in state [s] when it returns and in
    the state it started in when it throws, and never touches the
    callbacks. *)
Definition state_after {A} (s : PrimitiveState) (m : M A) : Prop :=
  forall w,
    match m w with
    | (Return _, w') => lifecycle w' = (s, callbacks w)
    | (Throw _, w') => lifecycle w' = lifecycle w
    end.

(** At most one promise is awaited, and only while the state is
    COMBINING. *)
Definition awaiting (w : World) : Prop :=
  callbacks w = []
  \/ exists promise, callbacks w = [promise] /\ state (this w) = COMBINING.

(** No combine result has reached the primitive: it is still waiting to
    dispatch, waiting for the result, or the combine failed. *)
Definition before_combine (s : PrimitiveState) : Prop :=
  s = READY \/ s = COMBINING \/ s = FAILED.

(** The attribute table is still the empty object the constructor
    installed. *)
Definition unpopulated (w : World) : Prop :=
  _perInstanceAttributes (this w) = Some {| pia_ids := None; pia_indices := None |}.

(** One element of a merged buffer written from [value]: the value, padded
    with zeros up to the number of components of the attribute.  Here
    [value] holds what the typed array made of the components stored in
    it. *)
Definition slot (value : TypedArray) (componentsPerAttribute : nat) : TypedArray :=
  value ++ repeat 0%Z (componentsPerAttribute - length value).

(** The value replicated over [count] elements. *)
Definition replicated (value : TypedArray) (componentsPerAttribute count : nat)
  : TypedArray :=
  concat (repeat (slot value componentsPerAttribute) count).

(** The partial buffer write that flushing [value] over one range amounts
    to, its components converted to the component datatype of the vertex
    array attribute; there is none when the range refers to no vertex array
    attribute, when the attribute has no vertex buffer, or when the value
    has more components than the attribute and so does not fit the typed
    array. *)
Definition range_write (p : Primitive) (value : TypedArray) (index : IndexRange)
  : option ContextCall :=
  match lookup_vaAttribute (ir_attribute index) p with
  | Some vaAttribute =>
      match vaa_vertexBuffer vaAttribute with
      | Some vertexBuffer =>
          if (ir_count index =? 0)
             || (length value <=? vaa_componentsPerAttribute vaAttribute)
          then Some (copyFromArrayView vertexBuffer
                       (replicated (toElement (vaa_componentDatatype vaAttribute) <$> value)
                          (vaa_componentsPerAttribute vaAttribute) (ir_count index))
                       (ir_offset index * vaa_componentsPerAttribute vaAttribute
                        * sizeInBytes (vaa_componentDatatype vaAttribute)))
          else None
      | None => None
      end
  | None => None
  end.

(** The writes for all ranges of a record holding [value], in order. *)
Fixpoint range_writes (p : Primitive) (value : TypedArray) (indices : list IndexRange)
  : option (list ContextCall) :=
  match indices with
  | [] => Some []
  | index :: rest =>
      match range_write p value index, range_writes p value rest with
      | Some c, Some cs => Some (c :: cs)
      | _, _ => None
      end
  end.

(** The writes for all entries of a dirty queue, in order. *)
Fixpoint queue_writes (p : Primitive) (queue : list AttributeRef)
  : option (list ContextCall) :=
  match queue with
  | [] => Some []
  | ref :: rest =>
      match lookup_record ref p with
      | Some record =>
          match range_writes p (ar_value record) (ar_indices record),
                queue_writes p rest with
          | Some cs, Some ds => Some (cs ++ ds)
          | _, _ => None
          end
      | None => None
      end
  end.



(** What an attribute setter leaves alone: everything but the attribute
    records and the dirty queue. *)
Record BeyondAttributes : Type := {
  ba_steady : SteadyFields;
  ba_appearance : option nat;
  ba_material : option nat;
  ba_rs : option nat;
  ba_sp : option ShaderProgram;
  ba_pickSP : option ShaderProgram;
  ba_commandLists : CommandLists;
  ba_context : Context
}.

Definition beyond_attributes (w : World) : BeyondAttributes :=
  {| ba_steady := steady_fields w;
     ba_appearance := _appearance (this w);
     ba_material := _material (this w);
     ba_rs := _rs (this w);
     ba_sp := _sp (this w);
     ba_pickSP := _pickSP (this w);
     ba_commandLists := _commandLists (this w);
     ba_context := context w |}.

(** ** Notions used to state further properties *)

(** The world with the two command arrays of [_commandLists] replaced. *)
Definition with_commands (colorCommands pickCommands : list DrawCommand) (w : World)
  : World :=
  set_this (set__commandLists {| colorList := colorCommands; pickList := pickCommands |}
              (this w)) w.

(** A list after a loop has assigned [f l[j]] to [l[j]] for the [k]
    positions [j] from [i] on, as long as they exist. *)
Fixpoint altered_from {A} (i k : nat) (f : A -> A) (l : list A) : list A :=
  match k with
  | 0 => l
  | S k =>
      match l !! i with
      | Some x => altered_from (S i) k f (<[i := f x]> l)
      | None => l
      end
  end.

(** What the last loop of [update] assigns to a command. *)
Definition placed (modelMatrix : Matrix4) (boundingVolume : option BoundingSphere)
  (command : DrawCommand) : DrawCommand :=
  set_dc_boundingVolume boundingVolume (set_dc_modelMatrix modelMatrix command).

(** Every color command has its pick command. *)
Definition commands_paired (w : World) : Prop :=
  length (colorList (_commandLists (this w))) = length (pickList (_commandLists (this w))).

(** The world after a sequence of operations, performed in order. *)
Definition perform_all (ops : list Operation) (w : World) : World :=
  foldl (fun w op => perform op w) w ops.

(** The two command arrays after the last loop of [update] has run over
    them. *)
Definition placed_commands (modelMatrix : Matrix4) (boundingVolume : option BoundingSphere)
  (commandLists : CommandLists) : CommandLists :=
  {| colorList := placed modelMatrix boundingVolume <$> colorList commandLists;
     pickList := placed modelMatrix boundingVolume <$> pickList commandLists |}.

(** The primitive after the flush has gone through a dirty queue: the
    record of each entry, in turn, is marked clean. *)
Definition flushed (queue : list AttributeRef) (p : Primitive) : Primitive :=
  foldl (fun p ref =>
           match lookup_record ref p with
           | Some record => store_record ref (set_ar_dirty false record) p
           | None => p
           end) p queue.

(** ** Further sample worlds *)
Module Scenario.

(** A combine result without geometries, and the world in which it has
    reached the sample primitive. *)
Definition empty : CombineResult :=
  {| res_geometries := [];
     res_attributeIndices := ∅;
     res_vaAttributes := [];
     res_vaAttributeIndices := Some {| pia_ids := Some []; pia_indices := Some [] |};
     res_modelMatrix := Matrix4_IDENTITY |}.

Definition w_empty : World := perform (promise_resolved 5 empty) Sample.w1.

(** The completed primitive of the second sample run after [[256]] was
    assigned to [show] of instance ['a']. *)
Definition w_queued : World := perform (call_set "show" 0 (VArray [256]%Z)) Sample.v3.

(** An instance whose geometry has a standard attribute after one that is
    not standard, a second attribute that is not standard, and a property
    holding [undefined]. *)
Definition mixed : GeometryInstance :=
  {| gi_geometry :=
       {| g_attributes := [("color", Some Sample.position);
                           ("custom", Some Sample.position);
                           ("dropped", None);
                           ("position", Some Sample.position)];
          g_indices := None; g_primitiveType := 4; g_boundingSphere := None |};
     gi_modelMatrix := Matrix4_IDENTITY;
     gi_id := IdNumber 7;
     gi_attributes :=
       [("show", {| gia_componentDatatype := Sample.UNSIGNED_BYTE;
                    gia_componentsPerAttribute := 1;
                    gia_normalize := false;
                    gia_value := [1]%Z |})] |}.

End Scenario.

(** The shader program the shader cache returns for two sources; its
    handle is the position of the call that linked it. *)
Definition linked (c : Context) (vs fs : ShaderSource) (handle : nat) : ShaderProgram :=
  {| sp_handle := handle; sp_vertexAttributes := ctx_activeVertexAttributes c vs fs |}.

(** [this._appearance !== appearance] *)
Definition appearance_changed (p : Primitive) (a : Appearance) : bool :=
  negb (bool_decide (_appearance p = Some (ap_identity a))).

(** [this._material !== material] *)
Definition material_changed (p : Primitive) (a : Appearance) : bool :=
  negb (bool_decide (_material p = (mat_identity <$> ap_material a))).

(** The calls by which [update] rebuilds the shading of a primitive for
    the appearance [a], with [vs] the vertex shader source it derived: a
    render state when the appearance itself changed, and the two shader
    programs. *)
Definition shading_calls (a : Appearance) (vs : ShaderSource) (p : Primitive)
  : list ContextCall :=
  (if appearance_changed p a then [createRenderState (ap_renderState a)] else [])
  ++ [replaceShaderProgram (_sp p) vs (ap_fragmentShaderSource a) (_attributeIndices p);
      replaceShaderProgram (_pickSP p) (createPickVertexShaderSource vs)
        (createPickFragmentShaderSource (ap_fragmentShaderSource a) "varying")
        (_attributeIndices p)].

(** The world after these calls, before the commands are touched. *)
Definition relinked (a : Appearance) (vs : ShaderSource) (w : World) : World :=
  let p := this w in
  let fs := ap_fragmentShaderSource a in
  let n := length (ctx_calls (context w)) in
  let rs := if appearance_changed p a then Some n else _rs p in
  let n := if appearance_changed p a then S n else n in
  {| this := set__pickSP
               (Some (linked (context w) (createPickVertexShaderSource vs)
                        (createPickFragmentShaderSource fs "varying") (S n)))
               (set__sp (Some (linked (context w) vs fs n))
                  (set__rs rs
                     (set__material (mat_identity <$> ap_material a)
                        (set__appearance (Some (ap_identity a)) p))));
     context := log_calls (shading_calls a vs p) (context w);
     callbacks := callbacks w |}.

(** The render state, shader program and uniform map given to every
    command once the new programs passed validation. *)
Definition reshaded (a : Appearance) (vs : ShaderSource) (w : World) : World :=
  let w1 := relinked a vs w in
  let p := this w1 in
  let uniforms := mat_uniforms <$> ap_material a in
  with_commands (set_shading (_rs p) (_sp p) uniforms <$> colorList (_commandLists p))
    (set_shading (_rs p) (_pickSP p) uniforms <$> pickList (_commandLists p)) w1.

(** The outcome of the two [validateShaderMatching] calls of [update]. *)
Definition validate_programs (sp pickSP : option ShaderProgram)
  (attributeIndices : gmap string nat) : Completion unit :=
  match sp, pickSP with
  | Some sp, Some pickSP =>
      match validateShaderMatching sp attributeIndices with
      | Return _ => validateShaderMatching pickSP attributeIndices
      | Throw e => Throw e
      end
  | _, _ => Throw TypeError
  end.

(** An assignment to the public property [appearance]. *)
Definition set_appearance (v : option Appearance) (p : Primitive) : Primitive :=
  {| geometryInstances := geometryInstances p; appearance := v;
     _appearance := _appearance p; _material := _material p;
     modelMatrix := modelMatrix p; show := show p; state := state p;
     _geometries := _geometries p; _vaAttributes := _vaAttributes p;
     _vertexCacheOptimize := _vertexCacheOptimize p;
     _releaseGeometryInstances := _releaseGeometryInstances p;
     _allow3DOnly := _allow3DOnly p; _boundingSphere := _boundingSphere p;
     _boundingSphere2D := _boundingSphere2D p;
     _perInstanceAttributes := _perInstanceAttributes p;
     _lastPerInstanceAttributeIndex := _lastPerInstanceAttributeIndex p;
     _dirtyAttributes := _dirtyAttributes p; _va := _va p;
     _attributeIndices := _attributeIndices p; _rs := _rs p; _sp := _sp p;
     _pickSP := _pickSP p; _pickIds := _pickIds p; _commandLists := _commandLists p;
     _geomtries := _geomtries p |}.

Module Shading.

(** A second appearance, with a material. *)
Definition textured : Appearance :=
  {| ap_identity := 8;
     ap_material := Some {| mat_identity := 1; mat_uniforms := 2 |};
     ap_renderState := 1;
     ap_vertexShaderSource := SourceText "vs2";
     ap_fragmentShaderSource := SourceText "fs2" |}.

(** The completed sample primitive after [appearance] was assigned the
    second appearance. *)
Definition w_textured : World :=
  set_this (set_appearance (Some textured) (this Sample.w3)) Sample.w3.

(** The same on a context whose shader programs also need the attribute
    [st], which the sample geometry does not have. *)
Definition strict : Context :=
  {| ctx_elementIndexUint := true;
     ctx_activeVertexAttributes := fun _ _ => ["position"; "st"];
     ctx_calls := ctx_calls (context Sample.w3) |}.

Definition w_mismatch : World := set_context strict w_textured.

End Shading.

(** What a command draws: its primitive type and its vertex array. *)
Definition drawn (commands : list DrawCommand) : list (nat * option nat) :=
  (fun command => (dc_primitiveType command, dc_vertexArray command)) <$> commands.

(** One command for each merged geometry, drawing the vertex array made
    for it. *)
Definition commands_of (geometries : list Geometry) (va : list nat)
  : list (nat * option nat) :=
  zip_with (fun geometry vertexArray => (g_primitiveType geometry, Some vertexArray))
    geometries va.

(** The fields that decide what the primitive draws, with the commands
    reduced to what they draw. *)
Record Rendering : Type := {
  r_state : PrimitiveState;
  r_geometries : option (list Geometry);
  r_va : list nat;
  r_color : list (nat * option nat);
  r_pick : list (nat * option nat);
  r_boundingSphere : option BoundingSphere;
  r_boundingSphere2D : option BoundingSphere;
  r_allow3DOnly : bool
}.

Definition rendering (w : World) : Rendering :=
  let p := this w in
  {| r_state := state p;
     r_geometries := _geometries p;
     r_va := _va p;
     r_color := drawn (colorList (_commandLists p));
     r_pick := drawn (pickList (_commandLists p));
     r_boundingSphere := _boundingSphere p;
     r_boundingSphere2D := _boundingSphere2D p;
     r_allow3DOnly := _allow3DOnly p |}.

(** The bounding spheres are those of the first merged geometry: its own
    sphere, and the projection of that sphere unless the primitive is for
    3D only. *)
Definition spheres_of (first : Geometry) (r : Rendering) : Prop :=
  r_boundingSphere r = g_boundingSphere first
  /\ match g_boundingSphere first with
     | Some sphere =>
         if r_allow3DOnly r then r_boundingSphere2D r = None
         else exists ellipsoid,
                r_boundingSphere2D r = Some (ProjectTo2D sphere ellipsoid)
     | None => r_boundingSphere2D r = None
     end.

(** No vertex array and no command yet. *)
Definition unrendered (r : Rendering) : Prop :=
  r_va r = [] /\ r_color r = [] /\ r_pick r = [].

Definition no_spheres (r : Rendering) : Prop :=
  r_boundingSphere r = None /\ r_boundingSphere2D r = None.

(** What holds of the rendering fields in each state. *)
Definition coherent (w : World) : Prop :=
  let r := rendering w in
  match r_state r with
  | COMPLETE =>
      exists first rest,
        r_geometries r = Some (first :: rest)
        /\ length (r_va r) = length (first :: rest)
        /\ r_color r = commands_of (first :: rest) (r_va r)
        /\ r_pick r = commands_of (first :: rest) (r_va r)
        /\ spheres_of first r
  | COMBINED =>
      unrendered r
      /\ (no_spheres r
          \/ exists first rest, r_geometries r = Some (first :: rest) /\ spheres_of first r)
  | _ => unrendered r /\ no_spheres r
  end.

(** The primitive after the COMBINED branch has assigned the bounding
    spheres. *)
Definition with_spheres (projection : Projection) (first : Geometry) (p : Primitive)
  : Primitive :=
  let p := set__boundingSphere (g_boundingSphere first) p in
  match _boundingSphere p with
  | Some sphere =>
      if negb (_allow3DOnly p)
      then set__boundingSphere2D (Some (ProjectTo2D sphere (proj_ellipsoid projection))) p
      else p
  | None => p
  end.

(** The commands the COMBINED branch creates for the geometries, the
    first of them at position [i]. *)
Definition new_commands (va : list nat) (i : nat) (geometries : list Geometry)
  : list DrawCommand :=
  imap (fun j geometry => new_DrawCommand (g_primitiveType geometry) (va !! (i + j)))
    geometries.

(** [x] is a buffer of the clones [insts], the first of which is the clone
    at position [i]: the values of a defined attribute, or the indices. *)
Definition buffer_of (i : nat) (insts : list GeometryInstance) (x : BufferRef) : Prop :=
  match x with
  | AttributeBuffer j name =>
      exists k inst attribute,
        j = i + k /\ insts !! k = Some inst
        /\ (name, Some attribute) ∈ g_attributes (gi_geometry inst)
  | IndicesBuffer j =>
      exists k inst,
        j = i + k /\ insts !! k = Some inst /\ g_indices (gi_geometry inst) <> None
  end.

(** The position of the clone a transferable buffer belongs to. *)
Definition buffer_instance (x : BufferRef) : nat :=
  match x with
  | AttributeBuffer j _ => j
  | IndicesBuffer j => j
  end.

(** The dirty flag of a record says whether the record is queued: the
    dirty queue holds no entry twice, and a reference is in it exactly when
    the record it denotes is marked dirty. *)
Definition queue_consistent (p : Primitive) : Prop :=
  NoDup (_dirtyAttributes p)
  /\ forall ref, ref ∈ _dirtyAttributes p
                 <-> (ar_dirty <$> lookup_record ref p) = Some true.

(** ** destroy *)

(** Modelled from the spec: the renderer objects and Core/destroyObject.js
    are not among the sources.  Destruction releases the GPU resources the
    primitive owns: [release()] gives up a shader program, [destroy()] a
    vertex array or a pick id.  What [Primitive.prototype.destroy] does is
    observed as the list of these calls, in order. *)
Inductive Release : Type :=
| release_shaderProgram (shaderProgram : ShaderProgram)
| destroy_vertexArray (vertexArray : nat)
| destroy_pickId (pickId : PickId).

(** [Primitive.prototype.destroy]: [this._sp && this._sp.release()], the
    same for the pick program, then the two loops. *)
Definition destroy (p : Primitive) : list Release :=
  match _sp p with
  | Some sp => [release_shaderProgram sp]
  | None => []
  end
  ++ match _pickSP p with
     | Some pickSP => [release_shaderProgram pickSP]
     | None => []
     end
  ++ (destroy_vertexArray <$> _va p)
  ++ (destroy_pickId <$> _pickIds p).

(** The pick ids among the resources released. *)
Definition destroyed_pick_ids (releases : list Release) : list PickId :=
  omap (fun release => match release with
                       | destroy_pickId pickId => Some pickId
                       | _ => None
                       end) releases.

(** The objects for which a list of context calls created pick ids. *)
Definition pick_calls (calls : list ContextCall) : list PickObject :=
  omap (fun c => match c with
                 | createPickId object => Some object
                 | _ => None
                 end) calls.

(** A method body is quiet when the calls it makes on the context create
    no pick id. *)
Definition quiet {A} (m : M A) : Prop :=
  forall w, exists calls,
    ctx_calls (context (m w).2) = ctx_calls (context w) ++ calls
    /\ pick_calls calls = [].

(** What one operation adds: calls to the log and pick ids to [_pickIds],
    one pick id for each [createPickId] call, with the position of the call
    as its color. *)
Definition tracks (w w' : World) : Prop :=
  exists calls pickIds,
    ctx_calls (context w') = ctx_calls (context w) ++ calls
    /\ _pickIds (this w') = _pickIds (this w) ++ pickIds
    /\ pick_object <$> pickIds = pick_calls calls
    /\ forall pickId, pickId ∈ pickIds ->
         ctx_calls (context w') !! pick_color pickId
         = Some (createPickId (pick_object pickId)).

(** The command for a merged geometry once an update has shaded and placed
    it; [d] is what it draws. *)
Definition rendered_command (renderState : option nat)
  (shaderProgram : option ShaderProgram) (uniformMap : option nat)
  (modelMatrix : Matrix4) (boundingVolume : option BoundingSphere)
  (d : nat * option nat) : DrawCommand :=
  {| dc_primitiveType := d.1;
     dc_vertexArray := d.2;
     dc_renderState := renderState;
     dc_shaderProgram := shaderProgram;
     dc_uniformMap := uniformMap;
     dc_modelMatrix := Some modelMatrix;
     dc_boundingVolume := boundingVolume |}.

(** What the shading of a primitive is computed from, and what the steady
    state reads besides the commands. *)
Record ShadingInputs : Type := {
  si_appearance : option Appearance;
  si__appearance : option nat;
  si__material : option nat;
  si_attributeIndices : option (gmap string nat);
  si_allow3DOnly : bool;
  si_rs : option nat;
  si_sp : option ShaderProgram;
  si_pickSP : option ShaderProgram;
  si_dirtyAttributes : list AttributeRef;
  si_modelMatrix : Matrix4;
  si_activeVertexAttributes : ShaderSource -> ShaderSource -> list string
}.

Definition shading_inputs (w : World) : ShadingInputs :=
  let p := this w in
  {| si_appearance := appearance p;
     si__appearance := _appearance p;
     si__material := _material p;
     si_attributeIndices := _attributeIndices p;
     si_allow3DOnly := _allow3DOnly p;
     si_rs := _rs p;
     si_sp := _sp p;
     si_pickSP := _pickSP p;
     si_dirtyAttributes := _dirtyAttributes p;
     si_modelMatrix := modelMatrix p;
     si_activeVertexAttributes := ctx_activeVertexAttributes (context w) |}.

(** The calls of the first loop of the COMBINED branch for geometries and
    the vertex array attributes at their positions, when the log holds
    [handle] calls already: for each geometry one vertex buffer for every
    attribute and then the vertex array. *)
Fixpoint vertex_array_calls (handle : nat) (geometries : list Geometry)
  (attributeIndices : option (gmap string nat))
  (vaAttributes : list (list VertexArrayAttribute)) : list ContextCall :=
  match geometries, vaAttributes with
  | geometry :: geometries, attributes :: vaAttributes =>
      map (fun a => createVertexBuffer (vaa_values a) DYNAMIC_DRAW) attributes
      ++ createVertexArrayFromGeometry geometry attributeIndices STATIC_DRAW
           (with_vertex_buffers handle attributes)
         :: vertex_array_calls (S (handle + length attributes)) geometries attributeIndices
              vaAttributes
  | _, _ => []
  end.

(** The vertex arrays these calls create, each named by the position of
    its [createVertexArrayFromGeometry] call. *)
Fixpoint vertex_arrays (handle : nat) (geometries : list Geometry)
  (vaAttributes : list (list VertexArrayAttribute)) : list nat :=
  match geometries, vaAttributes with
  | _ :: geometries, attributes :: vaAttributes =>
      (handle + length attributes)
      :: vertex_arrays (S (handle + length attributes)) geometries vaAttributes
  | _, _ => []
  end.

(** [object[name]] for an object given by its own properties: what the
    property holds, [undefined] when the object has no such property. *)
Fixpoint property_of {A} (object : list (string * option A)) (name : string) : option A :=
  match object with
  | [] => None
  | (property, value) :: rest =>
      if decide (property = name) then value else property_of rest name
  end.

(** * Properties *)

(** ** Reasoning about method bodies *)

Lemma bind_Return {A B} (m : M A) (f : A -> M B) w a w' :
  m w = (Return a, w') -> bind m f w = f a w'.
Proof. intros H. unfold bind. rewrite H. reflexivity. Qed.

Lemma bind_Throw {A B} (m : M A) (f : A -> M B) w e w' :
  m w = (Throw e, w') -> bind m f w = (Throw e, w').
Proof. intros H. unfold bind. rewrite H. reflexivity. Qed.

(** One step of running a body: the first action returns, by computation. *)
Ltac run_step := erewrite bind_Return by reflexivity; cbv beta.

(** ** validateShaderMatching *)







(** ** The early exit of update *)

Lemma update_when_early_exit taskProcessor frameState commandList w :
  early_exit (this w) frameState = true ->
  update taskProcessor frameState commandList w = (Return commandList, w).
Proof.
  intros H. unfold update, bind, get. simpl. rewrite H. reflexivity.
Qed.

(** C5. [update] returns at once, leaving the primitive, the context and
    the registered callbacks as they were and the command list without a new
    entry, whenever the primitive is not shown, or it has neither geometry
    instances nor vertex arrays, or it has no appearance, or it is restricted
    to 3D and the frame is not in 3D mode, or the frame asks for neither the
    color nor the pick pass.  In particular a READY primitive stays READY. *)
Theorem update_early_exit_noop taskProcessor frameState commandList w :
  show (this w) = false
  \/ (geometryInstances (this w) = None /\ _va (this w) = [])
  \/ appearance (this w) = None
  \/ (_allow3DOnly (this w) = true /\ mode frameState <> SCENE3D)
  \/ (color (passes frameState) = false /\ pick (passes frameState) = false) ->
  update taskProcessor frameState commandList w = (Return commandList, w)
  /\ state (this (perform (call_update taskProcessor frameState commandList) w))
     = state (this w).
Proof.
  intros H.
  assert (E : early_exit (this w) frameState = true).
  { unfold early_exit.
    destruct H as [H | [[H1 H2] | [H | [[H1 H2] | [H1 H2]]]]].
    - rewrite H. reflexivity.
    - rewrite H1, H2. simpl. rewrite orb_true_r. reflexivity.
    - rewrite H. simpl. rewrite !orb_true_r. reflexivity.
    - rewrite H1. rewrite bool_decide_eq_false_2 by exact H2.
      simpl. rewrite !orb_true_r. reflexivity.
    - rewrite H1, H2. simpl. rewrite !orb_true_r. reflexivity. }
  simpl. rewrite (update_when_early_exit taskProcessor commandList E). auto.
Qed.

Lemma update_early_exit_noop_witness :
  (show (this Sample.w_hidden) = false
   \/ (geometryInstances (this Sample.w_hidden) = None /\ _va (this Sample.w_hidden) = [])
   \/ appearance (this Sample.w_hidden) = None
   \/ (_allow3DOnly (this Sample.w_hidden) = true
       /\ mode (Sample.frameState SCENE3D) <> SCENE3D)
   \/ (color (passes (Sample.frameState SCENE3D)) = false
       /\ pick (passes (Sample.frameState SCENE3D)) = false))
  /\ update Sample.accept (Sample.frameState SCENE3D) [] Sample.w_hidden
     = (Return [], Sample.w_hidden).
Proof.
  assert (H : show (this Sample.w_hidden) = false) by reflexivity.
  split; [left; exact H|].
  apply (update_early_exit_noop Sample.accept []
           (frameState := Sample.frameState SCENE3D) (w := Sample.w_hidden)).
  left. exact H.
Defined.

(** ** Looking an instance up by id *)

Section Search.

Variables (lastIndex length : nat) (id : Id) (ids : list Id).

Lemma search_from_Some i remaining index :
  search_from i remaining lastIndex length id ids = Some index ->
  ids !! index = Some id
  /\ exists k, i <= k < i + remaining /\ index = (lastIndex + k) mod length.
Proof.
  revert i. induction remaining as [|remaining IH]; intros i; simpl; [discriminate|].
  destruct (decide (ids !! ((lastIndex + i) mod length) = Some id)) as [E|E].
  - intros [= <-]. split; [exact E|]. exists i. split; [lia | reflexivity].
  - intros H. destruct (IH _ H) as (Hid & k & Hk & ->).
    split; [exact Hid|]. exists k. split; [lia | reflexivity].
Qed.

Lemma search_from_None i remaining :
  search_from i remaining lastIndex length id ids = None ->
  forall k, i <= k < i + remaining -> ids !! ((lastIndex + k) mod length) <> Some id.
Proof.
  revert i. induction remaining as [|remaining IH]; intros i; simpl; [lia|].
  destruct (decide (ids !! ((lastIndex + i) mod length) = Some id)) as [E|E];
    [discriminate|].
  intros H k Hk. destruct (decide (k = i)) as [->|Hne]; [exact E|].
  apply (IH (S i) H). lia.
Qed.

(** Every position below [length] is visited by some iteration. *)
Lemma rotation_covers j :
  j < length -> exists k, k < length /\ (lastIndex + k) mod length = j.
Proof.
  intros Hj.
  exists ((j + (length - lastIndex mod length)) mod length).
  assert (Hpos : length <> 0) by lia.
  split; [apply Nat.mod_upper_bound; exact Hpos|].
  rewrite Nat.Div0.add_mod_idemp_r.
  rewrite (Nat.Div0.add_mod lastIndex).
  pose proof (Nat.mod_upper_bound lastIndex length Hpos) as Hlt.
  set (r := lastIndex mod length) in *.
  rewrite Nat.Div0.add_mod_idemp_r.
  replace (r + (j + (length - r))) with (j + 1 * length) by lia.
  rewrite Nat.Div0.mod_add. apply Nat.mod_small. exact Hj.
Qed.

End Search.

Lemma search_finds_present lastIndex (id : Id) (ids : list Id) :
  id ∈ ids ->
  exists index, search_from 0 (length ids) lastIndex (length ids) id ids = Some index
                /\ ids !! index = Some id.
Proof.
  intros Hin.
  destruct (search_from 0 (length ids) lastIndex (length ids) id ids) as [index|] eqn:E.
  - exists index. split; [reflexivity|]. exact (proj1 (search_from_Some E)).
  - exfalso. apply list_elem_of_lookup in Hin as [j Hj].
    pose proof (lookup_lt_Some _ _ _ Hj) as Hlt.
    destruct (rotation_covers lastIndex Hlt) as (k & Hk & Hrot).
    apply (search_from_None E (k := k)); [lia|]. rewrite Hrot. exact Hj.
Qed.

Lemma search_misses_absent lastIndex (id : Id) (ids : list Id) :
  id ∉ ids -> search_from 0 (length ids) lastIndex (length ids) id ids = None.
Proof.
  intros Hnot.
  destruct (search_from 0 (length ids) lastIndex (length ids) id ids) as [index|] eqn:E;
    [|reflexivity].
  exfalso. apply Hnot. apply list_elem_of_lookup. exists index.
  exact (proj1 (search_from_Some E)).
Qed.

Lemma lookup_record_table p table indices i name :
  _perInstanceAttributes p = Some table ->
  pia_indices table = Some indices ->
  lookup_record (i, name) p
  = match indices !! i with
    | Some perInstanceAttributes => perInstanceAttributes !! name
    | None => None
    end.
Proof.
  intros Ht Hi. unfold lookup_record. rewrite Ht. simpl. rewrite Hi. simpl.
  destruct (indices !! i); reflexivity.
Qed.

Lemma elem_of_names (perInstanceAttributes : gmap string AttributeRecord) name :
  name ∈ (map_to_list perInstanceAttributes).*1
  <-> is_Some (perInstanceAttributes !! name).
Proof.
  rewrite list_elem_of_fmap. split.
  - intros [[n record] [-> H]]. apply elem_of_map_to_list in H. simpl. eauto.
  - intros [record H]. exists (name, record). split; [reflexivity|].
    apply elem_of_map_to_list. exact H.
Qed.

(** C4. On a populated table the rotating search finds every stored id,
    whatever the start index: the call returns accessors for the instance at
    a position that holds the id, with one property for each attribute
    record of that instance, each getter reading its record, and the start
    index becomes that position.  For an id that is not stored the call
    returns [undefined] and changes nothing. *)
Theorem getGeometryInstanceAttributes_lookup w table ids indices id :
  _perInstanceAttributes (this w) = Some table ->
  pia_ids table = Some ids ->
  pia_indices table = Some indices ->
  id <> IdUndefined ->
  (id ∈ ids ->
   exists index accessors,
     getGeometryInstanceAttributes id w
     = (Return (Some accessors),
        set_this (set__lastPerInstanceAttributeIndex index (this w)) w)
     /\ ids !! index = Some id
     /\ acc_perInstanceAttributes accessors = index
     /\ (forall name, name ∈ acc_names accessors
                      <-> is_Some (lookup_record (index, name) (this w)))
     /\ (forall name record w',
           lookup_record (index, name) (this w') = Some record ->
           createGetFunction name (acc_perInstanceAttributes accessors) w'
           = (Return (ar_value record), w')))
  /\ (id ∉ ids -> getGeometryInstanceAttributes id w = (Return None, w)).
Proof.
  intros Ht Hids Hind Hid. split.
  - intros Hin.
    destruct (search_finds_present (_lastPerInstanceAttributeIndex (this w)) Hin)
      as (index & Hsearch & Hlookup).
    exists index.
    exists {| acc_perInstanceAttributes := index;
              acc_names := match indices !! index with
                           | Some perInstanceAttributes =>
                               (map_to_list perInstanceAttributes).*1
                           | None => []
                           end |}.
    split; [|split; [exact Hlookup | split; [reflexivity|]]].
    + unfold getGeometryInstanceAttributes.
      destruct (decide (id = IdUndefined)) as [E|_]; [contradiction|].
      unfold bind, get, defined, assign, ret. rewrite Ht, Hids. simpl.
      rewrite Hsearch, Hind. simpl. reflexivity.
    + simpl. split.
      * intros name. rewrite (lookup_record_table index name Ht Hind).
        destruct (indices !! index) as [perInstanceAttributes|].
        -- apply elem_of_names.
        -- split; [intros H; inversion H | intros [x H]; discriminate].
      * intros name record w' H.
        unfold createGetFunction, bind, get, defined, ret. rewrite H. reflexivity.
  - intros Hnot.
    unfold getGeometryInstanceAttributes.
    destruct (decide (id = IdUndefined)) as [E|_]; [contradiction|].
    unfold bind, get, defined, assign, ret. rewrite Ht, Hids. simpl.
    rewrite (search_misses_absent _ Hnot). reflexivity.
Qed.

Lemma getGeometryInstanceAttributes_lookup_witness :
  exists table ids indices,
    _perInstanceAttributes (this Sample.w3) = Some table
    /\ pia_ids table = Some ids
    /\ pia_indices table = Some indices
    /\ IdString "a" <> IdUndefined
    /\ IdString "a" ∈ ids
    /\ exists index accessors,
         getGeometryInstanceAttributes (IdString "a") Sample.w3
         = (Return (Some accessors),
            set_this (set__lastPerInstanceAttributeIndex index (this Sample.w3)) Sample.w3)
         /\ ids !! index = Some (IdString "a").
Proof.
  exists {| pia_ids := Some [IdString "a"; IdUndefined];
            pia_indices := Some [{[ "color" := Sample.colorOfA ]}; ∅] |}.
  exists [IdString "a"; IdUndefined].
  exists [{[ "color" := Sample.colorOfA ]}; ∅].
  assert (H1 : _perInstanceAttributes (this Sample.w3)
               = Some {| pia_ids := Some [IdString "a"; IdUndefined];
                         pia_indices := Some [{[ "color" := Sample.colorOfA ]}; ∅] |})
    by (vm_compute; reflexivity).
  assert (H4 : IdString "a" <> IdUndefined) by discriminate.
  assert (H5 : IdString "a" ∈ [IdString "a"; IdUndefined]) by (apply elem_of_cons; auto).
  split; [exact H1|]. split; [reflexivity|]. split; [reflexivity|].
  split; [exact H4|]. split; [exact H5|].
  destruct (getGeometryInstanceAttributes_lookup (w := Sample.w3) H1 eq_refl eq_refl H4)
    as [Hfound _].
  destruct (Hfound H5) as (index & accessors & Hcall & Hlookup & _).
  exists index, accessors. split; [exact Hcall | exact Hlookup].
Defined.

(** ** Attribute records *)

Lemma store_record_dirtyAttributes ref record p :
  _dirtyAttributes (store_record ref record p) = _dirtyAttributes p.
Proof.
  unfold store_record.
  destruct (_perInstanceAttributes p) as [table|]; [|reflexivity].
  destruct (pia_indices table) as [indices|]; [|reflexivity].
  destruct (indices !! ref.1); reflexivity.
Qed.

Lemma lookup_store_record ref ref' record p :
  is_Some (lookup_record ref p) ->
  lookup_record ref' (store_record ref record p)
  = if decide (ref' = ref) then Some record else lookup_record ref' p.
Proof.
  destruct ref as [i name], ref' as [i' name'].
  unfold lookup_record, store_record. simpl.
  destruct (_perInstanceAttributes p) as [table|] eqn:Ht; simpl; [|intros [x H]; discriminate].
  destruct (pia_indices table) as [indices|] eqn:Hi; simpl; [|intros [x H]; discriminate].
  destruct (indices !! i) as [perInstanceAttributes|] eqn:Hp; simpl;
    [|intros [x H]; discriminate].
  intros _.
  pose proof (lookup_lt_Some _ _ _ Hp) as Hlt.
  destruct (decide (i' = i)) as [->|Hne].
  - rewrite list_lookup_insert_eq by exact Hlt. simpl.
    destruct (decide (name' = name)) as [->|Hname].
    + rewrite lookup_insert_eq. rewrite decide_True by reflexivity. reflexivity.
    + rewrite lookup_insert_ne by congruence.
      rewrite decide_False by congruence. rewrite Hp. reflexivity.
  - rewrite list_lookup_insert_ne by congruence.
    rewrite decide_False by congruence. reflexivity.
Qed.

Lemma getGeometryInstanceAttributes_Some id w accessors w1 :
  getGeometryInstanceAttributes id w = (Return (Some accessors), w1) ->
  w1 = set_this (set__lastPerInstanceAttributeIndex
                   (acc_perInstanceAttributes accessors) (this w)) w
  /\ forall name, name ∈ acc_names accessors ->
                  is_Some (lookup_record (acc_perInstanceAttributes accessors, name) (this w1)).
Proof.
  unfold getGeometryInstanceAttributes.
  destruct (decide (id = IdUndefined)) as [E|_]; [discriminate|].
  unfold bind, get, defined, assign, ret, throw.
  destruct (_perInstanceAttributes (this w)) as [table|] eqn:Ht; [|discriminate].
  destruct (pia_ids table) as [ids|] eqn:Hids; simpl; [|discriminate].
  destruct (search_from 0 (length ids) (_lastPerInstanceAttributeIndex (this w))
              (length ids) id ids) as [index|]; [|discriminate].
  destruct (pia_indices table) as [indices|] eqn:Hind; simpl; [|discriminate].
  intros [= <- <-]. simpl. split; [reflexivity|].
  intros name Hname.
  rewrite (lookup_record_table (p := set__lastPerInstanceAttributeIndex index (this w))
             index name Ht Hind).
  destruct (indices !! index) as [perInstanceAttributes|].
  - apply elem_of_names. exact Hname.
  - inversion Hname.
Qed.

Lemma createSetFunction_invalid name perInstanceAttributes value w :
  InvalidArgument value ->
  value <> VNull ->
  createSetFunction name perInstanceAttributes value w
  = (Throw (DeveloperError set_message), w).
Proof.
  intros [| | |elements H] Hnull; simpl; try reflexivity; [congruence|].
  assert (E : (length elements <? 1) || (4 <? length elements) = true).
  { apply orb_true_iff. destruct H; [left | right]; apply Nat.ltb_lt; assumption. }
  rewrite E. reflexivity.
Qed.

Lemma createSetFunction_valid name perInstanceAttributes elements record w :
  1 <= length elements <= 4 ->
  lookup_record (perInstanceAttributes, name) (this w) = Some record ->
  exists w',
    createSetFunction name perInstanceAttributes (VArray elements) w = (Return tt, w')
    /\ context w' = context w /\ callbacks w' = callbacks w
    /\ (forall ref, lookup_record ref (this w')
                    = if decide (ref = (perInstanceAttributes, name))
                      then Some {| ar_value := elements;
                                   ar_indices := ar_indices record;
                                   ar_dirty := true |}
                      else lookup_record ref (this w))
    /\ _dirtyAttributes (this w')
       = (if ar_dirty record then _dirtyAttributes (this w)
          else _dirtyAttributes (this w) ++ [(perInstanceAttributes, name)]).
Proof.
  intros Hlen Hrec. unfold createSetFunction.
  assert (E : (length elements <? 1) || (4 <? length elements) = false).
  { apply orb_false_iff. split; apply Nat.ltb_ge; lia. }
  rewrite E. unfold bind at 1. unfold get at 1. rewrite Hrec.
  unfold bind, get, defined, assign, ret. simpl.
  set (ref0 := (perInstanceAttributes, name)).
  assert (Hsome : is_Some (lookup_record ref0 (this w))) by (unfold ref0; rewrite Hrec; eauto).
  destruct (ar_dirty record) eqn:Hd; simpl.
  - eexists. split; [reflexivity|]. simpl. split; [reflexivity|]. split; [reflexivity|].
    split.
    + intros ref. rewrite (lookup_store_record _ _ Hsome).
      destruct (decide (ref = ref0)); [|reflexivity].
      unfold set_ar_value. rewrite Hd. reflexivity.
    + apply store_record_dirtyAttributes.
  - eexists. split; [reflexivity|]. simpl. split; [reflexivity|]. split; [reflexivity|].
    split.
    + intros ref. rewrite lookup_store_record.
      * destruct (decide (ref = ref0)); [reflexivity|].
        change (lookup_record ref (store_record ref0 (set_ar_value elements record) (this w))
                = lookup_record ref (this w)).
        rewrite (lookup_store_record _ _ Hsome). rewrite decide_False by assumption.
        reflexivity.
      * change (is_Some (lookup_record ref0
                           (store_record ref0 (set_ar_value elements record) (this w)))).
        rewrite (lookup_store_record _ _ Hsome). rewrite decide_True by reflexivity. eauto.
    + rewrite store_record_dirtyAttributes. simpl.
      rewrite store_record_dirtyAttributes. reflexivity.
Qed.

Lemma InvalidArgument_dec value : {InvalidArgument value} + {~ InvalidArgument value}.
Proof.
  destruct value as [| | |elements].
  - left. constructor.
  - left. constructor.
  - left. constructor.
  - destruct (decide (1 <= length elements <= 4)) as [H|H].
    + right. intros Hinv. inversion Hinv; subst. lia.
    + left. constructor. lia.
Qed.

(** C7. What the code does.  Assigning through a property of the accessors
    returned by [getGeometryInstanceAttributes] throws the DeveloperError
    exactly when the value is undefined, is not null and has no length, or
    has a length outside 1 to 4.  On [null], which has no length either, it
    throws a TypeError instead.  Either way it changes nothing.  Otherwise
    it returns, the record holds the new value and is dirty, the other
    records are untouched, and the record was appended to the dirty queue if
    and only if it was not dirty before. *)
Theorem createSetFunction_validates id w accessors w1 name value :
  getGeometryInstanceAttributes id w = (Return (Some accessors), w1) ->
  name ∈ acc_names accessors ->
  let ref := (acc_perInstanceAttributes accessors, name) in
  let r := createSetFunction name (acc_perInstanceAttributes accessors) value w1 in
  ((exists message, r.1 = Throw (DeveloperError message))
   <-> InvalidArgument value /\ value <> VNull)
  /\ (InvalidArgument value -> value <> VNull ->
      r = (Throw (DeveloperError set_message), w1))
  /\ (value = VNull -> r = (Throw TypeError, w1))
  /\ (~ InvalidArgument value ->
      exists elements record w2,
        value = VArray elements
        /\ lookup_record ref (this w1) = Some record
        /\ r = (Return tt, w2)
        /\ lookup_record ref (this w2)
           = Some {| ar_value := elements; ar_indices := ar_indices record;
                     ar_dirty := true |}
        /\ (forall ref', ref' <> ref ->
                         lookup_record ref' (this w2) = lookup_record ref' (this w1))
        /\ _dirtyAttributes (this w2)
           = (if ar_dirty record then _dirtyAttributes (this w1)
              else _dirtyAttributes (this w1) ++ [ref])).
Proof.
  intros Hget Hname ref r.
  destruct (getGeometryInstanceAttributes_Some Hget) as [_ Hrecords].
  destruct (Hrecords name Hname) as [record Hrecord].
  assert (Hvalid : ~ InvalidArgument value ->
                   exists elements, value = VArray elements /\ 1 <= length elements <= 4).
  { intros Hok. destruct value as [| | |elements].
    - exfalso. apply Hok. constructor.
    - exfalso. apply Hok. constructor.
    - exfalso. apply Hok. constructor.
    - exists elements. split; [reflexivity|].
      destruct (decide (1 <= length elements <= 4)) as [H|H]; [exact H|].
      exfalso. apply Hok. constructor. lia. }
  split; [|split; [|split]].
  - split.
    + intros [message Hthrow].
      destruct (InvalidArgument_dec value) as [Hinv|Hok].
      * split; [exact Hinv|]. intros ->. discriminate Hthrow.
      * destruct (Hvalid Hok) as (elements & -> & Hlen).
        destruct (createSetFunction_valid Hlen Hrecord) as (w2 & Hrun & _).
        unfold r in Hthrow. rewrite Hrun in Hthrow. discriminate.
    + intros [Hinv Hnull]. exists set_message. unfold r.
      rewrite (createSetFunction_invalid _ _ _ Hinv Hnull). reflexivity.
  - intros Hinv Hnull. apply createSetFunction_invalid; assumption.
  - intros ->. reflexivity.
  - intros Hok. destruct (Hvalid Hok) as (elements & -> & Hlen).
    destruct (createSetFunction_valid Hlen Hrecord)
      as (w2 & Hrun & _ & _ & Hlookup & Hqueue).
    exists elements, record, w2.
    split; [reflexivity|]. split; [exact Hrecord|]. split; [exact Hrun|].
    split; [|split].
    + rewrite Hlookup. rewrite decide_True by reflexivity. reflexivity.
    + intros ref' Hne. rewrite Hlookup. rewrite decide_False by exact Hne. reflexivity.
    + exact Hqueue.
Qed.

(** At the failing input: [null] assigned to the color of instance ['a'] of
    the completed sample primitive. *)
Lemma createSetFunction_validates_witness :
  getGeometryInstanceAttributes (IdString "a") Sample.w3
  = (Return (Some {| acc_perInstanceAttributes := 0; acc_names := ["color"] |}),
     set_this (set__lastPerInstanceAttributeIndex 0 (this Sample.w3)) Sample.w3)
  /\ "color" ∈ acc_names {| acc_perInstanceAttributes := 0; acc_names := ["color"] |}
  /\ createSetFunction "color" 0 VNull
       (set_this (set__lastPerInstanceAttributeIndex 0 (this Sample.w3)) Sample.w3)
     = (Throw TypeError,
        set_this (set__lastPerInstanceAttributeIndex 0 (this Sample.w3)) Sample.w3).
Proof.
  assert (H1 : getGeometryInstanceAttributes (IdString "a") Sample.w3
               = (Return (Some {| acc_perInstanceAttributes := 0;
                                  acc_names := ["color"] |}),
                  set_this (set__lastPerInstanceAttributeIndex 0 (this Sample.w3))
                    Sample.w3)) by (vm_compute; reflexivity).
  assert (H2 : "color" ∈ acc_names {| acc_perInstanceAttributes := 0;
                                      acc_names := ["color"] |})
    by (apply elem_of_cons; auto).
  split; [exact H1|]. split; [exact H2|].
  destruct (createSetFunction_validates VNull H1 H2) as (_ & _ & Hnull & _).
  apply Hnull. reflexivity.
Defined.

(** ** What a method body keeps *)

Section Keeps.

Context {B : Type} (f : World -> B).

Lemma keeps_ret {A} (a : A) : keeps f (ret a).
Proof. intros w. reflexivity. Qed.

Lemma keeps_throw {A} e : keeps f (throw (A := A) e).
Proof. intros w. reflexivity. Qed.

Lemma keeps_lift {A} (c : Completion A) : keeps f (lift c).
Proof. intros w. reflexivity. Qed.

Lemma keeps_defined {A} (o : option A) : keeps f (defined o).
Proof. intros w. destruct o; reflexivity. Qed.

Lemma keeps_get {A} (field : Primitive -> A) : keeps f (get field).
Proof. intros w. reflexivity. Qed.

Lemma keeps_bind {A C} (m : M A) (k : A -> M C) :
  keeps f m -> (forall a, keeps f (k a)) -> keeps f (bind m k).
Proof.
  intros Hm Hk w. unfold bind. specialize (Hm w).
  destruct (m w) as [[a|e] w']; simpl in *.
  - rewrite Hk. exact Hm.
  - exact Hm.
Qed.

Lemma keeps_for_each_from {A} (l : list A) (body : nat -> A -> M unit) i :
  (forall j x, keeps f (body j x)) -> keeps f (for_each_from i l body).
Proof.
  intros Hbody. revert i. induction l as [|x rest IH]; intros i; simpl.
  - apply keeps_ret.
  - apply keeps_bind; [apply Hbody | intros _; apply IH].
Qed.

Lemma keeps_for_each {A} (l : list A) (body : nat -> A -> M unit) :
  (forall j x, keeps f (body j x)) -> keeps f (for_each l body).
Proof. apply keeps_for_each_from. Qed.

Lemma keeps_for_range n (body : nat -> M unit) :
  (forall i, keeps f (body i)) -> keeps f (for_range n body).
Proof. intros H. apply keeps_for_each. intros _ i. apply H. Qed.

(** The observation does not look at the context. *)
Hypothesis f_context : forall c w, f (set_context c w) = f w.

Lemma keeps_call c : keeps f (call c).
Proof. intros w. apply f_context. Qed.

Lemma keeps_replaceShaderProgram shaderProgram vs fs attributeIndices :
  keeps f (shaderCache_replaceShaderProgram shaderProgram vs fs attributeIndices).
Proof.
  unfold shaderCache_replaceShaderProgram.
  apply keeps_bind; [intros w; reflexivity | intros active].
  apply keeps_bind; [apply keeps_call | intros handle; apply keeps_ret].
Qed.

Lemma keeps_assign (setter : Primitive -> Primitive) :
  (forall w, f (set_this (setter (this w)) w) = f w) -> keeps f (assign setter).
Proof. intros H w. apply H. Qed.

End Keeps.

(** One step of a proof that a body keeps an observation. *)
Ltac keeps_step :=
  lazymatch goal with
  | |- keeps _ (bind _ _) => apply keeps_bind; [|intros ?]
  | |- keeps _ (ret _) => apply keeps_ret
  | |- keeps _ (throw _) => apply keeps_throw
  | |- keeps _ (lift _) => apply keeps_lift
  | |- keeps _ (defined _) => apply keeps_defined
  | |- keeps _ (get _) => apply keeps_get
  | |- keeps _ (call _) => apply keeps_call; intros ? ?; reflexivity
  | |- keeps _ (shaderCache_replaceShaderProgram _ _ _ _) =>
      apply keeps_replaceShaderProgram; intros ? ?; reflexivity
  | |- keeps _ (for_each _ _) => apply keeps_for_each; intros ? ?
  | |- keeps _ (for_range _ _) => apply keeps_for_range; intros ?
  | |- keeps _ (if ?b then _ else _) => destruct b
  | |- keeps _ (match ?x with _ => _ end) => destruct x
  end.

Lemma store_record_steady ref record w :
  steady_fields (set_this (store_record ref record (this w)) w) = steady_fields w.
Proof.
  unfold store_record.
  destruct (_perInstanceAttributes (this w)) as [table|]; [|destruct w; reflexivity].
  destruct (pia_indices table) as [indices|]; [|destruct w; reflexivity].
  destruct (indices !! ref.1); [reflexivity | destruct w; reflexivity].
Qed.

Lemma modify_colorCommand_steady i g : keeps steady_fields (modify_colorCommand i g).
Proof.
  unfold modify_colorCommand. repeat keeps_step.
  apply keeps_assign. reflexivity.
Qed.

Lemma modify_pickCommand_steady i g : keeps steady_fields (modify_pickCommand i g).
Proof.
  unfold modify_pickCommand. repeat keeps_step.
  apply keeps_assign. reflexivity.
Qed.

Lemma update_appearance_steady : keeps steady_fields update_appearance.
Proof.
  unfold update_appearance.
  repeat first
    [ apply modify_colorCommand_steady
    | apply modify_pickCommand_steady
    | apply keeps_assign; intros ?; reflexivity
    | keeps_step ].
Qed.

Lemma flush_range_steady value index : keeps steady_fields (flush_range value index).
Proof. unfold flush_range. repeat keeps_step. Qed.

Lemma flush_attribute_steady ref : keeps steady_fields (flush_attribute ref).
Proof.
  unfold flush_attribute.
  repeat first
    [ apply flush_range_steady
    | apply keeps_assign; intros ?; apply store_record_steady
    | keeps_step ].
Qed.

Lemma update_perInstanceAttributes_steady : keeps steady_fields update_perInstanceAttributes.
Proof.
  unfold update_perInstanceAttributes.
  repeat first
    [ apply flush_attribute_steady
    | apply keeps_assign; intros ?; reflexivity
    | keeps_step ].
Qed.

Lemma update_commands_steady boundingSphere :
  keeps steady_fields (update_commands boundingSphere).
Proof.
  unfold update_commands.
  repeat first
    [ apply modify_colorCommand_steady
    | apply modify_pickCommand_steady
    | keeps_step ].
Qed.

Lemma steady_state_steady frameState commandList :
  keeps steady_fields (steady_state frameState commandList).
Proof.
  unfold steady_state.
  repeat first
    [ apply update_appearance_steady
    | apply update_perInstanceAttributes_steady
    | apply update_commands_steady
    | keeps_step ].
Qed.

(** ** The READY branch *)

Lemma set__pickIds_same p : set__pickIds (_pickIds p) p = p.
Proof. destruct p; reflexivity. Qed.

Lemma log_calls_nil c : log_calls [] c = c.
Proof. destruct c. unfold log_calls. simpl. rewrite app_nil_r. reflexivity. Qed.

Lemma create_pick_ids_run insts pickColors w :
  create_pick_ids insts pickColors w
  = (Return (pickColors
             ++ map pick_color (new_pick_ids (length (ctx_calls (context w))) insts)),
     {| this := set__pickIds
                  (_pickIds (this w)
                   ++ new_pick_ids (length (ctx_calls (context w))) insts)
                  (this w);
        context := log_calls (map (fun inst => createPickId (pickObject (gi_id inst))) insts)
                     (context w);
        callbacks := callbacks w |}).
Proof.
  revert pickColors w. induction insts as [|inst rest IH]; intros pickColors w.
  - simpl. rewrite !app_nil_r, set__pickIds_same, log_calls_nil.
    destruct w; reflexivity.
  - simpl. unfold bind at 1. unfold context_createPickId, bind at 1, call, ret. simpl.
    unfold bind at 1. unfold get at 1. unfold bind at 1. unfold assign at 1.
    rewrite IH. simpl. rewrite length_app. simpl. rewrite Nat.add_1_r.
    f_equal.
    + rewrite <- app_assoc. reflexivity.
    + f_equal.
      * unfold set__pickIds. simpl. rewrite <- app_assoc. reflexivity.
      * unfold log_calls, log_call. simpl. rewrite <- app_assoc. reflexivity.
Qed.

Lemma copy_instances_clones i instances transferableObjects :
  (copy_instances i instances transferableObjects).1 = map cloneInstance instances.
Proof.
  revert i transferableObjects. induction instances as [|instance rest IH];
    intros i transferableObjects; simpl; [reflexivity|].
  match goal with
  | |- context [copy_instances (S i) rest ?t] =>
      specialize (IH (S i) t); destruct (copy_instances (S i) rest t) as [insts t']
  end.
  simpl in *. rewrite IH. reflexivity.
Qed.

Lemma READY_branch_run taskProcessor frameState geometryInstances0 w :
  geometryInstances (this w) = Some geometryInstances0 ->
  let insts := map cloneInstance (instances_of geometryInstances0) in
  READY_branch taskProcessor frameState w
  = match scheduled taskProcessor frameState geometryInstances0 w with
    | None => (Return true, with_pick_ids insts w)
    | Some promise =>
        (Return false,
         {| this := set_state COMBINING (this (with_pick_ids insts w));
            context := context (with_pick_ids insts w);
            callbacks := callbacks w ++ [promise] |})
    end.
Proof.
  intros Hgi insts. unfold READY_branch, scheduled.
  unfold bind at 1. unfold get at 1. rewrite Hgi.
  assert (Hinst : (match geometryInstances0 with
                   | InstanceArray l => ret l
                   | SingleInstance instance => ret [instance]
                   end) = ret (instances_of geometryInstances0)).
  { destruct geometryInstances0; reflexivity. }
  rewrite Hinst. unfold bind at 1. unfold ret at 1.
  pose proof (copy_instances_clones 0 (instances_of geometryInstances0) []) as Hclones.
  destruct (copy_instances 0 (instances_of geometryInstances0) []) as [insts' t].
  simpl in Hclones. subst insts'. fold insts.
  unfold bind at 1. rewrite create_pick_ids_run. simpl.
  fold (with_pick_ids insts w).
  unfold bind at 1. unfold get at 1. unfold bind at 1. unfold context_getElementIndexUint.
  simpl.
  match goal with
  | |- match ?a with _ => _ end _ = match ?b with _ => _ end =>
      replace a with b by reflexivity; destruct b as [promise|]
  end.
  - reflexivity.
  - reflexivity.
Qed.

Lemma update_READY taskProcessor frameState commandList geometryInstances0 w :
  state (this w) = READY ->
  early_exit (this w) frameState = false ->
  geometryInstances (this w) = Some geometryInstances0 ->
  let insts := map cloneInstance (instances_of geometryInstances0) in
  update taskProcessor frameState commandList w
  = (Return commandList,
     match scheduled taskProcessor frameState geometryInstances0 w with
     | None => with_pick_ids insts w
     | Some promise =>
         {| this := set_state COMBINING (this (with_pick_ids insts w));
            context := context (with_pick_ids insts w);
            callbacks := callbacks w ++ [promise] |}
     end).
Proof.
  intros Hstate Hexit Hgi insts. unfold update.
  unfold bind at 1. unfold get at 1. rewrite Hexit, Hstate.
  unfold bind at 1. rewrite (READY_branch_run taskProcessor frameState Hgi).
  fold insts. destruct (scheduled taskProcessor frameState geometryInstances0 w).
  - reflexivity.
  - reflexivity.
Qed.

Lemma update_READY_undefined taskProcessor frameState commandList w :
  state (this w) = READY ->
  early_exit (this w) frameState = false ->
  geometryInstances (this w) = None ->
  update taskProcessor frameState commandList w = (Throw TypeError, w).
Proof.
  intros Hstate Hexit Hgi. unfold update.
  unfold bind at 1. unfold get at 1. rewrite Hexit, Hstate.
  unfold bind at 1. unfold READY_branch. unfold bind at 1. unfold get at 1. rewrite Hgi.
  reflexivity.
Qed.

Lemma update_waiting taskProcessor frameState commandList w :
  state (this w) = COMBINING \/ state (this w) = FAILED ->
  update taskProcessor frameState commandList w = (Return commandList, w).
Proof.
  intros Hstate. unfold update. unfold bind at 1. unfold get at 1.
  destruct (early_exit (this w) frameState); [reflexivity|].
  destruct Hstate as [Hstate|Hstate]; rewrite Hstate; unfold bind, get, ret; simpl;
    rewrite Hstate; reflexivity.
Qed.

Lemma length_new_pick_ids key insts : length (new_pick_ids key insts) = length insts.
Proof.
  revert key. induction insts as [|inst rest IH]; intros key; simpl; [reflexivity|].
  rewrite IH. reflexivity.
Qed.

Lemma length_instances_of_clones geometryInstances0 :
  length (map cloneInstance (instances_of geometryInstances0))
  = length (instances_of geometryInstances0).
Proof. apply length_map. Qed.

(** The world after [n] updates in a row with the same task processor and
    frame. *)
Lemma declined_updates taskProcessor frameState commandList geometryInstances0 w n :
  (forall message transferableObjects,
      taskProcessor message transferableObjects = None) ->
  state (this w) = READY ->
  early_exit (this w) frameState = false ->
  geometryInstances (this w) = Some geometryInstances0 ->
  let w' := Nat.iter n (perform (call_update taskProcessor frameState commandList)) w in
  state (this w') = READY
  /\ early_exit (this w') frameState = false
  /\ geometryInstances (this w') = Some geometryInstances0
  /\ callbacks w' = callbacks w
  /\ length (_pickIds (this w'))
     = length (_pickIds (this w)) + n * length (instances_of geometryInstances0)
  /\ length (ctx_calls (context w'))
     = length (ctx_calls (context w)) + n * length (instances_of geometryInstances0).
Proof.
  intros Hdecline Hstate Hexit Hgi. induction n as [|n IH]; simpl.
  - repeat split; auto; lia.
  - destruct IH as (IHstate & IHexit & IHgi & IHcb & IHids & IHcalls).
    set (wn := Nat.iter n (perform (call_update taskProcessor frameState commandList)) w) in *.
    rewrite (update_READY taskProcessor commandList IHstate IHexit IHgi).
    assert (Hs : scheduled taskProcessor frameState geometryInstances0 wn = None).
    { unfold scheduled.
      destruct (copy_instances 0 (instances_of geometryInstances0) []). apply Hdecline. }
    rewrite Hs. simpl.
    repeat split; auto.
    + rewrite length_app, length_new_pick_ids, length_map. lia.
    + rewrite length_app, length_map, length_map. lia.
Qed.

(** C9. When the task processor returns no promise for the combine request,
    [update] returns with the state still READY and no callback registered,
    but with one new pick id per instance appended to [_pickIds] and created
    on the context.  The next update runs the READY branch again, so after
    [n] declined updates [_pickIds] has grown by [n] times the number of
    instances. *)
Theorem update_declined_accumulates taskProcessor frameState commandList
  geometryInstances0 w :
  state (this w) = READY ->
  early_exit (this w) frameState = false ->
  geometryInstances (this w) = Some geometryInstances0 ->
  scheduled taskProcessor frameState geometryInstances0 w = None ->
  let insts := map cloneInstance (instances_of geometryInstances0) in
  let w' := with_pick_ids insts w in
  update taskProcessor frameState commandList w = (Return commandList, w')
  /\ state (this w') = READY
  /\ callbacks w' = callbacks w
  /\ _pickIds (this w')
     = _pickIds (this w) ++ new_pick_ids (length (ctx_calls (context w))) insts
  /\ length (new_pick_ids (length (ctx_calls (context w))) insts)
     = length (instances_of geometryInstances0)
  /\ ctx_calls (context w')
     = ctx_calls (context w)
       ++ map (fun inst => createPickId (pickObject (gi_id inst))) insts
  /\ early_exit (this w') frameState = false
  /\ geometryInstances (this w') = Some geometryInstances0
  /\ ((forall message transferableObjects,
          taskProcessor message transferableObjects = None) ->
      forall n,
        let wn := Nat.iter n (perform (call_update taskProcessor frameState commandList)) w in
        state (this wn) = READY
        /\ length (_pickIds (this wn))
           = length (_pickIds (this w)) + n * length (instances_of geometryInstances0)).
Proof.
  intros Hstate Hexit Hgi Hdeclined insts w'.
  split.
  { rewrite (update_READY taskProcessor commandList Hstate Hexit Hgi).
    rewrite Hdeclined. reflexivity. }
  split; [exact Hstate|]. split; [reflexivity|]. split; [reflexivity|].
  split; [unfold insts; rewrite length_new_pick_ids; apply length_map|].
  split; [reflexivity|]. split; [exact Hexit|]. split; [exact Hgi|].
  intros Hall n.
  destruct (declined_updates commandList n Hall Hstate Hexit Hgi)
    as (H1 & _ & _ & _ & H2 & _).
  split; assumption.
Qed.

Lemma update_declined_accumulates_witness :
  state (this Sample.w0) = READY
  /\ early_exit (this Sample.w0) (Sample.frameState SCENE3D) = false
  /\ scheduled Sample.decline (Sample.frameState SCENE3D)
       (InstanceArray [Sample.instance (IdString "a"); Sample.instance IdUndefined])
       Sample.w0 = None
  /\ length (_pickIds (this (Nat.iter 3
               (perform (call_update Sample.decline (Sample.frameState SCENE3D) []))
               Sample.w0))) = 6.
Proof.
  assert (H1 : state (this Sample.w0) = READY) by reflexivity.
  assert (H2 : early_exit (this Sample.w0) (Sample.frameState SCENE3D) = false)
    by reflexivity.
  assert (H3 : geometryInstances (this Sample.w0)
               = Some (InstanceArray [Sample.instance (IdString "a");
                                      Sample.instance IdUndefined])) by reflexivity.
  assert (H4 : scheduled Sample.decline (Sample.frameState SCENE3D)
                 (InstanceArray [Sample.instance (IdString "a");
                                 Sample.instance IdUndefined]) Sample.w0 = None)
    by reflexivity.
  split; [exact H1|]. split; [exact H2|]. split; [exact H4|].
  destruct (update_declined_accumulates [] H1 H2 H3 H4)
    as (_ & _ & _ & _ & _ & _ & _ & _ & Hiter).
  destruct (Hiter (fun _ _ => eq_refl) 3) as [_ Hlen].
  exact Hlen.
Defined.

(** ** What the READY branch creates *)

(** That the dispatching update creates no GPU resource does not hold on
    the sample scene: the update that takes the fresh primitive from READY
    to COMBINING creates two pick ids on the context. *)
Lemma dispatch_creates_pick_ids :
  state (this Sample.w0) = READY
  /\ state (this Sample.w1) = COMBINING
  /\ ctx_calls (context Sample.w0) = []
  /\ ctx_calls (context Sample.w1)
     = [createPickId (PickInstance (IdString "a")); createPickId PickPrimitive]
  /\ ~ Forall (fun c => creates_gpu_resource c = false) (ctx_calls (context Sample.w1)).
Proof.
  split; [reflexivity|]. split; [reflexivity|]. split; [reflexivity|].
  split; [reflexivity|].
  intros H. apply Forall_inv in H. discriminate H.
Qed.

(** C2, amended. Of the calls that create or change a resource of the
    renderer, an update that starts in the READY or COMBINING state makes
    [createPickId] calls only: no vertex buffer, vertex array, render state
    or shader program is created, no buffer is written, and the renderer
    handles held by the primitive stay as they were.  (The READY branch
    also asks [context.getElementIndexUint()], a query that creates
    nothing.)  The update that dispatches the combine task creates exactly
    one pick id for each instance. *)
Theorem dispatch_creates_only_pick_ids taskProcessor frameState commandList w :
  state (this w) = READY \/ state (this w) = COMBINING ->
  let w' := perform (call_update taskProcessor frameState commandList) w in
  (exists insts,
      ctx_calls (context w')
      = ctx_calls (context w) ++ map (fun inst => createPickId (pickObject (gi_id inst))) insts
      /\ (state (this w) = READY -> state (this w') = COMBINING ->
          exists geometryInstances0,
            geometryInstances (this w) = Some geometryInstances0
            /\ insts = map cloneInstance (instances_of geometryInstances0)
            /\ length insts = length (instances_of geometryInstances0)))
  /\ _va (this w') = _va (this w)
  /\ _vaAttributes (this w') = _vaAttributes (this w)
  /\ _rs (this w') = _rs (this w)
  /\ _sp (this w') = _sp (this w)
  /\ _pickSP (this w') = _pickSP (this w).
Proof.
  intros Hstate w'. subst w'. simpl.
  assert (Hsame : forall v : World,
             v = w ->
             (exists insts,
                 ctx_calls (context v)
                 = ctx_calls (context w)
                   ++ map (fun inst => createPickId (pickObject (gi_id inst))) insts
                 /\ (state (this w) = READY -> state (this v) = COMBINING ->
                     exists geometryInstances0,
                       geometryInstances (this w) = Some geometryInstances0
                       /\ insts = map cloneInstance (instances_of geometryInstances0)
                       /\ length insts = length (instances_of geometryInstances0)))
             /\ _va (this v) = _va (this w)
             /\ _vaAttributes (this v) = _vaAttributes (this w)
             /\ _rs (this v) = _rs (this w)
             /\ _sp (this v) = _sp (this w)
             /\ _pickSP (this v) = _pickSP (this w)).
  { intros v ->. split; [|auto].
    exists []. simpl. rewrite app_nil_r. split; [reflexivity|]. congruence. }
  destruct Hstate as [Hready|Hcombining].
  - destruct (early_exit (this w) frameState) eqn:Hexit.
    { rewrite (update_when_early_exit taskProcessor commandList Hexit). apply Hsame.
      reflexivity. }
    destruct (geometryInstances (this w)) as [geometryInstances0|] eqn:Hgi.
    + rewrite (update_READY taskProcessor commandList Hready Hexit Hgi). simpl.
      destruct (scheduled taskProcessor frameState geometryInstances0 w); simpl.
      * split; [|auto]. eexists. split; [reflexivity|]. intros _ _.
        exists geometryInstances0. split; [reflexivity|]. split; [reflexivity|].
        apply length_map.
      * split; [|auto]. eexists. split; [reflexivity|]. intros _ H. congruence.
    + rewrite (update_READY_undefined taskProcessor commandList Hready Hexit Hgi).
      apply Hsame. reflexivity.
  - rewrite (update_waiting taskProcessor frameState commandList (or_introl Hcombining)).
    apply Hsame. reflexivity.
Qed.

Lemma dispatch_creates_only_pick_ids_witness :
  (state (this Sample.w0) = READY \/ state (this Sample.w0) = COMBINING)
  /\ _va (this (perform (call_update Sample.accept (Sample.frameState SCENE3D) [])
                  Sample.w0)) = _va (this Sample.w0).
Proof.
  assert (H : state (this Sample.w0) = READY \/ state (this Sample.w0) = COMBINING)
    by (left; reflexivity).
  split; [exact H|].
  destruct (dispatch_creates_only_pick_ids Sample.accept (Sample.frameState SCENE3D) [] H)
    as (_ & Hva & _).
  exact Hva.
Defined.

(** ** The COMBINED branch *)

Lemma create_vertex_buffers_run attributes w :
  create_vertex_buffers attributes w
  = (Return (with_vertex_buffers (length (ctx_calls (context w))) attributes),
     set_context
       (log_calls (map (fun a => createVertexBuffer (vaa_values a) DYNAMIC_DRAW) attributes)
          (context w)) w).
Proof.
  revert w. induction attributes as [|attribute rest IH]; intros w.
  - simpl. unfold ret. rewrite log_calls_nil. destruct w; reflexivity.
  - simpl. unfold bind at 1. unfold call at 1. unfold bind at 1. rewrite IH.
    unfold ret. simpl. rewrite length_app. simpl. rewrite Nat.add_1_r.
    f_equal. unfold set_context, log_calls, log_call. simpl.
    rewrite <- app_assoc. reflexivity.
Qed.

Lemma create_vertex_arrays_run geometries : forall i attributeIndices va w vaAttributes,
  _vaAttributes (this w) = Some vaAttributes ->
  i + length geometries <= length vaAttributes ->
  exists va' vaAttributes' c',
    create_vertex_arrays i geometries attributeIndices va w
    = (Return va',
       {| this := set__vaAttributes (Some vaAttributes') (this w);
          context := c'; callbacks := callbacks w |})
    /\ length va' = length va + length geometries
    /\ length vaAttributes' = length vaAttributes.
Proof.
  induction geometries as [|geometry rest IH]; intros i attributeIndices va w vaAttributes Hva Hlen.
  - exists va, vaAttributes, (context w). simpl. unfold ret.
    split; [|split; [lia | reflexivity]].
    f_equal. destruct w as [p c cb]. simpl in *. f_equal.
    destruct p. simpl in *. subst. reflexivity.
  - simpl in Hlen.
    destruct (vaAttributes !! i) as [attributes|] eqn:Hi;
      [|apply lookup_ge_None in Hi; lia].
    simpl. unfold bind at 1. unfold get at 1. rewrite Hva.
    unfold bind at 1. unfold defined at 1, ret at 1.
    unfold bind at 1. unfold defined at 1, ret at 1. rewrite Hi.
    unfold bind at 1. rewrite create_vertex_buffers_run.
    unfold bind at 1. unfold assign at 1.
    unfold bind at 1. unfold call at 1.
    match goal with
    | |- context [create_vertex_arrays (S i) rest attributeIndices ?va1 ?w1] =>
        destruct (IH (S i) attributeIndices va1 w1
                    (<[i := with_vertex_buffers (length (ctx_calls (context w))) attributes]>
                       vaAttributes))
          as (va' & vaAttributes' & c' & Hrun & Hlva & Hlvas)
    end.
    + reflexivity.
    + rewrite length_insert. lia.
    + exists va', vaAttributes', c'. rewrite Hrun. simpl.
      split; [reflexivity|]. split.
      * rewrite Hlva, length_app. simpl. lia.
      * rewrite Hlvas, length_insert. reflexivity.
Qed.

Lemma create_commands_run geometries w :
  exists commandLists,
    create_commands geometries w
    = (Return tt, set_this (set__commandLists commandLists (this w)) w)
    /\ length (colorList commandLists)
       = length (colorList (_commandLists (this w))) + length geometries
    /\ length (pickList commandLists)
       = length (pickList (_commandLists (this w))) + length geometries.
Proof.
  unfold create_commands, for_each. generalize 0 as i. revert w.
  induction geometries as [|geometry rest IH]; intros w i.
  - exists (_commandLists (this w)). simpl. unfold ret.
    split; [|split; lia]. f_equal. destruct w as [p c cb]. unfold set_this. simpl.
    f_equal. destruct p; reflexivity.
  - simpl. unfold bind at 1. unfold bind at 1. unfold get at 1.
    unfold bind at 1. unfold get at 1. unfold assign at 1.
    match goal with
    | |- context [for_each_from (S i) rest _ ?w1] =>
        destruct (IH w1 (S i)) as (commandLists & Hrun & Hc & Hp)
    end.
    exists commandLists. rewrite Hrun. simpl in *.
    split; [reflexivity|]. rewrite Hc, Hp, !length_app. simpl. lia.
Qed.

Lemma COMBINED_branch_run frameState w first rest vaAttributes :
  _geometries (this w) = Some (first :: rest) ->
  _vaAttributes (this w) = Some vaAttributes ->
  length (first :: rest) <= length vaAttributes ->
  exists vaAttributes' va commandLists c',
    COMBINED_branch frameState w
    = (Return tt,
       {| this := completed (scene2D_projection frameState) first vaAttributes' va
                    commandLists (this w);
          context := c'; callbacks := callbacks w |})
    /\ length va = length (first :: rest).
Proof.
  intros Hg Hva Hlen. unfold COMBINED_branch.
  run_step. run_step. rewrite Hg. run_step. run_step. run_step. run_step.
  set (w1 := set_this (set__boundingSphere (g_boundingSphere first) (this w)) w).
  set (p2 := match _boundingSphere (this w1) with
             | Some sphere =>
                 if negb (_allow3DOnly (this w1))
                 then set__boundingSphere2D
                        (Some (ProjectTo2D sphere
                                 (proj_ellipsoid (scene2D_projection frameState)))) (this w1)
                 else this w1
             | None => this w1
             end).
  erewrite (@bind_Return _ _ _ _ _ tt (set_this p2 w1)).
  2:{ unfold p2. destruct (_boundingSphere (this w1)) as [sphere|];
        [destruct (negb (_allow3DOnly (this w1)))|]; reflexivity. }
  assert (Hva2 : _vaAttributes (this (set_this p2 w1)) = Some vaAttributes).
  { simpl. unfold p2. destruct (_boundingSphere (this w1));
      [destruct (negb (_allow3DOnly (this w1)))|]; exact Hva. }
  destruct (@create_vertex_arrays_run (first :: rest) 0 (_attributeIndices (this w)) []
              _ _ Hva2 Hlen)
    as (va & vaAttributes' & c' & Hrun & Hlva & _).
  erewrite bind_Return by exact Hrun. cbv beta.
  run_step.
  match goal with
  | |- context [bind (create_commands (first :: rest)) _ ?w3] =>
      destruct (create_commands_run (first :: rest) w3) as (commandLists & Hcmd & _ & _)
  end.
  exists vaAttributes', va, commandLists, c'.
  split; [|exact Hlva].
  erewrite bind_Return by exact Hcmd. cbv beta.
  run_step.
  assert (Hrel : _releaseGeometryInstances p2 = _releaseGeometryInstances (this w)).
  { unfold p2. destruct (_boundingSphere (this w1));
      [destruct (negb (_allow3DOnly (this w1)))|]; reflexivity. }
  unfold completed. fold w1. cbv zeta.
  change (set__boundingSphere (g_boundingSphere first) (this w)) with (this w1).
  fold p2. simpl. rewrite Hrel.
  destruct (_releaseGeometryInstances (this w)); reflexivity.
Qed.

Lemma completed_fields projection first vaAttributes va commandLists p :
  let p' := completed projection first vaAttributes va commandLists p in
  state p' = COMPLETE
  /\ _geometries p' = _geometries p
  /\ _geomtries p' = Some None
  /\ geometryInstances p'
     = (if _releaseGeometryInstances p then None else geometryInstances p).
Proof.
  unfold completed. simpl.
  destruct (g_boundingSphere first) as [sphere|]; simpl;
    [destruct (_allow3DOnly p); simpl|];
    destruct (_releaseGeometryInstances p); simpl; auto.
Qed.

Lemma update_COMBINED taskProcessor frameState commandList w first rest vaAttributes :
  state (this w) = COMBINED ->
  early_exit (this w) frameState = false ->
  _geometries (this w) = Some (first :: rest) ->
  _vaAttributes (this w) = Some vaAttributes ->
  length (first :: rest) <= length vaAttributes ->
  exists vaAttributes' va commandLists w1,
    update taskProcessor frameState commandList w = steady_state frameState commandList w1
    /\ this w1 = completed (scene2D_projection frameState) first vaAttributes' va
                   commandLists (this w)
    /\ callbacks w1 = callbacks w.
Proof.
  intros Hstate Hexit Hg Hva Hlen.
  destruct (COMBINED_branch_run frameState Hg Hva Hlen)
    as (vaAttributes' & va & commandLists & c' & Hrun & _).
  exists vaAttributes', va, commandLists.
  exists {| this := completed (scene2D_projection frameState) first vaAttributes' va
                      commandLists (this w);
            context := c'; callbacks := callbacks w |}.
  split; [|split; reflexivity].
  unfold update. run_step. rewrite Hexit, Hstate.
  erewrite bind_Return.
  2:{ erewrite bind_Return by exact Hrun. reflexivity. }
  cbv beta iota. run_step.
  destruct (completed_fields (scene2D_projection frameState) first vaAttributes' va
              commandLists (this w)) as [Hs _].
  cbn [this]. rewrite Hs. reflexivity.
Qed.

Lemma steady_fields_geometries w1 w2 :
  steady_fields w2 = steady_fields w1 ->
  state (this w2) = state (this w1)
  /\ _geometries (this w2) = _geometries (this w1)
  /\ _geomtries (this w2) = _geomtries (this w1)
  /\ geometryInstances (this w2) = geometryInstances (this w1).
Proof.
  intros H.
  split; [exact (f_equal sf_state H)|].
  split; [exact (f_equal sf_geometries H)|].
  split; [exact (f_equal sf_geomtries H) | exact (f_equal sf_geometryInstances H)].
Qed.

(** C10. The update that takes the primitive from COMBINED to COMPLETE
    leaves [_geometries] holding the combined geometries: what it sets to
    [undefined] is the property [_geomtries].  Of the two references to
    geometry input only the public [geometryInstances] is cleared, and only
    when [releaseGeometryInstances] is set. *)
Theorem update_complete_keeps_geometries taskProcessor frameState commandList w
  first rest vaAttributes :
  state (this w) = COMBINED ->
  early_exit (this w) frameState = false ->
  _geometries (this w) = Some (first :: rest) ->
  _vaAttributes (this w) = Some vaAttributes ->
  length (first :: rest) <= length vaAttributes ->
  let w' := (update taskProcessor frameState commandList w).2 in
  state (this w') = COMPLETE
  /\ _geometries (this w') = Some (first :: rest)
  /\ _geomtries (this w') = Some None
  /\ geometryInstances (this w')
     = (if _releaseGeometryInstances (this w) then None else geometryInstances (this w)).
Proof.
  intros Hstate Hexit Hg Hva Hlen.
  destruct (update_COMBINED taskProcessor commandList Hstate Hexit Hg Hva Hlen)
    as (vaAttributes' & va & commandLists & w1 & Hupdate & Hthis & _).
  rewrite Hupdate. cbv zeta.
  destruct (steady_fields_geometries (steady_state_steady frameState commandList w1))
    as (Hst & Hgeo & Hgeom & Hgi).
  rewrite Hst, Hgeo, Hgeom, Hgi, Hthis, <- Hg.
  apply completed_fields.
Qed.

Lemma update_complete_keeps_geometries_witness :
  state (this Sample.w2) = COMBINED
  /\ early_exit (this Sample.w2) (Sample.frameState SCENE3D) = false
  /\ _geometries (this Sample.w2) = Some [Sample.geometry]
  /\ _geometries (this (update Sample.accept (Sample.frameState SCENE3D) [] Sample.w2).2)
     = Some [Sample.geometry]
  /\ _geomtries (this (update Sample.accept (Sample.frameState SCENE3D) [] Sample.w2).2)
     = Some None.
Proof.
  assert (H1 : state (this Sample.w2) = COMBINED) by (vm_compute; reflexivity).
  assert (H2 : early_exit (this Sample.w2) (Sample.frameState SCENE3D) = false)
    by (vm_compute; reflexivity).
  assert (H3 : _geometries (this Sample.w2) = Some [Sample.geometry])
    by (vm_compute; reflexivity).
  assert (H4 : _vaAttributes (this Sample.w2) = Some (res_vaAttributes Sample.result))
    by (vm_compute; reflexivity).
  assert (H5 : length [Sample.geometry] <= length (res_vaAttributes Sample.result))
    by (simpl; lia).
  split; [exact H1|]. split; [exact H2|]. split; [exact H3|].
  destruct (update_complete_keeps_geometries Sample.accept [] H1 H2 H3 H4 H5)
    as (_ & Hgeo & Hgeom & _).
  split; [exact Hgeo | exact Hgeom].
Defined.

(** ** The state machine *)

Lemma create_vertex_buffers_lifecycle attributes :
  keeps lifecycle (create_vertex_buffers attributes).
Proof.
  induction attributes as [|attribute rest IH]; simpl.
  - apply keeps_ret.
  - apply keeps_bind; [apply keeps_call; reflexivity | intros vertexBuffer].
    apply keeps_bind; [exact IH | intros rest']. apply keeps_ret.
Qed.

Lemma create_vertex_arrays_lifecycle geometries : forall i attributeIndices va,
  keeps lifecycle (create_vertex_arrays i geometries attributeIndices va).
Proof.
  induction geometries as [|geometry rest IH]; intros i attributeIndices va; simpl.
  - apply keeps_ret.
  - repeat first
      [ apply create_vertex_buffers_lifecycle
      | apply IH
      | apply keeps_assign; intros ?; reflexivity
      | keeps_step ].
Qed.

Lemma create_commands_lifecycle geometries : keeps lifecycle (create_commands geometries).
Proof.
  unfold create_commands.
  repeat first [ apply keeps_assign; intros ?; reflexivity | keeps_step ].
Qed.

Lemma state_after_bind {A C} s (m : M A) (k : A -> M C) :
  keeps lifecycle m -> (forall a, state_after s (k a)) -> state_after s (bind m k).
Proof.
  intros Hm Hk w. unfold bind. specialize (Hm w).
  destruct (m w) as [[a|e] w1]; simpl in Hm.
  - specialize (Hk a w1). destruct (k a w1) as [[c|e] w2].
    + rewrite Hk. f_equal. exact (f_equal snd Hm).
    + rewrite Hk. exact Hm.
  - exact Hm.
Qed.

Lemma state_after_assign s : state_after s (assign (set_state s)).
Proof. intros w. reflexivity. Qed.

Lemma COMBINED_branch_state_after frameState :
  state_after COMPLETE (COMBINED_branch frameState).
Proof.
  unfold COMBINED_branch.
  repeat (apply state_after_bind;
          [ repeat first
              [ apply create_vertex_arrays_lifecycle
              | apply create_commands_lifecycle
              | apply keeps_assign; intros ?; reflexivity
              | keeps_step ]
          | intros ? ]).
  apply state_after_assign.
Qed.

Lemma steady_state_lifecycle frameState commandList w :
  lifecycle (steady_state frameState commandList w).2 = lifecycle w.
Proof.
  pose proof (steady_state_steady frameState commandList w) as H.
  unfold lifecycle. f_equal.
  - exact (f_equal sf_state H).
  - exact (f_equal sf_callbacks H).
Qed.

(** What one update does to the state and to the callbacks. *)
Lemma update_lifecycle taskProcessor frameState commandList w :
  let w' := (update taskProcessor frameState commandList w).2 in
  lifecycle w' = lifecycle w
  \/ (state (this w) = READY /\ state (this w') = COMBINING
      /\ exists promise, callbacks w' = callbacks w ++ [promise])
  \/ (state (this w) = COMBINED /\ state (this w') = COMPLETE
      /\ callbacks w' = callbacks w).
Proof.
  cbv zeta.
  destruct (early_exit (this w) frameState) eqn:Hexit.
  { rewrite (update_when_early_exit taskProcessor commandList Hexit). left. reflexivity. }
  destruct (state (this w)) eqn:Hstate.
  - (* READY *)
    destruct (geometryInstances (this w)) as [geometryInstances0|] eqn:Hgi.
    + rewrite (update_READY taskProcessor commandList Hstate Hexit Hgi).
      destruct (scheduled taskProcessor frameState geometryInstances0 w) as [promise|].
      * right. left. split; [reflexivity|]. split; [reflexivity|].
        exists promise. reflexivity.
      * left. reflexivity.
    + rewrite (update_READY_undefined taskProcessor commandList Hstate Hexit Hgi).
      left. reflexivity.
  - (* COMBINING *)
    rewrite (update_waiting taskProcessor frameState commandList (or_introl Hstate)).
    left. reflexivity.
  - (* COMBINED *)
    pose proof (COMBINED_branch_state_after frameState w) as Hbranch.
    assert (Hupdate : update taskProcessor frameState commandList w
                      = match COMBINED_branch frameState w with
                        | (Return _, w1) => steady_state frameState commandList w1
                        | (Throw e, w1) => (Throw e, w1)
                        end).
    { unfold update. run_step. rewrite Hexit, Hstate.
      unfold bind at 1. unfold bind at 1.
      destruct (COMBINED_branch frameState w) as [[[]|e] w1]; [|reflexivity].
      unfold ret at 1. cbv beta iota. run_step.
      assert (Hs : state (this w1) = COMPLETE) by exact (f_equal fst Hbranch).
      rewrite Hs. reflexivity. }
    rewrite Hupdate.
    destruct (COMBINED_branch frameState w) as [[[]|e] w1].
    + right. right. split; [reflexivity|].
      pose proof (steady_state_lifecycle frameState commandList w1) as Hkeep.
      rewrite Hbranch in Hkeep.
      split; [exact (f_equal fst Hkeep) | exact (f_equal snd Hkeep)].
    + left. exact Hbranch.
  - (* COMPLETE *)
    assert (Hupdate : update taskProcessor frameState commandList w
                      = steady_state frameState commandList w).
    { unfold update. run_step. rewrite Hexit, Hstate. cbv beta iota.
      run_step. cbv beta iota. run_step. rewrite Hstate. reflexivity. }
    rewrite Hupdate. left. apply steady_state_lifecycle.
  - (* FAILED *)
    rewrite (update_waiting taskProcessor frameState commandList (or_intror Hstate)).
    left. reflexivity.
Qed.

Lemma store_record_lifecycle ref record w :
  lifecycle (set_this (store_record ref record (this w)) w) = lifecycle w.
Proof.
  pose proof (store_record_steady ref record w) as H.
  pose proof (f_equal sf_state H) as Hs. pose proof (f_equal sf_callbacks H) as Hc.
  cbn [steady_fields sf_state sf_callbacks] in Hs, Hc.
  unfold lifecycle. rewrite Hs, Hc. reflexivity.
Qed.

Lemma getGeometryInstanceAttributes_lifecycle id :
  keeps lifecycle (getGeometryInstanceAttributes id).
Proof.
  unfold getGeometryInstanceAttributes.
  repeat first [ apply keeps_assign; intros ?; reflexivity | keeps_step ].
Qed.

Lemma createGetFunction_lifecycle name perInstanceAttributes :
  keeps lifecycle (createGetFunction name perInstanceAttributes).
Proof. unfold createGetFunction. repeat keeps_step. Qed.

Lemma createSetFunction_lifecycle name perInstanceAttributes value :
  keeps lifecycle (createSetFunction name perInstanceAttributes value).
Proof.
  unfold createSetFunction.
  repeat first
    [ apply keeps_assign; intros ?; apply store_record_lifecycle
    | apply keeps_assign; intros ?; reflexivity
    | keeps_step ].
Qed.

Lemma settle_lifecycle promise callback w :
  awaiting w ->
  settle promise callback w = w
  \/ (state (this w) = COMBINING
      /\ this (settle promise callback w) = callback (this w)
      /\ callbacks (settle promise callback w) = []).
Proof.
  intros Hawait. unfold settle.
  destruct (bool_decide (promise ∈ callbacks w)) eqn:Hin; [|left; reflexivity].
  apply bool_decide_eq_true in Hin.
  destruct Hawait as [Hnone | (promise' & Hone & Hstate)].
  - rewrite Hnone in Hin. inversion Hin.
  - right. split; [exact Hstate|]. split; [reflexivity|].
    rewrite Hone in Hin. apply list_elem_of_singleton in Hin. subst promise'.
    cbn [set_callbacks callbacks]. rewrite Hone, filter_cons, filter_nil.
    destruct (decide (promise <> promise)) as [Hne|_]; [|reflexivity].
    exfalso. apply Hne. reflexivity.
Qed.

Lemma awaiting_lifecycle w w' : lifecycle w' = lifecycle w -> awaiting w -> awaiting w'.
Proof.
  intros H. pose proof (f_equal fst H) as Hs. pose proof (f_equal snd H) as Hc.
  simpl in Hs, Hc. unfold awaiting. rewrite Hs, Hc. auto.
Qed.

Lemma perform_awaiting op w : awaiting w -> awaiting (perform op w).
Proof.
  intros Hawait. destruct op as [tp fs cl|id|name i|name i value| |promise result|promise];
    cbn [perform].
  - destruct (update_lifecycle tp fs cl w)
      as [Hsame | [(Hready & Hcombining & promise & Hcb) | (Hcombined & Hcomplete & Hcb)]].
    + exact (awaiting_lifecycle Hsame Hawait).
    + right. exists promise. split; [|exact Hcombining].
      rewrite Hcb. destruct Hawait as [-> | (q & _ & Hq)]; [reflexivity | congruence].
    + left. rewrite Hcb. destruct Hawait as [-> | (q & _ & Hq)]; [reflexivity | congruence].
  - exact (awaiting_lifecycle (getGeometryInstanceAttributes_lifecycle id w) Hawait).
  - exact (awaiting_lifecycle (createGetFunction_lifecycle name i w) Hawait).
  - exact (awaiting_lifecycle (createSetFunction_lifecycle name i value w) Hawait).
  - exact Hawait.
  - destruct (settle_lifecycle promise (on_combined result) Hawait) as [-> | (_ & _ & Hcb)];
      [exact Hawait | left; exact Hcb].
  - destruct (settle_lifecycle promise on_failed Hawait) as [-> | (_ & _ & Hcb)];
      [exact Hawait | left; exact Hcb].
Qed.

Lemma reachable_awaiting w : reachable w -> awaiting w.
Proof.
  induction 1 as [options c | op w _ IH].
  - left. reflexivity.
  - apply perform_awaiting. exact IH.
Qed.

Lemma transition_same op w w' :
  lifecycle w' = lifecycle w -> transition op (state (this w)) (state (this w')).
Proof.
  intros H. pose proof (f_equal fst H) as Hs. simpl in Hs. rewrite Hs. constructor.
Qed.

(** C1. From every world a primitive can be in, an operation leaves the
    state where it is or takes one of four edges: READY to COMBINING when
    [update] dispatched the combine task, COMBINING to COMBINED when the
    promise resolved, COMBINING to FAILED when it was rejected, COMBINED to
    COMPLETE on an [update].  No operation leaves FAILED, and an [update] of
    a FAILED primitive returns without throwing and changes neither the
    primitive, nor the context, nor the command list. *)
Theorem state_machine (w : World) (op : Operation) :
  reachable w ->
  transition op (state (this w)) (state (this (perform op w)))
  /\ (state (this w) = FAILED -> state (this (perform op w)) = FAILED)
  /\ (state (this w) = FAILED ->
      forall taskProcessor frameState commandList,
        update taskProcessor frameState commandList w = (Return commandList, w)).
Proof.
  intros Hreach. pose proof (reachable_awaiting Hreach) as Hawait.
  assert (Hedge : transition op (state (this w)) (state (this (perform op w)))).
  { destruct op as [tp fs cl|id|name i|name i value| |promise result|promise];
      cbn [perform].
    - destruct (update_lifecycle tp fs cl w)
        as [Hsame | [(Hready & Hcombining & _) | (Hcombined & Hcomplete & _)]].
      + exact (transition_same _ Hsame).
      + rewrite Hready, Hcombining. constructor.
      + rewrite Hcombined, Hcomplete. constructor.
    - exact (transition_same _ (getGeometryInstanceAttributes_lifecycle id w)).
    - exact (transition_same _ (createGetFunction_lifecycle name i w)).
    - exact (transition_same _ (createSetFunction_lifecycle name i value w)).
    - constructor.
    - destruct (settle_lifecycle promise (on_combined result) Hawait)
        as [-> | (Hstate & Hthis & _)]; [constructor|].
      rewrite Hstate, Hthis. constructor.
    - destruct (settle_lifecycle promise on_failed Hawait)
        as [-> | (Hstate & Hthis & _)]; [constructor|].
      rewrite Hstate, Hthis. constructor. }
  split; [exact Hedge|]. split.
  - intros Hfailed. rewrite Hfailed in Hedge. inversion Hedge; reflexivity.
  - intros Hfailed taskProcessor frameState commandList.
    apply update_waiting. right. exact Hfailed.
Qed.

Lemma state_machine_witness :
  reachable Sample.w_failed
  /\ state (this Sample.w_failed) = FAILED
  /\ update Sample.accept (Sample.frameState SCENE3D) [] Sample.w_failed
     = (Return [], Sample.w_failed).
Proof.
  assert (H : reachable Sample.w_failed).
  { unfold Sample.w_failed, Sample.w1. repeat apply reachable_perform.
    apply reachable_new. }
  assert (Hfailed : state (this Sample.w_failed) = FAILED) by (vm_compute; reflexivity).
  split; [exact H|]. split; [exact Hfailed|].
  destruct (state_machine call_isDestroyed H) as (_ & _ & Hinert).
  exact (Hinert Hfailed Sample.accept (Sample.frameState SCENE3D) []).
Defined.

(** ** Querying attributes before the combine result arrived *)

Lemma update_before_combine taskProcessor frameState commandList w :
  before_combine (state (this w)) ->
  _perInstanceAttributes (this (update taskProcessor frameState commandList w).2)
  = _perInstanceAttributes (this w).
Proof.
  intros Hbefore.
  destruct (early_exit (this w) frameState) eqn:Hexit.
  { rewrite (update_when_early_exit taskProcessor commandList Hexit). reflexivity. }
  destruct Hbefore as [Hstate | Hstate].
  - destruct (geometryInstances (this w)) as [geometryInstances0|] eqn:Hgi.
    + rewrite (update_READY taskProcessor commandList Hstate Hexit Hgi).
      destruct (scheduled taskProcessor frameState geometryInstances0 w); reflexivity.
    + rewrite (update_READY_undefined taskProcessor commandList Hstate Hexit Hgi).
      reflexivity.
  - rewrite (update_waiting taskProcessor frameState commandList Hstate). reflexivity.
Qed.

Lemma getGeometryInstanceAttributes_table id :
  keeps (fun w => _perInstanceAttributes (this w)) (getGeometryInstanceAttributes id).
Proof.
  unfold getGeometryInstanceAttributes.
  repeat first [ apply keeps_assign; intros ?; reflexivity | keeps_step ].
Qed.

Lemma createSetFunction_unpopulated name perInstanceAttributes value w :
  unpopulated w -> (createSetFunction name perInstanceAttributes value w).2 = w.
Proof.
  intros Hempty. unfold createSetFunction.
  destruct value as [| | |elements]; try reflexivity.
  destruct ((length elements <? 1) || (4 <? length elements)); [reflexivity|].
  assert (Hnone : lookup_record (perInstanceAttributes, name) (this w) = None).
  { unfold lookup_record. rewrite Hempty. reflexivity. }
  unfold bind at 1. unfold get at 1. rewrite Hnone. reflexivity.
Qed.

Lemma createGetFunction_pure name perInstanceAttributes w :
  (createGetFunction name perInstanceAttributes w).2 = w.
Proof.
  unfold createGetFunction, bind, get, defined, ret, throw.
  destruct (lookup_record (perInstanceAttributes, name) (this w)); reflexivity.
Qed.

Lemma perform_unpopulated op w :
  awaiting w ->
  (before_combine (state (this w)) -> unpopulated w) ->
  before_combine (state (this (perform op w))) -> unpopulated (perform op w).
Proof.
  intros Hawait Hinv.
  destruct op as [tp fs cl|id|name i|name i value| |promise result|promise];
    cbn [perform]; unfold unpopulated.
  - destruct (update_lifecycle tp fs cl w)
      as [Hsame | [(Hready & _) | (_ & Hcomplete & _)]].
    + pose proof (f_equal fst Hsame) as Hs. simpl in Hs. rewrite Hs. intros Hbefore.
      rewrite (update_before_combine tp fs cl Hbefore). exact (Hinv Hbefore).
    + intros _. assert (Hbefore : before_combine (state (this w))) by (left; exact Hready).
      rewrite (update_before_combine tp fs cl Hbefore). exact (Hinv Hbefore).
    + rewrite Hcomplete. intros [H | [H | H]]; discriminate H.
  - pose proof (f_equal fst (getGeometryInstanceAttributes_lifecycle id w)) as Hs.
    simpl in Hs. rewrite Hs. intros Hbefore.
    rewrite (getGeometryInstanceAttributes_table id w). exact (Hinv Hbefore).
  - rewrite createGetFunction_pure. exact Hinv.
  - pose proof (f_equal fst (createSetFunction_lifecycle name i value w)) as Hs.
    simpl in Hs. rewrite Hs. intros Hbefore.
    rewrite (createSetFunction_unpopulated name i value (Hinv Hbefore)).
    exact (Hinv Hbefore).
  - exact Hinv.
  - destruct (settle_lifecycle promise (on_combined result) Hawait)
      as [-> | (_ & Hthis & _)]; [exact Hinv|].
    rewrite Hthis. intros [H | [H | H]]; discriminate H.
  - destruct (settle_lifecycle promise on_failed Hawait)
      as [-> | (Hstate & Hthis & _)]; [exact Hinv|].
    rewrite Hthis. intros _. apply Hinv. right. left. exact Hstate.
Qed.

Lemma reachable_unpopulated w :
  reachable w -> before_combine (state (this w)) -> unpopulated w.
Proof.
  induction 1 as [options c | op w Hreach IH].
  - intros _. reflexivity.
  - apply perform_unpopulated; [exact (reachable_awaiting Hreach) | exact IH].
Qed.

(** C3. What the code does: as long as no combine result has reached the
    primitive, [getGeometryInstanceAttributes] with a defined id does not
    throw the DeveloperError announced for that case.  The test for it looks
    for an undefined [_perInstanceAttributes], but the constructor installs
    an empty object there, so the call goes on to read the length of the
    missing [ids] and ends in a TypeError. *)
Theorem getGeometryInstanceAttributes_before_combine (w : World) (id : Id) :
  reachable w ->
  before_combine (state (this w)) ->
  id <> IdUndefined ->
  getGeometryInstanceAttributes id w = (Throw TypeError, w).
Proof.
  intros Hreach Hbefore Hid.
  pose proof (reachable_unpopulated Hreach Hbefore) as Hempty.
  unfold getGeometryInstanceAttributes.
  destruct (decide (id = IdUndefined)) as [E|_]; [contradiction|].
  unfold bind at 1. unfold get at 1. rewrite Hempty. reflexivity.
Qed.

Lemma getGeometryInstanceAttributes_before_combine_witness :
  reachable Sample.w0
  /\ before_combine (state (this Sample.w0))
  /\ IdString "an id" <> IdUndefined
  /\ getGeometryInstanceAttributes (IdString "an id") Sample.w0 = (Throw TypeError, Sample.w0).
Proof.
  assert (H1 : reachable Sample.w0) by apply reachable_new.
  assert (H2 : before_combine (state (this Sample.w0))) by (left; reflexivity).
  assert (H3 : IdString "an id" <> IdUndefined) by discriminate.
  split; [exact H1|]. split; [exact H2|]. split; [exact H3|].
  exact (getGeometryInstanceAttributes_before_combine H1 H2 H3).
Defined.

(** ** Flushing the dirty attributes *)

Lemma replicated_S value componentsPerAttribute k :
  replicated value componentsPerAttribute (S k)
  = replicated value componentsPerAttribute k ++ slot value componentsPerAttribute.
Proof.
  unfold replicated.
  replace (S k) with (k + 1) by lia.
  rewrite repeat_app, concat_app. simpl. rewrite app_nil_r. reflexivity.
Qed.

Lemma length_slot value componentsPerAttribute :
  length value <= componentsPerAttribute ->
  length (slot value componentsPerAttribute) = componentsPerAttribute.
Proof. intros H. unfold slot. rewrite length_app, repeat_length. lia. Qed.

Lemma length_replicated value componentsPerAttribute k :
  length value <= componentsPerAttribute ->
  length (replicated value componentsPerAttribute k) = k * componentsPerAttribute.
Proof.
  intros H. induction k as [|k IH]; [reflexivity|].
  rewrite replicated_S, length_app, IH, length_slot by exact H. lia.
Qed.

Lemma drop_repeat {A} (x : A) n m : drop n (repeat x m) = repeat x (m - n).
Proof.
  revert n. induction m as [|m IH]; intros [|n]; simpl; try reflexivity. apply IH.
Qed.

Lemma fill_from_replicated componentDatatype value componentsPerAttribute remaining :
  forall k,
  length value <= componentsPerAttribute ->
  fill_from componentDatatype k remaining componentsPerAttribute value
    (replicated (toElement componentDatatype <$> value) componentsPerAttribute k
     ++ repeat 0%Z (remaining * componentsPerAttribute))
  = Return (replicated (toElement componentDatatype <$> value) componentsPerAttribute
              (k + remaining)).
Proof.
  set (stored := toElement componentDatatype <$> value).
  assert (Hstored : length stored = length value) by apply length_fmap.
  induction remaining as [|remaining IH]; intros k Hfit; simpl.
  - rewrite app_nil_r, Nat.add_0_r. reflexivity.
  - unfold typedArray_set. fold stored.
    assert (Hfit' : length stored <= componentsPerAttribute) by lia.
    pose proof (length_replicated k Hfit') as Hlen.
    rewrite length_app, Hlen, repeat_length.
    destruct (k * componentsPerAttribute
              + (componentsPerAttribute + remaining * componentsPerAttribute)
              <? k * componentsPerAttribute + length value) eqn:E;
      [apply Nat.ltb_lt in E; lia|].
    rewrite take_app_length' by (symmetry; exact Hlen).
    rewrite drop_app_ge by lia.
    rewrite Hlen.
    replace (k * componentsPerAttribute + length value - k * componentsPerAttribute)
      with (length value) by lia.
    rewrite repeat_app, drop_app_le by (rewrite repeat_length; lia).
    rewrite drop_repeat.
    replace (replicated stored componentsPerAttribute k
             ++ stored
             ++ repeat 0%Z (componentsPerAttribute - length value)
             ++ repeat 0%Z (remaining * componentsPerAttribute))
      with (replicated stored componentsPerAttribute (S k)
            ++ repeat 0%Z (remaining * componentsPerAttribute)).
    + rewrite IH by exact Hfit. f_equal. f_equal. lia.
    + rewrite replicated_S. unfold slot. rewrite Hstored, <- !app_assoc. reflexivity.
Qed.

Lemma fill_whole componentDatatype value componentsPerAttribute count :
  (count =? 0) || (length value <=? componentsPerAttribute) = true ->
  fill_from componentDatatype 0 count componentsPerAttribute value
    (createTypedArray componentDatatype (count * componentsPerAttribute))
  = Return (replicated (toElement componentDatatype <$> value) componentsPerAttribute
              count).
Proof.
  intros H. apply orb_true_iff in H as [H|H].
  - apply Nat.eqb_eq in H. subst count. reflexivity.
  - apply Nat.leb_le in H.
    exact (fill_from_replicated componentDatatype count 0 H).
Qed.

(** What the typed arrays make of numbers beyond their element types. *)
Lemma stored_examples :
  stored Uint8Array 256 = 0%Z
  /\ stored Int8Array 255 = (-1)%Z
  /\ stored Uint16Array (-1) = 65535%Z
  /\ stored Float32Array 16777217 = 16777216%Z
  /\ stored Float32Array 16777219 = 16777220%Z
  /\ stored Float32Array (-16777217) = (-16777216)%Z
  /\ stored Float32Array 16777216 = 16777216%Z.
Proof. repeat split; reflexivity. Qed.

Lemma flush_range_run value index w c :
  range_write (this w) value index = Some c ->
  flush_range value index w = (Return tt, set_context (log_call c (context w)) w).
Proof.
  unfold range_write, flush_range. intros H.
  unfold bind at 1. unfold get at 1.
  destruct (lookup_vaAttribute (ir_attribute index) (this w)) as [vaAttribute|];
    [|discriminate].
  destruct (vaa_vertexBuffer vaAttribute) as [vertexBuffer|] eqn:Hbuffer; [|discriminate].
  destruct ((ir_count index =? 0)
            || (length value <=? vaa_componentsPerAttribute vaAttribute)) eqn:Hfit;
    [|discriminate].
  injection H as <-.
  unfold defined at 1. run_step.
  unfold lift. unfold bind at 1.
  rewrite (fill_whole (vaa_componentDatatype vaAttribute) Hfit).
  rewrite Hbuffer. reflexivity.
Qed.

Lemma range_writes_context p value indices :
  forall p', _vaAttributes p' = _vaAttributes p ->
             range_writes p' value indices = range_writes p value indices.
Proof.
  intros p' H. induction indices as [|index rest IH]; simpl; [reflexivity|].
  rewrite IH. unfold range_write, lookup_vaAttribute. rewrite H. reflexivity.
Qed.

Lemma flush_ranges_run value indices : forall i w writes,
  range_writes (this w) value indices = Some writes ->
  for_each_from i indices (fun _ index => flush_range value index) w
  = (Return tt, set_context (log_calls writes (context w)) w).
Proof.
  induction indices as [|index rest IH]; intros i w writes; simpl.
  - intros [= <-]. unfold ret. rewrite log_calls_nil. destruct w; reflexivity.
  - destruct (range_write (this w) value index) as [c|] eqn:Hc; [|discriminate].
    destruct (range_writes (this w) value rest) as [cs|] eqn:Hcs; [|discriminate].
    intros [= <-].
    erewrite bind_Return by exact (flush_range_run Hc). cbv beta.
    rewrite (IH (S i) _ cs) by exact Hcs.
    f_equal. unfold set_context, log_calls, log_call. simpl.
    rewrite <- app_assoc. reflexivity.
Qed.

(** Flushing one queue entry: its writes are made and the record is
    clean. *)
Lemma flush_attribute_run ref w record writes :
  lookup_record ref (this w) = Some record ->
  range_writes (this w) (ar_value record) (ar_indices record) = Some writes ->
  flush_attribute ref w
  = (Return tt,
     {| this := store_record ref (set_ar_dirty false record) (this w);
        context := log_calls writes (context w);
        callbacks := callbacks w |}).
Proof.
  intros Hrecord Hwrites. unfold flush_attribute.
  run_step. rewrite Hrecord. run_step.
  unfold for_each. erewrite bind_Return by exact (flush_ranges_run 0 Hwrites).
  cbv beta. reflexivity.
Qed.

Lemma store_record_table ref record p :
  exists table, store_record ref record p = set__perInstanceAttributes table p.
Proof.
  unfold store_record.
  destruct (_perInstanceAttributes p) as [table|] eqn:Ht.
  - destruct (pia_indices table) as [indices|] eqn:Hi.
    + destruct (indices !! ref.1); [eexists; reflexivity|].
      exists (Some table). destruct p; simpl in *; subst; reflexivity.
    + exists (Some table). destruct p; simpl in *; subst; reflexivity.
  - exists None. destruct p; simpl in *; subst; reflexivity.
Qed.

Lemma queue_writes_store ref record p queue :
  lookup_record ref p = Some record ->
  queue_writes (store_record ref (set_ar_dirty false record) p) queue
  = queue_writes p queue.
Proof.
  intros Hrecord.
  assert (Hsome : is_Some (lookup_record ref p)) by (rewrite Hrecord; eauto).
  destruct (store_record_table ref (set_ar_dirty false record) p) as [table Htable].
  induction queue as [|ref' rest IH]; simpl; [reflexivity|].
  rewrite IH, (lookup_store_record _ _ Hsome).
  destruct (decide (ref' = ref)) as [->|Hne].
  - rewrite Hrecord. simpl.
    rewrite (range_writes_context (p := p)) by (rewrite Htable; reflexivity).
    reflexivity.
  - destruct (lookup_record ref' p) as [record'|]; [|reflexivity].
    rewrite (range_writes_context (p := p)) by (rewrite Htable; reflexivity).
    reflexivity.
Qed.

(** Flushing a whole queue: the writes of its entries are made in order,
    every record it names is clean afterwards, and nothing else changes. *)
Lemma flush_queue_run queue : forall i w writes,
  queue_writes (this w) queue = Some writes ->
  exists table,
    for_each_from i queue (fun _ ref => flush_attribute ref) w
    = (Return tt,
       {| this := set__perInstanceAttributes table (this w);
          context := log_calls writes (context w);
          callbacks := callbacks w |})
    /\ forall ref,
         lookup_record ref (set__perInstanceAttributes table (this w))
         = if decide (ref ∈ queue)
           then set_ar_dirty false <$> lookup_record ref (this w)
           else lookup_record ref (this w).
Proof.
  induction queue as [|ref0 rest IH]; intros i w writes; simpl.
  - intros [= <-]. exists (_perInstanceAttributes (this w)). split.
    + unfold ret. rewrite log_calls_nil. f_equal. destruct w as [p c cb]. simpl. f_equal.
      destruct p; reflexivity.
    + intros ref. destruct (this w); reflexivity.
  - destruct (lookup_record ref0 (this w)) as [record|] eqn:Hrecord; [|discriminate].
    destruct (range_writes (this w) (ar_value record) (ar_indices record)) as [cs|] eqn:Hcs;
      [|discriminate].
    destruct (queue_writes (this w) rest) as [ds|] eqn:Hds; [|discriminate].
    intros [= <-].
    erewrite bind_Return by exact (flush_attribute_run Hrecord Hcs). cbv beta.
    set (w1 := {| this := store_record ref0 (set_ar_dirty false record) (this w);
                  context := log_calls cs (context w);
                  callbacks := callbacks w |}).
    assert (Hds1 : queue_writes (this w1) rest = Some ds).
    { unfold w1. cbn [this]. rewrite (queue_writes_store rest Hrecord). exact Hds. }
    destruct (IH (S i) w1 ds Hds1) as (table & Hrun & Hlookup).
    destruct (store_record_table ref0 (set_ar_dirty false record) (this w))
      as [table1 Htable1].
    exists table. split.
    + rewrite Hrun. f_equal. unfold w1. cbn [this context callbacks].
      rewrite Htable1. f_equal.
      unfold log_calls. simpl. rewrite <- app_assoc. reflexivity.
    + intros ref.
      assert (Hsome : is_Some (lookup_record ref0 (this w))) by (rewrite Hrecord; eauto).
      specialize (Hlookup ref). unfold w1 in Hlookup. cbn [this] in Hlookup.
      rewrite Htable1 in Hlookup.
      change (set__perInstanceAttributes table (set__perInstanceAttributes table1 (this w)))
        with (set__perInstanceAttributes table (this w)) in Hlookup.
      rewrite Hlookup. rewrite <- Htable1.
      rewrite (lookup_store_record _ _ Hsome).
      destruct (decide (ref = ref0)) as [->|Hne].
      * rewrite Hrecord.
        destruct (decide (ref0 ∈ ref0 :: rest)) as [_|Hnot];
          [|exfalso; apply Hnot, elem_of_cons; auto].
        destruct (decide (ref0 ∈ rest)); reflexivity.
      * destruct (decide (ref ∈ rest)) as [Hin|Hnot];
          destruct (decide (ref ∈ ref0 :: rest)) as [Hin'|Hnot']; try reflexivity.
        -- exfalso. apply Hnot', elem_of_cons. auto.
        -- exfalso. apply elem_of_cons in Hin' as [H|H]; contradiction.
Qed.

Lemma update_perInstanceAttributes_run w writes :
  queue_writes (this w) (_dirtyAttributes (this w)) = Some writes ->
  exists table,
    update_perInstanceAttributes w
    = (Return tt,
       {| this := set__dirtyAttributes [] (set__perInstanceAttributes table (this w));
          context := log_calls writes (context w);
          callbacks := callbacks w |})
    /\ forall ref,
         lookup_record ref (set__perInstanceAttributes table (this w))
         = if decide (ref ∈ _dirtyAttributes (this w))
           then set_ar_dirty false <$> lookup_record ref (this w)
           else lookup_record ref (this w).
Proof.
  intros Hwrites. unfold update_perInstanceAttributes. run_step.
  destruct (_dirtyAttributes (this w)) as [|ref rest] eqn:Hqueue.
  - simpl in Hwrites. injection Hwrites as <-.
    exists (_perInstanceAttributes (this w)). split.
    + simpl. unfold ret. rewrite log_calls_nil. f_equal.
      destruct w as [p c cb]. simpl in *. f_equal. destruct p; simpl in *; subst.
      reflexivity.
    + intros ref. destruct (this w); reflexivity.
  - destruct (flush_queue_run 0 Hwrites) as (table & Hrun & Hlookup).
    exists table. split; [|exact Hlookup].
    change (0 <? length (ref :: rest)) with true. cbv iota.
    unfold for_each. erewrite bind_Return by exact Hrun. reflexivity.
Qed.

Lemma update_appearance_unchanged w a :
  appearance (this w) = Some a ->
  _appearance (this w) = Some (ap_identity a) ->
  _material (this w) = (mat_identity <$> ap_material a) ->
  update_appearance w = (Return tt, w).
Proof.
  intros Ha Hsame Hmaterial. unfold update_appearance.
  run_step. rewrite Ha. run_step. run_step.
  rewrite (bool_decide_eq_true_2 _ Hsame), (bool_decide_eq_true_2 _ Hmaterial).
  cbn [negb]. run_step. cbn [orb]. reflexivity.
Qed.



(** ** Coalescing of attribute assignments *)

Lemma store_record_beyond_attributes ref record w :
  beyond_attributes (set_this (store_record ref record (this w)) w) = beyond_attributes w.
Proof.
  destruct (store_record_table ref record (this w)) as [table ->]. reflexivity.
Qed.

Lemma createSetFunction_beyond_attributes name perInstanceAttributes value :
  keeps beyond_attributes (createSetFunction name perInstanceAttributes value).
Proof.
  unfold createSetFunction.
  repeat first
    [ apply keeps_assign; intros ?; apply store_record_beyond_attributes
    | apply keeps_assign; intros ?; reflexivity
    | keeps_step ].
Qed.


Lemma lookup_record_ext ref p p' :
  _perInstanceAttributes p' = _perInstanceAttributes p ->
  lookup_record ref p' = lookup_record ref p.
Proof. intros H. unfold lookup_record. rewrite H. reflexivity. Qed.

Lemma queue_writes_ext p p' queue :
  _vaAttributes p' = _vaAttributes p ->
  (forall ref, ref ∈ queue -> lookup_record ref p' = lookup_record ref p) ->
  queue_writes p' queue = queue_writes p queue.
Proof.
  intros Hva. induction queue as [|ref rest IH]; intros Hsame; simpl; [reflexivity|].
  rewrite (Hsame ref) by (apply elem_of_cons; auto).
  rewrite IH by (intros r Hr; apply Hsame, elem_of_cons; auto).
  destruct (lookup_record ref p) as [record|]; [|reflexivity].
  rewrite (range_writes_context (p := p) _ _ Hva). reflexivity.
Qed.







(** * Further properties *)

(** ** The loops over the commands *)

Lemma altered_from_all {A} (f : A -> A) k : forall i (l : list A),
  i + k = length l -> altered_from i k f l = take i l ++ (f <$> drop i l).
Proof.
  induction k as [|k IH]; intros i l Hlen; simpl.
  - rewrite drop_ge by lia. simpl. rewrite app_nil_r, take_ge by lia. reflexivity.
  - destruct (l !! i) as [x|] eqn:Hx; [|apply lookup_ge_None in Hx; lia].
    pose proof (lookup_lt_Some _ _ _ Hx) as Hlt.
    rewrite IH by (rewrite length_insert; lia).
    rewrite (take_S_r _ _ (f x)) by (apply list_lookup_insert_eq; exact Hlt).
    rewrite take_insert_ge, drop_insert_lt by lia.
    rewrite (drop_S l x i Hx). simpl. rewrite <- app_assoc. reflexivity.
Qed.

Lemma altered_from_fmap {A} (f : A -> A) (l : list A) :
  altered_from 0 (length l) f l = f <$> l.
Proof. rewrite altered_from_all by reflexivity. reflexivity. Qed.

Lemma length_altered_from {A} (f : A -> A) k : forall i (l : list A),
  length (altered_from i k f l) = length l.
Proof.
  induction k as [|k IH]; intros i l; simpl; [reflexivity|].
  destruct (l !! i); [|reflexivity]. rewrite IH, length_insert. reflexivity.
Qed.

Lemma with_commands_same w :
  with_commands (colorList (_commandLists (this w))) (pickList (_commandLists (this w))) w
  = w.
Proof.
  destruct w as [p c cb]. unfold with_commands, set_this. simpl. f_equal.
  destruct p as [? ? ? ? ? ? ? ? ? ? ? ? ? ? ? ? ? ? ? ? ? ? ? cl ?]. destruct cl. reflexivity.
Qed.

Lemma modify_colorCommand_run i f w c :
  colorList (_commandLists (this w)) !! i = Some c ->
  modify_colorCommand i f w
  = (Return tt,
     with_commands (<[i := f c]> (colorList (_commandLists (this w))))
       (pickList (_commandLists (this w))) w).
Proof.
  intros H. unfold modify_colorCommand. run_step. rewrite H. run_step. reflexivity.
Qed.

Lemma modify_pickCommand_run i f w c :
  pickList (_commandLists (this w)) !! i = Some c ->
  modify_pickCommand i f w
  = (Return tt,
     with_commands (colorList (_commandLists (this w)))
       (<[i := f c]> (pickList (_commandLists (this w)))) w).
Proof.
  intros H. unfold modify_pickCommand. run_step. rewrite H. run_step. reflexivity.
Qed.

Section CommandLoop.

Variables (body : nat -> M unit) (fc fp : DrawCommand -> DrawCommand).

Hypothesis body_run : forall i w c p,
  colorList (_commandLists (this w)) !! i = Some c ->
  pickList (_commandLists (this w)) !! i = Some p ->
  body i w
  = (Return tt,
     with_commands (<[i := fc c]> (colorList (_commandLists (this w))))
       (<[i := fp p]> (pickList (_commandLists (this w)))) w).

Lemma command_loop_from k : forall i j w,
  i + k <= length (colorList (_commandLists (this w))) ->
  i + k <= length (pickList (_commandLists (this w))) ->
  for_each_from j (seq i k) (fun _ i => body i) w
  = (Return tt,
     with_commands (altered_from i k fc (colorList (_commandLists (this w))))
       (altered_from i k fp (pickList (_commandLists (this w)))) w).
Proof.
  induction k as [|k IH]; intros i j w Hc Hp; simpl.
  - unfold ret. rewrite with_commands_same. reflexivity.
  - destruct (colorList (_commandLists (this w)) !! i) as [c|] eqn:Ec;
      [|apply lookup_ge_None in Ec; lia].
    destruct (pickList (_commandLists (this w)) !! i) as [p|] eqn:Ep;
      [|apply lookup_ge_None in Ep; lia].
    erewrite bind_Return by exact (body_run Ec Ep). cbv beta.
    rewrite IH.
    + reflexivity.
    + cbn. rewrite length_insert. lia.
    + cbn. rewrite length_insert. lia.
Qed.

Lemma command_loop_run w :
  commands_paired w ->
  for_range (length (colorList (_commandLists (this w)))) body w
  = (Return tt,
     with_commands (fc <$> colorList (_commandLists (this w)))
       (fp <$> pickList (_commandLists (this w))) w).
Proof.
  intros Hpaired. unfold commands_paired in Hpaired. unfold for_range, for_each.
  rewrite command_loop_from by lia.
  rewrite altered_from_fmap. rewrite Hpaired. rewrite altered_from_fmap.
  reflexivity.
Qed.

End CommandLoop.

(** ** Looking an instance up twice *)

Lemma search_from_first lastIndex length (id : Id) (ids : list Id) remaining :
  forall i index,
  search_from i remaining lastIndex length id ids = Some index ->
  exists k, i <= k < i + remaining
            /\ index = (lastIndex + k) mod length
            /\ ids !! index = Some id
            /\ forall j, i <= j < k -> ids !! ((lastIndex + j) mod length) <> Some id.
Proof.
  induction remaining as [|remaining IH]; intros i index; simpl; [discriminate|].
  destruct (decide (ids !! ((lastIndex + i) mod length) = Some id)) as [E|E].
  - intros [= <-]. exists i. split; [lia|]. split; [reflexivity|]. split; [exact E|].
    intros j Hj. lia.
  - intros H. destruct (IH _ _ H) as (k & Hk & Hindex & Hid & Hfirst).
    exists k. split; [lia|]. split; [exact Hindex|]. split; [exact Hid|].
    intros j Hj. destruct (decide (j = i)) as [->|Hne]; [exact E|].
    apply Hfirst. lia.
Qed.

Lemma getGeometryInstanceAttributes_found id w accessors w1 :
  getGeometryInstanceAttributes id w = (Return (Some accessors), w1) ->
  exists table ids indices,
    id <> IdUndefined
    /\ _perInstanceAttributes (this w) = Some table
    /\ pia_ids table = Some ids
    /\ pia_indices table = Some indices
    /\ search_from 0 (length ids) (_lastPerInstanceAttributeIndex (this w)) (length ids)
         id ids = Some (acc_perInstanceAttributes accessors)
    /\ acc_names accessors
       = match indices !! acc_perInstanceAttributes accessors with
         | Some perInstanceAttributes => (map_to_list perInstanceAttributes).*1
         | None => []
         end
    /\ w1 = set_this (set__lastPerInstanceAttributeIndex
                        (acc_perInstanceAttributes accessors) (this w)) w.
Proof.
  unfold getGeometryInstanceAttributes.
  destruct (decide (id = IdUndefined)) as [E|Hid]; [discriminate|].
  unfold bind, get, defined, assign, ret, throw.
  destruct (_perInstanceAttributes (this w)) as [table|] eqn:Ht; [|discriminate].
  destruct (pia_ids table) as [ids|] eqn:Hids; simpl; [|discriminate].
  destruct (search_from 0 (length ids) (_lastPerInstanceAttributeIndex (this w))
              (length ids) id ids) as [index|] eqn:Hsearch; [|discriminate].
  destruct (pia_indices table) as [indices|] eqn:Hind; simpl; [|discriminate].
  intros [= <- <-]. exists table, ids, indices. simpl.
  repeat split; auto.
Qed.

(** X1. The accessors a lookup returns are those of the first position
    that holds the id, counting from the start index and wrapping around:
    with an id stored more than once, the position found depends on where
    the previous lookup ended. *)
Theorem getGeometryInstanceAttributes_first_match id w accessors w1 :
  getGeometryInstanceAttributes id w = (Return (Some accessors), w1) ->
  exists table ids k,
    _perInstanceAttributes (this w) = Some table
    /\ pia_ids table = Some ids
    /\ k < length ids
    /\ acc_perInstanceAttributes accessors
       = (_lastPerInstanceAttributeIndex (this w) + k) mod length ids
    /\ ids !! acc_perInstanceAttributes accessors = Some id
    /\ (forall j, j < k ->
          ids !! ((_lastPerInstanceAttributeIndex (this w) + j) mod length ids) <> Some id)
    /\ _lastPerInstanceAttributeIndex (this w1) = acc_perInstanceAttributes accessors.
Proof.
  intros Hget.
  destruct (getGeometryInstanceAttributes_found Hget)
    as (table & ids & indices & _ & Ht & Hids & _ & Hsearch & _ & ->).
  destruct (search_from_first Hsearch) as (k & Hk & Hindex & Hid & Hfirst).
  exists table, ids, k.
  split; [exact Ht|]. split; [exact Hids|]. split; [lia|]. split; [exact Hindex|].
  split; [exact Hid|]. split; [|reflexivity].
  intros j Hj. apply Hfirst. lia.
Qed.

Lemma getGeometryInstanceAttributes_first_match_witness :
  getGeometryInstanceAttributes (IdString "a")
    (set_this (set__lastPerInstanceAttributeIndex 1 (this Sample.w3)) Sample.w3)
  = (Return (Some {| acc_perInstanceAttributes := 0; acc_names := ["color"] |}),
     set_this (set__lastPerInstanceAttributeIndex 0 (this Sample.w3)) Sample.w3)
  /\ exists k,
       k < 2 /\ 0 = (1 + k) mod 2
       /\ forall j, j < k -> [IdString "a"; IdUndefined] !! ((1 + j) mod 2)
                             <> Some (IdString "a").
Proof.
  assert (H : getGeometryInstanceAttributes (IdString "a")
                (set_this (set__lastPerInstanceAttributeIndex 1 (this Sample.w3)) Sample.w3)
              = (Return (Some {| acc_perInstanceAttributes := 0; acc_names := ["color"] |}),
                 set_this (set__lastPerInstanceAttributeIndex 0 (this Sample.w3)) Sample.w3))
    by (vm_compute; reflexivity).
  split; [exact H|].
  destruct (getGeometryInstanceAttributes_first_match H)
    as (table & ids & k & Ht & Hids & Hk & Hindex & _ & Hfirst & _).
  assert (Htable : table = {| pia_ids := Some [IdString "a"; IdUndefined];
                              pia_indices := Some [{[ "color" := Sample.colorOfA ]}; ∅] |}).
  { vm_compute in Ht. injection Ht as <-. reflexivity. }
  subst table. injection Hids as <-.
  exists k. split; [exact Hk|]. split; [exact Hindex | exact Hfirst].
Defined.

(** X2. A lookup that found an instance can be repeated: the second call
    for the same id returns the same accessors and changes nothing, because
    the search now starts at the position found. *)
Theorem getGeometryInstanceAttributes_again id w accessors w1 :
  getGeometryInstanceAttributes id w = (Return (Some accessors), w1) ->
  getGeometryInstanceAttributes id w1 = (Return (Some accessors), w1).
Proof.
  intros Hget.
  destruct (getGeometryInstanceAttributes_found Hget)
    as (table & ids & indices & Hid & Ht & Hids & Hind & Hsearch & Hnames & ->).
  destruct (search_from_Some Hsearch) as (Hlookup & _).
  pose proof (lookup_lt_Some _ _ _ Hlookup) as Hlt.
  destruct accessors as [index names]. cbn [acc_perInstanceAttributes acc_names] in *.
  unfold getGeometryInstanceAttributes.
  destruct (decide (id = IdUndefined)) as [E|_]; [contradiction|].
  unfold bind, get, defined, assign, ret. cbn [this set_this].
  change (_perInstanceAttributes (set__lastPerInstanceAttributeIndex index (this w)))
    with (_perInstanceAttributes (this w)).
  rewrite Ht, Hids. cbv beta iota.
  change (_lastPerInstanceAttributeIndex
            (this (set_this (set__lastPerInstanceAttributeIndex index (this w)) w)))
    with index.
  assert (Hagain : search_from 0 (length ids) index (length ids) id ids = Some index).
  { destruct (length ids) as [|n] eqn:Hlen; [lia|]. cbn [search_from].
    rewrite Nat.add_0_r, Nat.mod_small by lia.
    rewrite decide_True by exact Hlookup. reflexivity. }
  rewrite Hagain, Hind. cbv beta iota. rewrite <- Hnames. reflexivity.
Qed.

Lemma getGeometryInstanceAttributes_again_witness :
  getGeometryInstanceAttributes (IdString "a") Sample.w3
  = (Return (Some {| acc_perInstanceAttributes := 0; acc_names := ["color"] |}),
     set_this (set__lastPerInstanceAttributeIndex 0 (this Sample.w3)) Sample.w3)
  /\ getGeometryInstanceAttributes (IdString "a")
       (set_this (set__lastPerInstanceAttributeIndex 0 (this Sample.w3)) Sample.w3)
     = (Return (Some {| acc_perInstanceAttributes := 0; acc_names := ["color"] |}),
        set_this (set__lastPerInstanceAttributeIndex 0 (this Sample.w3)) Sample.w3).
Proof.
  assert (H : getGeometryInstanceAttributes (IdString "a") Sample.w3
              = (Return (Some {| acc_perInstanceAttributes := 0; acc_names := ["color"] |}),
                 set_this (set__lastPerInstanceAttributeIndex 0 (this Sample.w3)) Sample.w3))
    by (vm_compute; reflexivity).
  split; [exact H|]. exact (getGeometryInstanceAttributes_again H).
Defined.

(** ** The steady state *)

Lemma update_commands_run boundingSphere w :
  commands_paired w ->
  update_commands boundingSphere w
  = (Return tt,
     set_this (set__commandLists
                 (placed_commands (modelMatrix (this w)) boundingSphere
                    (_commandLists (this w)))
                 (this w)) w).
Proof.
  intros Hpaired. unfold update_commands. run_step.
  rewrite (@command_loop_run _ (placed (modelMatrix (this w)) boundingSphere)
             (placed (modelMatrix (this w)) boundingSphere));
    [reflexivity | | exact Hpaired].
  intros i w0 c p Hc Hp.
  pose proof (lookup_lt_Some _ _ _ Hc) as Hlc.
  pose proof (lookup_lt_Some _ _ _ Hp) as Hlp.
  erewrite bind_Return by exact (modify_colorCommand_run _ Hc). cbv beta.
  erewrite bind_Return by (apply modify_pickCommand_run; exact Hp). cbv beta.
  erewrite bind_Return.
  2:{ apply modify_colorCommand_run.
      cbn [with_commands set_this this _commandLists set__commandLists colorList pickList].
      apply list_lookup_insert_eq. exact Hlc. }
  cbv beta.
  erewrite modify_pickCommand_run.
  2:{ cbn [with_commands set_this this _commandLists set__commandLists colorList pickList].
      apply list_lookup_insert_eq. exact Hlp. }
  cbn [with_commands set_this this _commandLists set__commandLists colorList pickList].
  rewrite !list_insert_insert_eq. reflexivity.
Qed.

Lemma update_COMPLETE taskProcessor frameState commandList w :
  state (this w) = COMPLETE ->
  early_exit (this w) frameState = false ->
  update taskProcessor frameState commandList w = steady_state frameState commandList w.
Proof.
  intros Hstate Hexit. unfold update. run_step. rewrite Hexit, Hstate. cbv beta iota.
  run_step. cbv beta iota. run_step. rewrite Hstate. reflexivity.
Qed.

Lemma steady_state_run frameState commandList w a w2 :
  appearance (this w) = Some a ->
  _appearance (this w) = Some (ap_identity a) ->
  _material (this w) = (mat_identity <$> ap_material a) ->
  update_perInstanceAttributes w = (Return tt, w2) ->
  commands_paired w2 ->
  steady_state frameState commandList w
  = (Return (commandList
             ++ [placed_commands (modelMatrix (this w2))
                   (select_boundingSphere frameState (this w2)) (_commandLists (this w2))]),
     set_this (set__commandLists
                 (placed_commands (modelMatrix (this w2))
                    (select_boundingSphere frameState (this w2)) (_commandLists (this w2)))
                 (this w2)) w2).
Proof.
  intros Ha Hsame Hmaterial Hflush Hpaired. unfold steady_state.
  erewrite bind_Return by exact (update_appearance_unchanged Ha Hsame Hmaterial).
  cbv beta. erewrite bind_Return by exact Hflush. cbv beta. run_step.
  erewrite bind_Return by exact (update_commands_run _ Hpaired). cbv beta.
  run_step. reflexivity.
Qed.

Lemma update_perInstanceAttributes_clean w :
  _dirtyAttributes (this w) = [] -> update_perInstanceAttributes w = (Return tt, w).
Proof.
  intros Hqueue. unfold update_perInstanceAttributes. run_step. rewrite Hqueue.
  reflexivity.
Qed.

Lemma placed_commands_idempotent modelMatrix boundingVolume commandLists :
  placed_commands modelMatrix boundingVolume
    (placed_commands modelMatrix boundingVolume commandLists)
  = placed_commands modelMatrix boundingVolume commandLists.
Proof.
  unfold placed_commands. cbn [colorList pickList].
  rewrite <- !list_fmap_compose. reflexivity.
Qed.

Lemma set__commandLists_same p : set__commandLists (_commandLists p) p = p.
Proof. destruct p; reflexivity. Qed.

Lemma update_steady_run taskProcessor frameState commandList w a writes :
  state (this w) = COMPLETE ->
  early_exit (this w) frameState = false ->
  appearance (this w) = Some a ->
  _appearance (this w) = Some (ap_identity a) ->
  _material (this w) = (mat_identity <$> ap_material a) ->
  queue_writes (this w) (_dirtyAttributes (this w)) = Some writes ->
  commands_paired w ->
  exists table,
    update taskProcessor frameState commandList w
    = (Return (commandList
               ++ [placed_commands (modelMatrix (this w))
                     (select_boundingSphere frameState (this w)) (_commandLists (this w))]),
       {| this := set__commandLists
                    (placed_commands (modelMatrix (this w))
                       (select_boundingSphere frameState (this w)) (_commandLists (this w)))
                    (set__dirtyAttributes [] (set__perInstanceAttributes table (this w)));
          context := log_calls writes (context w);
          callbacks := callbacks w |})
    /\ forall ref,
         lookup_record ref (set__perInstanceAttributes table (this w))
         = if decide (ref ∈ _dirtyAttributes (this w))
           then set_ar_dirty false <$> lookup_record ref (this w)
           else lookup_record ref (this w).
Proof.
  intros Hstate Hexit Ha Hsame Hmaterial Hwrites Hpaired.
  destruct (update_perInstanceAttributes_run Hwrites) as (table & Hflush & Hlookup).
  exists table. split; [|exact Hlookup].
  rewrite (update_COMPLETE taskProcessor commandList Hstate Hexit).
  rewrite (steady_state_run frameState commandList Ha Hsame Hmaterial Hflush Hpaired).
  reflexivity.
Qed.

Lemma set__perInstanceAttributes_twice table table' p :
  set__perInstanceAttributes table (set__perInstanceAttributes table' p)
  = set__perInstanceAttributes table p.
Proof. reflexivity. Qed.

Lemma flushed_cons ref rest p :
  flushed (ref :: rest) p
  = flushed rest match lookup_record ref p with
                 | Some record => store_record ref (set_ar_dirty false record) p
                 | None => p
                 end.
Proof. reflexivity. Qed.

(** The flush touches the attribute table only. *)
Lemma flushed_table queue : forall p,
  flushed queue p = set__perInstanceAttributes (_perInstanceAttributes (flushed queue p)) p.
Proof.
  induction queue as [|ref rest IH]; intros p.
  - destruct p; reflexivity.
  - rewrite flushed_cons.
    destruct (lookup_record ref p) as [record|]; [|apply IH].
    destruct (store_record_table ref (set_ar_dirty false record) p) as [table Htable].
    rewrite Htable. rewrite (IH (set__perInstanceAttributes table p)) at 1.
    apply set__perInstanceAttributes_twice.
Qed.

Lemma store_record_ids ref record p :
  pia_ids <$> _perInstanceAttributes (store_record ref record p)
  = pia_ids <$> _perInstanceAttributes p.
Proof.
  unfold store_record.
  destruct (_perInstanceAttributes p) as [table|] eqn:Ht; [|rewrite Ht; reflexivity].
  destruct (pia_indices table) as [indices|]; [|rewrite Ht; reflexivity].
  destruct (indices !! ref.1); [reflexivity | rewrite Ht; reflexivity].
Qed.

Lemma flushed_ids queue : forall p,
  pia_ids <$> _perInstanceAttributes (flushed queue p)
  = pia_ids <$> _perInstanceAttributes p.
Proof.
  induction queue as [|ref rest IH]; intros p; [reflexivity|].
  rewrite flushed_cons, IH.
  destruct (lookup_record ref p); [apply store_record_ids | reflexivity].
Qed.

Lemma flush_queue_exact queue : forall i w writes,
  queue_writes (this w) queue = Some writes ->
  for_each_from i queue (fun _ ref => flush_attribute ref) w
  = (Return tt,
     {| this := flushed queue (this w);
        context := log_calls writes (context w);
        callbacks := callbacks w |}).
Proof.
  induction queue as [|ref0 rest IH]; intros i w writes;
    cbn [for_each_from queue_writes].
  - intros [= <-]. unfold ret. rewrite log_calls_nil. destruct w; reflexivity.
  - destruct (lookup_record ref0 (this w)) as [record|] eqn:Hrecord; [|discriminate].
    destruct (range_writes (this w) (ar_value record) (ar_indices record)) as [cs|] eqn:Hcs;
      [|discriminate].
    destruct (queue_writes (this w) rest) as [ds|] eqn:Hds; [|discriminate].
    intros [= <-].
    erewrite bind_Return by exact (flush_attribute_run Hrecord Hcs). cbv beta.
    rewrite (IH _ _ ds).
    + rewrite flushed_cons, Hrecord. cbn [this context callbacks].
      f_equal. f_equal. unfold log_calls. simpl. rewrite <- app_assoc. reflexivity.
    + cbn [this]. rewrite (queue_writes_store rest Hrecord). exact Hds.
Qed.

Lemma flushed_lookup queue w writes :
  queue_writes (this w) queue = Some writes ->
  forall ref,
    lookup_record ref (flushed queue (this w))
    = if decide (ref ∈ queue)
      then set_ar_dirty false <$> lookup_record ref (this w)
      else lookup_record ref (this w).
Proof.
  intros Hwrites ref.
  destruct (flush_queue_run 0 Hwrites) as (table & Hrun & Hlookup).
  rewrite (flush_queue_exact 0 Hwrites) in Hrun.
  pose proof (f_equal (fun r => this r.2) Hrun) as Hthis. cbn [snd this] in Hthis.
  rewrite Hthis. apply Hlookup.
Qed.

Lemma update_perInstanceAttributes_exact w writes :
  queue_writes (this w) (_dirtyAttributes (this w)) = Some writes ->
  update_perInstanceAttributes w
  = (Return tt,
     {| this := set__dirtyAttributes [] (flushed (_dirtyAttributes (this w)) (this w));
        context := log_calls writes (context w);
        callbacks := callbacks w |}).
Proof.
  intros Hwrites. unfold update_perInstanceAttributes. run_step.
  destruct (_dirtyAttributes (this w)) as [|ref rest] eqn:Hqueue.
  - simpl in Hwrites. injection Hwrites as <-.
    simpl. unfold ret. rewrite log_calls_nil. f_equal.
    destruct w as [p c cb]. simpl in *. f_equal. destruct p; simpl in *; subst.
    reflexivity.
  - change (0 <? length (ref :: rest)) with true. cbv iota.
    unfold for_each. erewrite bind_Return by exact (flush_queue_exact 0 Hwrites).
    reflexivity.
Qed.

Lemma flushed_placing frameState queue p :
  _commandLists (flushed queue p) = _commandLists p
  /\ modelMatrix (flushed queue p) = modelMatrix p
  /\ select_boundingSphere frameState (flushed queue p) = select_boundingSphere frameState p.
Proof. rewrite flushed_table. split; [|split]; reflexivity. Qed.

(** X3. An update of a COMPLETE primitive whose appearance and material
    are the ones last seen, and whose dirty queue can be flushed, pushes one
    entry on the caller's command list: the primitive's own command lists,
    in which every color command and every pick command carries the current
    model matrix of the primitive and the bounding volume selected for the
    scene mode of the frame.  What it leaves behind is fixed: the context
    has the writes of the flush and nothing more, the dirty queue is empty,
    the commands are the ones pushed, the record of every entry that was
    queued is marked clean, and neither another record, nor the instance
    ids, nor any other field of the primitive, nor the callbacks have
    changed. *)
Theorem update_steady_state taskProcessor frameState commandList w a writes :
  state (this w) = COMPLETE ->
  early_exit (this w) frameState = false ->
  appearance (this w) = Some a ->
  _appearance (this w) = Some (ap_identity a) ->
  _material (this w) = (mat_identity <$> ap_material a) ->
  queue_writes (this w) (_dirtyAttributes (this w)) = Some writes ->
  commands_paired w ->
  let queue := _dirtyAttributes (this w) in
  let commandLists :=
    {| colorList := placed (modelMatrix (this w)) (select_boundingSphere frameState (this w))
                    <$> colorList (_commandLists (this w));
       pickList := placed (modelMatrix (this w)) (select_boundingSphere frameState (this w))
                   <$> pickList (_commandLists (this w)) |} in
  update taskProcessor frameState commandList w
  = (Return (commandList ++ [commandLists]),
     {| this := set__commandLists commandLists
                  (set__dirtyAttributes [] (flushed queue (this w)));
        context := log_calls writes (context w);
        callbacks := callbacks w |})
  /\ flushed queue (this w)
     = set__perInstanceAttributes (_perInstanceAttributes (flushed queue (this w))) (this w)
  /\ pia_ids <$> _perInstanceAttributes (flushed queue (this w))
     = pia_ids <$> _perInstanceAttributes (this w)
  /\ forall ref,
       lookup_record ref (flushed queue (this w))
       = if decide (ref ∈ queue)
         then set_ar_dirty false <$> lookup_record ref (this w)
         else lookup_record ref (this w).
Proof.
  intros Hstate Hexit Ha Hsame Hmaterial Hwrites Hpaired queue commandLists.
  split; [|split; [apply flushed_table | split; [apply flushed_ids|]]].
  2:{ exact (flushed_lookup Hwrites). }
  pose proof (update_perInstanceAttributes_exact Hwrites) as Hflush.
  fold queue in Hflush.
  destruct (flushed_placing frameState queue (this w)) as (Hcommands & Hmatrix & Hvolume).
  set (w2 := {| this := set__dirtyAttributes [] (flushed queue (this w));
                context := log_calls writes (context w);
                callbacks := callbacks w |}) in *.
  assert (Hcommands2 : _commandLists (this w2) = _commandLists (this w)) by exact Hcommands.
  assert (Hmatrix2 : modelMatrix (this w2) = modelMatrix (this w)) by exact Hmatrix.
  assert (Hvolume2 : select_boundingSphere frameState (this w2)
                     = select_boundingSphere frameState (this w)) by exact Hvolume.
  assert (Hpaired2 : commands_paired w2).
  { unfold commands_paired. rewrite Hcommands2. exact Hpaired. }
  rewrite (update_COMPLETE taskProcessor commandList Hstate Hexit).
  rewrite (steady_state_run frameState commandList Ha Hsame Hmaterial Hflush Hpaired2).
  rewrite Hcommands2, Hmatrix2, Hvolume2. reflexivity.
Qed.

Lemma update_steady_state_witness :
  state (this Scenario.w_queued) = COMPLETE
  /\ _dirtyAttributes (this Scenario.w_queued) = [(0, "show")]
  /\ queue_writes (this Scenario.w_queued) (_dirtyAttributes (this Scenario.w_queued))
     = Some [copyFromArrayView 3 [0; 0; 0]%Z 2]
  /\ ctx_calls (context (update Sample.accept (Sample.frameState COLUMBUS_VIEW) []
                           Scenario.w_queued).2)
     = ctx_calls (context Scenario.w_queued) ++ [copyFromArrayView 3 [0; 0; 0]%Z 2]
  /\ lookup_record (0, "show")
       (this (update Sample.accept (Sample.frameState COLUMBUS_VIEW) []
                Scenario.w_queued).2)
     = Some {| ar_value := [256]%Z;
               ar_indices := [{| ir_attribute := (0, 1); ir_offset := 2; ir_count := 3 |}];
               ar_dirty := false |}
  /\ (update Sample.accept (Sample.frameState COLUMBUS_VIEW) [] Scenario.w_queued).1
     = Return [ {| colorList :=
                     [{| dc_primitiveType := 4; dc_vertexArray := Some 4;
                         dc_renderState := Some 5;
                         dc_shaderProgram :=
                           Some {| sp_handle := 6;
                                   sp_vertexAttributes := ["position"] |};
                         dc_uniformMap := None;
                         dc_modelMatrix := Some Matrix4_IDENTITY;
                         dc_boundingVolume := Some (ProjectTo2D (Sphere 0) 0) |}];
                   pickList :=
                     [{| dc_primitiveType := 4; dc_vertexArray := Some 4;
                         dc_renderState := Some 5;
                         dc_shaderProgram :=
                           Some {| sp_handle := 7;
                                   sp_vertexAttributes := ["position"] |};
                         dc_uniformMap := None;
                         dc_modelMatrix := Some Matrix4_IDENTITY;
                         dc_boundingVolume := Some (ProjectTo2D (Sphere 0) 0) |}] |} ].
Proof.
  assert (H1 : state (this Scenario.w_queued) = COMPLETE) by (vm_compute; reflexivity).
  assert (H2 : early_exit (this Scenario.w_queued) (Sample.frameState COLUMBUS_VIEW) = false)
    by (vm_compute; reflexivity).
  assert (H3 : appearance (this Scenario.w_queued) = Some Sample.surface)
    by (vm_compute; reflexivity).
  assert (H4 : _appearance (this Scenario.w_queued) = Some (ap_identity Sample.surface))
    by (vm_compute; reflexivity).
  assert (H5 : _material (this Scenario.w_queued)
               = (mat_identity <$> ap_material Sample.surface))
    by (vm_compute; reflexivity).
  assert (H6 : queue_writes (this Scenario.w_queued)
                 (_dirtyAttributes (this Scenario.w_queued))
               = Some [copyFromArrayView 3 [0; 0; 0]%Z 2])
    by (vm_compute; reflexivity).
  assert (H7 : commands_paired Scenario.w_queued) by (vm_compute; reflexivity).
  split; [exact H1|]. split; [vm_compute; reflexivity|]. split; [exact H6|].
  destruct (update_steady_state Sample.accept [] H1 H2 H3 H4 H5 H6 H7) as (Hrun & _).
  rewrite Hrun. cbn [fst snd context this].
  split; [reflexivity|]. split; vm_compute; reflexivity.
Defined.

(** X4. In the steady state a second update for the same frame is idle:
    it submits the same commands as the first and changes neither the
    primitive nor the context, so it writes no buffer and creates
    nothing. *)
Theorem update_steady_state_twice taskProcessor frameState commandList commandList' w a
  writes :
  state (this w) = COMPLETE ->
  early_exit (this w) frameState = false ->
  appearance (this w) = Some a ->
  _appearance (this w) = Some (ap_identity a) ->
  _material (this w) = (mat_identity <$> ap_material a) ->
  queue_writes (this w) (_dirtyAttributes (this w)) = Some writes ->
  commands_paired w ->
  let r := update taskProcessor frameState commandList w in
  r.1 = Return (commandList ++ [_commandLists (this r.2)])
  /\ update taskProcessor frameState commandList' r.2
     = (Return (commandList' ++ [_commandLists (this r.2)]), r.2).
Proof.
  intros Hstate Hexit Ha Hsame Hmaterial Hwrites Hpaired r.
  destruct (update_steady_run taskProcessor commandList Hstate Hexit Ha Hsame Hmaterial
              Hwrites Hpaired) as (table & Hrun & _).
  subst r. rewrite Hrun. cbn [fst snd this _commandLists set__commandLists].
  split; [reflexivity|].
  match goal with
  | |- update _ _ _ ?w1 = _ => set (w' := w1)
  end.
  assert (Hstate' : state (this w') = COMPLETE) by exact Hstate.
  assert (Hexit' : early_exit (this w') frameState = false) by exact Hexit.
  assert (Ha' : appearance (this w') = Some a) by exact Ha.
  assert (Hsame' : _appearance (this w') = Some (ap_identity a)) by exact Hsame.
  assert (Hmaterial' : _material (this w') = (mat_identity <$> ap_material a))
    by exact Hmaterial.
  assert (Hpaired' : commands_paired w').
  { unfold commands_paired, w'.
    cbn [this _commandLists set__commandLists placed_commands colorList pickList].
    rewrite !length_fmap. exact Hpaired. }
  rewrite (update_COMPLETE taskProcessor commandList' Hstate' Hexit').
  rewrite (steady_state_run frameState commandList' Ha' Hsame' Hmaterial'
             (update_perInstanceAttributes_clean (w := w') eq_refl) Hpaired').
  assert (Hcommands :
            placed_commands (modelMatrix (this w')) (select_boundingSphere frameState (this w'))
              (_commandLists (this w'))
            = _commandLists (this w')).
  { unfold w'. cbn [this _commandLists set__commandLists].
    change (modelMatrix (set__commandLists _ _)) with (modelMatrix (this w)).
    change (select_boundingSphere frameState (set__commandLists _ _))
      with (select_boundingSphere frameState (this w)).
    apply placed_commands_idempotent. }
  rewrite Hcommands, set__commandLists_same. reflexivity.
Qed.

Lemma update_steady_state_twice_witness :
  state (this Sample.w3) = COMPLETE
  /\ early_exit (this Sample.w3) (Sample.frameState SCENE2D) = false
  /\ update Sample.accept (Sample.frameState SCENE2D) []
       (update Sample.accept (Sample.frameState SCENE2D) [] Sample.w3).2
     = (Return [_commandLists
                  (this (update Sample.accept (Sample.frameState SCENE2D) [] Sample.w3).2)],
        (update Sample.accept (Sample.frameState SCENE2D) [] Sample.w3).2).
Proof.
  assert (H1 : state (this Sample.w3) = COMPLETE) by (vm_compute; reflexivity).
  assert (H2 : early_exit (this Sample.w3) (Sample.frameState SCENE2D) = false)
    by (vm_compute; reflexivity).
  assert (H3 : appearance (this Sample.w3) = Some Sample.surface)
    by (vm_compute; reflexivity).
  assert (H4 : _appearance (this Sample.w3) = Some (ap_identity Sample.surface))
    by (vm_compute; reflexivity).
  assert (H5 : _material (this Sample.w3) = (mat_identity <$> ap_material Sample.surface))
    by (vm_compute; reflexivity).
  assert (H6 : queue_writes (this Sample.w3) (_dirtyAttributes (this Sample.w3)) = Some [])
    by (vm_compute; reflexivity).
  assert (H7 : commands_paired Sample.w3) by (vm_compute; reflexivity).
  split; [exact H1|]. split; [exact H2|].
  destruct (update_steady_state_twice Sample.accept [] [] H1 H2 H3 H4 H5 H6 H7)
    as [_ Hagain].
  exact Hagain.
Defined.

(** ** A combine result without geometries *)

Lemma update_COMBINED_empty taskProcessor frameState commandList w :
  state (this w) = COMBINED ->
  early_exit (this w) frameState = false ->
  _geometries (this w) = Some [] ->
  update taskProcessor frameState commandList w = (Throw TypeError, w).
Proof.
  intros Hstate Hexit Hg. unfold update. run_step. rewrite Hexit, Hstate.
  cbv beta iota. unfold COMBINED_branch.
  erewrite bind_Throw; [reflexivity|].
  erewrite bind_Throw; [reflexivity|].
  run_step. run_step. rewrite Hg. run_step. reflexivity.
Qed.

Lemma getGeometryInstanceAttributes_geometries id :
  keeps (fun w => _geometries (this w)) (getGeometryInstanceAttributes id).
Proof.
  unfold getGeometryInstanceAttributes.
  repeat first [ apply keeps_assign; intros ?; reflexivity | keeps_step ].
Qed.

Lemma perform_stuck op w :
  awaiting w ->
  state (this w) = COMBINED ->
  _geometries (this w) = Some [] ->
  state (this (perform op w)) = COMBINED /\ _geometries (this (perform op w)) = Some [].
Proof.
  intros Hawait Hstate Hg.
  destruct op as [tp fs cl|id|name i|name i value| |promise result|promise];
    cbn [perform].
  - destruct (early_exit (this w) fs) eqn:Hexit.
    + rewrite (update_when_early_exit tp cl Hexit). auto.
    + rewrite (update_COMBINED_empty tp cl Hstate Hexit Hg). auto.
  - pose proof (f_equal fst (getGeometryInstanceAttributes_lifecycle id w)) as Hs.
    cbn [lifecycle fst] in Hs. rewrite Hs, (getGeometryInstanceAttributes_geometries id w).
    auto.
  - rewrite createGetFunction_pure. auto.
  - pose proof (f_equal ba_steady (createSetFunction_beyond_attributes name i value w)) as H.
    cbn [beyond_attributes ba_steady] in H.
    pose proof (f_equal sf_state H) as Hs. pose proof (f_equal sf_geometries H) as Hgs.
    cbn [steady_fields sf_state sf_geometries] in Hs, Hgs. rewrite Hs, Hgs. auto.
  - auto.
  - destruct (settle_lifecycle promise (on_combined result) Hawait) as [-> | (Hc & _)];
      [auto | congruence].
  - destruct (settle_lifecycle promise on_failed Hawait) as [-> | (Hc & _)];
      [auto | congruence].
Qed.

Lemma reachable_perform_all ops : forall w, reachable w -> reachable (perform_all ops w).
Proof.
  induction ops as [|op ops IH]; intros w Hreach; [exact Hreach|].
  apply IH. apply reachable_perform. exact Hreach.
Qed.

(** X5. A combine result without geometries leaves the primitive stuck:
    once it is COMBINED with an empty geometry array, whatever is done with
    it afterwards it stays COMBINED, and every update that gets past the
    early-exit test throws a TypeError and changes nothing. *)
Theorem empty_combine_result_sticks (w : World) (ops : list Operation) :
  reachable w ->
  state (this w) = COMBINED ->
  _geometries (this w) = Some [] ->
  let w' := perform_all ops w in
  state (this w') = COMBINED
  /\ forall taskProcessor frameState commandList,
       early_exit (this w') frameState = false ->
       update taskProcessor frameState commandList w' = (Throw TypeError, w').
Proof.
  intros Hreach Hstate Hg. cbv zeta.
  assert (Hstuck : state (this (perform_all ops w)) = COMBINED
                   /\ _geometries (this (perform_all ops w)) = Some []).
  { revert w Hreach Hstate Hg. induction ops as [|op ops IH]; intros w Hreach Hstate Hg;
      [auto|].
    destruct (perform_stuck op (reachable_awaiting Hreach) Hstate Hg) as [Hs' Hg'].
    exact (IH _ (reachable_perform op Hreach) Hs' Hg'). }
  destruct Hstuck as [Hs' Hg']. split; [exact Hs'|].
  intros taskProcessor frameState commandList Hexit.
  exact (update_COMBINED_empty taskProcessor commandList Hs' Hexit Hg').
Qed.

Lemma empty_combine_result_sticks_witness :
  reachable Scenario.w_empty
  /\ state (this Scenario.w_empty) = COMBINED
  /\ _geometries (this Scenario.w_empty) = Some []
  /\ early_exit (this Scenario.w_empty) (Sample.frameState SCENE3D) = false
  /\ update Sample.accept (Sample.frameState SCENE3D) []
       (perform_all [call_getGeometryInstanceAttributes (IdString "a");
                     call_update Sample.accept (Sample.frameState SCENE3D) []]
          Scenario.w_empty)
     = (Throw TypeError,
        perform_all [call_getGeometryInstanceAttributes (IdString "a");
                     call_update Sample.accept (Sample.frameState SCENE3D) []]
          Scenario.w_empty).
Proof.
  assert (H1 : reachable Scenario.w_empty).
  { unfold Scenario.w_empty, Sample.w1. repeat apply reachable_perform.
    apply reachable_new. }
  assert (H2 : state (this Scenario.w_empty) = COMBINED) by (vm_compute; reflexivity).
  assert (H3 : _geometries (this Scenario.w_empty) = Some []) by (vm_compute; reflexivity).
  assert (H4 : early_exit (this Scenario.w_empty) (Sample.frameState SCENE3D) = false)
    by (vm_compute; reflexivity).
  split; [exact H1|]. split; [exact H2|]. split; [exact H3|]. split; [exact H4|].
  destruct (empty_combine_result_sticks
              [call_getGeometryInstanceAttributes (IdString "a");
               call_update Sample.accept (Sample.frameState SCENE3D) []] H1 H2 H3)
    as [_ Hthrows].
  apply Hthrows. vm_compute. reflexivity.
Defined.

(** ** The early-exit test after completion *)

Lemma completed_guard projection first vaAttributes va commandLists p :
  let p' := completed projection first vaAttributes va commandLists p in
  show p' = show p /\ appearance p' = appearance p /\ _allow3DOnly p' = _allow3DOnly p
  /\ _va p' = va.
Proof.
  unfold completed. simpl.
  destruct (g_boundingSphere first) as [sphere|]; simpl;
    [destruct (_allow3DOnly p) eqn:Hallow; simpl|];
    destruct (_releaseGeometryInstances p); simpl; auto.
Qed.

Lemma update_COMBINED_va taskProcessor frameState commandList w first rest vaAttributes :
  state (this w) = COMBINED ->
  early_exit (this w) frameState = false ->
  _geometries (this w) = Some (first :: rest) ->
  _vaAttributes (this w) = Some vaAttributes ->
  length (first :: rest) <= length vaAttributes ->
  exists vaAttributes' va commandLists w1,
    update taskProcessor frameState commandList w = steady_state frameState commandList w1
    /\ this w1 = completed (scene2D_projection frameState) first vaAttributes' va
                   commandLists (this w)
    /\ length va = length (first :: rest).
Proof.
  intros Hstate Hexit Hg Hva Hlen.
  destruct (COMBINED_branch_run frameState Hg Hva Hlen)
    as (vaAttributes' & va & commandLists & c' & Hrun & Hlva).
  exists vaAttributes', va, commandLists.
  exists {| this := completed (scene2D_projection frameState) first vaAttributes' va
                      commandLists (this w);
            context := c'; callbacks := callbacks w |}.
  split; [|split; [reflexivity | exact Hlva]].
  unfold update. run_step. rewrite Hexit, Hstate.
  erewrite bind_Return.
  2:{ erewrite bind_Return by exact Hrun. reflexivity. }
  cbv beta iota. run_step.
  destruct (completed_fields (scene2D_projection frameState) first vaAttributes' va
              commandLists (this w)) as [Hs _].
  cbn [this]. rewrite Hs. reflexivity.
Qed.

(** X6. Releasing the geometry instances does not hide a completed
    primitive.  After the update that takes the primitive from COMBINED to
    COMPLETE there is one vertex array for each merged geometry, so the
    early-exit test of later updates gives what it gave before, for any
    frame, even though [geometryInstances] may now be undefined. *)
Theorem completion_keeps_early_exit taskProcessor frameState commandList w
  first rest vaAttributes :
  state (this w) = COMBINED ->
  early_exit (this w) frameState = false ->
  _geometries (this w) = Some (first :: rest) ->
  _vaAttributes (this w) = Some vaAttributes ->
  length (first :: rest) <= length vaAttributes ->
  let w' := (update taskProcessor frameState commandList w).2 in
  length (_va (this w')) = length (first :: rest)
  /\ forall frameState', early_exit (this w') frameState' = early_exit (this w) frameState'.
Proof.
  intros Hstate Hexit Hg Hva Hlen.
  destruct (update_COMBINED_va taskProcessor commandList Hstate Hexit Hg Hva Hlen)
    as (vaAttributes' & va & commandLists & w1 & Hupdate & Hthis & Hlva).
  cbv zeta. rewrite Hupdate.
  pose proof (steady_state_steady frameState commandList w1) as Hsteady.
  pose proof (f_equal sf_show Hsteady) as Hshow.
  pose proof (f_equal sf_va Hsteady) as Hva'.
  pose proof (f_equal sf_appearance Hsteady) as Happearance.
  pose proof (f_equal sf_allow3DOnly Hsteady) as Hallow.
  cbn [steady_fields sf_show sf_va sf_appearance sf_allow3DOnly]
    in Hshow, Hva', Happearance, Hallow.
  destruct (completed_guard (scene2D_projection frameState) first vaAttributes' va
              commandLists (this w)) as (Hshow1 & Happearance1 & Hallow1 & Hva1).
  rewrite Hthis in Hshow, Hva', Happearance, Hallow.
  rewrite Hshow1 in Hshow. rewrite Happearance1 in Happearance.
  rewrite Hallow1 in Hallow. rewrite Hva1 in Hva'.
  split; [rewrite Hva'; exact Hlva|].
  intros frameState'. unfold early_exit in Hexit. unfold early_exit.
  rewrite Hshow, Hva', Happearance, Hallow.
  apply orb_false_iff in Hexit as [Hexit _].
  apply orb_false_iff in Hexit as [Hexit _].
  apply orb_false_iff in Hexit as [Hexit _].
  apply orb_false_iff in Hexit as [_ Hmiddle].
  rewrite Hmiddle.
  assert (Hpositive : (length va =? 0) = false).
  { apply Nat.eqb_neq. rewrite Hlva. simpl. lia. }
  rewrite Hpositive, andb_false_r. reflexivity.
Qed.

Lemma completion_keeps_early_exit_witness :
  state (this Sample.w2) = COMBINED
  /\ early_exit (this Sample.w2) (Sample.frameState SCENE3D) = false
  /\ geometryInstances (this (update Sample.accept (Sample.frameState SCENE3D) []
                                Sample.w2).2) = None
  /\ early_exit (this (update Sample.accept (Sample.frameState SCENE3D) [] Sample.w2).2)
       (Sample.frameState MORPHING)
     = early_exit (this Sample.w2) (Sample.frameState MORPHING).
Proof.
  assert (H1 : state (this Sample.w2) = COMBINED) by (vm_compute; reflexivity).
  assert (H2 : early_exit (this Sample.w2) (Sample.frameState SCENE3D) = false)
    by (vm_compute; reflexivity).
  assert (H3 : _geometries (this Sample.w2) = Some [Sample.geometry])
    by (vm_compute; reflexivity).
  assert (H4 : _vaAttributes (this Sample.w2) = Some (res_vaAttributes Sample.result))
    by (vm_compute; reflexivity).
  assert (H5 : length [Sample.geometry] <= length (res_vaAttributes Sample.result))
    by (simpl; lia).
  split; [exact H1|]. split; [exact H2|]. split; [vm_compute; reflexivity|].
  destruct (completion_keeps_early_exit Sample.accept [] H1 H2 H3 H4 H5) as [_ Hguard].
  exact (Hguard (Sample.frameState MORPHING)).
Defined.

(** ** Rebuilding the shading *)

Lemma set__appearance_same p : set__appearance (_appearance p) p = p.
Proof. destruct p; reflexivity. Qed.

Lemma set__rs_same p : set__rs (_rs p) p = p.
Proof. destruct p; reflexivity. Qed.

Lemma shading_loop_run rs sp pickSP uniforms w :
  commands_paired w ->
  for_range (length (colorList (_commandLists (this w))))
    (fun i => bind (modify_colorCommand i (set_shading rs sp uniforms))
                (fun _ => modify_pickCommand i (set_shading rs pickSP uniforms))) w
  = (Return tt,
     with_commands (set_shading rs sp uniforms <$> colorList (_commandLists (this w)))
       (set_shading rs pickSP uniforms <$> pickList (_commandLists (this w))) w).
Proof.
  intros Hpaired. apply command_loop_run; [|exact Hpaired].
  intros i w0 c p Hc Hp.
  erewrite bind_Return by exact (modify_colorCommand_run _ Hc). cbv beta.
  erewrite modify_pickCommand_run by exact Hp. reflexivity.
Qed.

Lemma bind_assoc {A B C} (m : M A) (f : A -> M B) (g : B -> M C) w :
  bind (bind m f) g w = bind m (fun x => bind (f x) g) w.
Proof. unfold bind. destruct (m w) as [[x|e] w1]; reflexivity. Qed.

Ltac world_simpl := cbn [this context callbacks set_this set_context set_callbacks].

Lemma link_run shaderProgram vs fs attributeIndices w :
  shaderCache_replaceShaderProgram shaderProgram vs fs attributeIndices w
  = (Return (linked (context w) vs fs (length (ctx_calls (context w)))),
     set_context (log_call (replaceShaderProgram shaderProgram vs fs attributeIndices)
                    (context w)) w).
Proof. reflexivity. Qed.

(** The block of [update] that links the two programs and validates them,
    run in a world [w0]. *)
Ltac relink_block attributeIndices a vs :=
  match goal with
  | |- bind ?block _ _ = _ =>
      assert (Hblock : forall w0 : World,
                _attributeIndices (this w0) = Some attributeIndices ->
                appendShow (this w0)
                  (createColumbusViewShader (this w0) (ap_vertexShaderSource a))
                = Return vs ->
                block w0
                = match validate_programs
                          (Some (linked (context w0) vs (ap_fragmentShaderSource a)
                                   (length (ctx_calls (context w0)))))
                          (Some (linked (context w0) (createPickVertexShaderSource vs)
                                   (createPickFragmentShaderSource
                                      (ap_fragmentShaderSource a) "varying")
                                   (S (length (ctx_calls (context w0))))))
                          attributeIndices with
                  | Return _ =>
                      (Return tt,
                       {| this :=
                            set__pickSP
                              (Some (linked (context w0) (createPickVertexShaderSource vs)
                                       (createPickFragmentShaderSource
                                          (ap_fragmentShaderSource a) "varying")
                                       (S (length (ctx_calls (context w0))))))
                              (set__sp
                                 (Some (linked (context w0) vs (ap_fragmentShaderSource a)
                                          (length (ctx_calls (context w0)))))
                                 (this w0));
                          context :=
                            log_calls
                              [replaceShaderProgram (_sp (this w0)) vs
                                 (ap_fragmentShaderSource a) (_attributeIndices (this w0));
                               replaceShaderProgram (_pickSP (this w0))
                                 (createPickVertexShaderSource vs)
                                 (createPickFragmentShaderSource
                                    (ap_fragmentShaderSource a) "varying")
                                 (_attributeIndices (this w0))]
                              (context w0);
                          callbacks := callbacks w0 |})
                  | Throw e =>
                      (Throw e,
                       {| this :=
                            set__pickSP
                              (Some (linked (context w0) (createPickVertexShaderSource vs)
                                       (createPickFragmentShaderSource
                                          (ap_fragmentShaderSource a) "varying")
                                       (S (length (ctx_calls (context w0))))))
                              (set__sp
                                 (Some (linked (context w0) vs (ap_fragmentShaderSource a)
                                          (length (ctx_calls (context w0)))))
                                 (this w0));
                          context :=
                            log_calls
                              [replaceShaderProgram (_sp (this w0)) vs
                                 (ap_fragmentShaderSource a) (_attributeIndices (this w0));
                               replaceShaderProgram (_pickSP (this w0))
                                 (createPickVertexShaderSource vs)
                                 (createPickFragmentShaderSource
                                    (ap_fragmentShaderSource a) "varying")
                                 (_attributeIndices (this w0))]
                              (context w0);
                          callbacks := callbacks w0 |})
                  end);
      [ intros w0 Hai0 Hvs0; run_step; rewrite Hvs0; run_step;
        run_step; run_step; run_step; run_step; rewrite Hai0; run_step;
        unfold validate_programs, linked, bind, lift, log_calls, log_call, set_this,
          set_context;
        cbn [this context callbacks ctx_calls ctx_activeVertexAttributes
               ctx_elementIndexUint];
        rewrite length_app, Nat.add_1_r, <- app_assoc; cbn [app];
        destruct (validateShaderMatching _ attributeIndices) as [[]|e]; [|reflexivity];
        destruct (validateShaderMatching _ attributeIndices) as [[]|e]; reflexivity
      | ]
  end.

Ltac norm_world :=
  unfold linked, log_calls, log_call, set_this, set_context;
  cbn [this context callbacks ctx_calls ctx_activeVertexAttributes ctx_elementIndexUint];
  rewrite ?length_app; cbn [length]; rewrite ?Nat.add_1_r, <- ?app_assoc; cbn [app].

Lemma update_appearance_outcome w a attributeIndices vs :
  appearance (this w) = Some a ->
  appearance_changed (this w) a || material_changed (this w) a = true ->
  _attributeIndices (this w) = Some attributeIndices ->
  appendShow (this w) (createColumbusViewShader (this w) (ap_vertexShaderSource a))
  = Return vs ->
  commands_paired w ->
  update_appearance w
  = match validate_programs (_sp (this (relinked a vs w))) (_pickSP (this (relinked a vs w)))
            attributeIndices with
    | Return _ => (Return tt, reshaded a vs w)
    | Throw e => (Throw e, relinked a vs w)
    end.
Proof.
  intros Ha Hchanged Hai Hvs Hpaired. unfold update_appearance.
  run_step. rewrite Ha. run_step. run_step.
  fold (appearance_changed (this w) a). fold (material_changed (this w) a).
  unfold reshaded, relinked, shading_calls.
  destruct (appearance_changed (this w) a) eqn:Hrs.
  - run_step. cbv beta iota. run_step.
    relink_block attributeIndices a vs.
    match goal with
    | |- bind _ _ ?w0 = _ => unfold bind at 1; rewrite (Hblock w0 Hai Hvs)
    end.
    clear Hblock.
    norm_world.
    match goal with
    | |- (let (c, w') := match ?v with _ => _ end in _) = _ =>
        set (V := v); change (validate_programs _ _ attributeIndices) with V;
        clearbody V
    end.
    destruct V as [[]|e]; [|reflexivity].
    cbn [orb]. run_step.
    erewrite shading_loop_run by exact Hpaired. reflexivity.
  - cbn [orb] in Hchanged. rewrite Hchanged.
    assert (Hsame : set__appearance (Some (ap_identity a)) (this w) = this w).
    { unfold appearance_changed in Hrs. apply negb_false_iff, bool_decide_eq_true in Hrs.
      rewrite <- Hrs. apply set__appearance_same. }
    rewrite Hsame.
    assert (Hrs_same : set__rs (_rs (this w))
                         (set__material (mat_identity <$> ap_material a) (this w))
                       = set__material (mat_identity <$> ap_material a) (this w))
      by exact (set__rs_same (set__material (mat_identity <$> ap_material a) (this w))).
    cbv iota. rewrite Hrs_same.
    run_step. cbv beta iota. run_step.
    relink_block attributeIndices a vs.
    match goal with
    | |- bind _ _ ?w0 = _ => unfold bind at 1; rewrite (Hblock w0 Hai Hvs)
    end.
    clear Hblock.
    norm_world.
    match goal with
    | |- (let (c, w') := match ?v with _ => _ end in _) = _ =>
        set (V := v); change (validate_programs _ _ attributeIndices) with V;
        clearbody V
    end.
    destruct V as [[]|e]; [|reflexivity].
    cbn [orb]. run_step.
    erewrite shading_loop_run by exact Hpaired. reflexivity.
Qed.

Lemma steady_state_from frameState commandList w w1 w2 :
  update_appearance w = (Return tt, w1) ->
  update_perInstanceAttributes w1 = (Return tt, w2) ->
  commands_paired w2 ->
  steady_state frameState commandList w
  = (Return (commandList
             ++ [placed_commands (modelMatrix (this w2))
                   (select_boundingSphere frameState (this w2)) (_commandLists (this w2))]),
     set_this (set__commandLists
                 (placed_commands (modelMatrix (this w2))
                    (select_boundingSphere frameState (this w2)) (_commandLists (this w2)))
                 (this w2)) w2).
Proof.
  intros Happearance Hflush Hpaired. unfold steady_state.
  erewrite bind_Return by exact Happearance.
  cbv beta. erewrite bind_Return by exact Hflush. cbv beta. run_step.
  erewrite bind_Return by exact (update_commands_run _ Hpaired). cbv beta.
  run_step. reflexivity.
Qed.

Lemma queue_writes_relinked a vs w :
  queue_writes (this (relinked a vs w)) (_dirtyAttributes (this w))
  = queue_writes (this w) (_dirtyAttributes (this w)).
Proof.
  apply queue_writes_ext; [reflexivity|].
  intros ref _. apply lookup_record_ext. reflexivity.
Qed.

Lemma queue_writes_reshaded a vs w :
  queue_writes (this (reshaded a vs w)) (_dirtyAttributes (this w))
  = queue_writes (this w) (_dirtyAttributes (this w)).
Proof.
  apply queue_writes_ext; [reflexivity|].
  intros ref _. apply lookup_record_ext. reflexivity.
Qed.

Lemma validate_programs_relinked a vs w attributeIndices :
  validate_programs (_sp (this (relinked a vs w))) (_pickSP (this (relinked a vs w)))
    attributeIndices
  = match
      validateShaderMatching
        (linked (context w) vs (ap_fragmentShaderSource a)
           (if appearance_changed (this w) a
            then S (length (ctx_calls (context w)))
            else length (ctx_calls (context w))))
        attributeIndices
    with
    | Return _ =>
        validateShaderMatching
          (linked (context w) (createPickVertexShaderSource vs)
             (createPickFragmentShaderSource (ap_fragmentShaderSource a) "varying")
             (S (if appearance_changed (this w) a
                 then S (length (ctx_calls (context w)))
                 else length (ctx_calls (context w)))))
          attributeIndices
    | Throw e => Throw e
    end.
Proof. reflexivity. Qed.

(** X7. When the appearance or only its material differs from the one
    last seen, the update of a COMPLETE primitive rebuilds the shading: it
    creates a render state only if the appearance itself changed, replaces
    both shader programs in either case, and, the programs matching the
    vertex attributes, gives every color command the render state, the new
    program and the uniforms of the material, and every pick command the
    same with the pick program.  It then flushes and submits as in the
    steady state. *)
Theorem update_rebuilds_shading taskProcessor frameState commandList w a attributeIndices
  vs writes :
  let p := this w in
  let fs := ap_fragmentShaderSource a in
  let calls := length (ctx_calls (context w)) in
  let rs := if appearance_changed p a then Some calls else _rs p in
  let sp := linked (context w) vs fs (if appearance_changed p a then S calls else calls) in
  let pickSP := linked (context w) (createPickVertexShaderSource vs)
                  (createPickFragmentShaderSource fs "varying")
                  (S (if appearance_changed p a then S calls else calls)) in
  let uniforms := mat_uniforms <$> ap_material a in
  let boundingVolume := select_boundingSphere frameState p in
  state p = COMPLETE ->
  early_exit p frameState = false ->
  appearance p = Some a ->
  appearance_changed p a || material_changed p a = true ->
  _attributeIndices p = Some attributeIndices ->
  appendShow p (createColumbusViewShader p (ap_vertexShaderSource a)) = Return vs ->
  validateShaderMatching sp attributeIndices = Return tt ->
  validateShaderMatching pickSP attributeIndices = Return tt ->
  commands_paired w ->
  queue_writes p (_dirtyAttributes p) = Some writes ->
  let r := update taskProcessor frameState commandList w in
  r.1 = Return (commandList ++ [_commandLists (this r.2)])
  /\ ctx_calls (context r.2) = ctx_calls (context w) ++ shading_calls a vs p ++ writes
  /\ _appearance (this r.2) = Some (ap_identity a)
  /\ _material (this r.2) = (mat_identity <$> ap_material a)
  /\ _rs (this r.2) = rs
  /\ _sp (this r.2) = Some sp
  /\ _pickSP (this r.2) = Some pickSP
  /\ colorList (_commandLists (this r.2))
     = (fun command => placed (modelMatrix p) boundingVolume
                         (set_shading rs (Some sp) uniforms command))
       <$> colorList (_commandLists p)
  /\ pickList (_commandLists (this r.2))
     = (fun command => placed (modelMatrix p) boundingVolume
                         (set_shading rs (Some pickSP) uniforms command))
       <$> pickList (_commandLists p).
Proof.
  intros p fs calls rs sp pickSP uniforms boundingVolume
    Hstate Hexit Ha Hchanged Hai Hvs Hsp HpickSP Hpaired Hwrites r.
  subst p.
  assert (Hrun : update_appearance w = (Return tt, reshaded a vs w)).
  { rewrite (update_appearance_outcome Ha Hchanged Hai Hvs Hpaired).
    rewrite validate_programs_relinked. fold calls. fold fs. fold sp. fold pickSP.
    rewrite Hsp, HpickSP. reflexivity. }
  assert (Hq : queue_writes (this (reshaded a vs w))
                 (_dirtyAttributes (this (reshaded a vs w))) = Some writes).
  { rewrite <- Hwrites. exact (queue_writes_reshaded a vs w). }
  destruct (update_perInstanceAttributes_run Hq) as (table & Hflush & _).
  match type of Hflush with
  | _ = (_, ?w2) => assert (Hpaired2 : commands_paired w2)
  end.
  { unfold commands_paired, reshaded, with_commands.
    cbn [this set_this _commandLists set__commandLists set__dirtyAttributes
           set__perInstanceAttributes colorList pickList].
    rewrite !length_fmap. exact Hpaired. }
  subst r. rewrite (update_COMPLETE taskProcessor commandList Hstate Hexit).
  rewrite (steady_state_from frameState commandList Hrun Hflush Hpaired2).
  cbn [fst snd this set_this _commandLists set__commandLists].
  split; [reflexivity|].
  split.
  { cbn [context set_this log_calls ctx_calls]. unfold reshaded, relinked, with_commands.
    cbn [context set_this log_calls ctx_calls]. rewrite <- app_assoc. reflexivity. }
  split; [reflexivity|]. split; [reflexivity|]. split; [reflexivity|].
  split; [reflexivity|]. split; [reflexivity|].
  unfold placed_commands. cbn [colorList pickList].
  split.
  - unfold reshaded, with_commands.
    cbn [this set_this _commandLists set__commandLists set__dirtyAttributes
           set__perInstanceAttributes colorList pickList].
    rewrite <- list_fmap_compose. reflexivity.
  - unfold reshaded, with_commands.
    cbn [this set_this _commandLists set__commandLists set__dirtyAttributes
           set__perInstanceAttributes colorList pickList].
    rewrite <- list_fmap_compose. reflexivity.
Qed.

Lemma update_rebuilds_shading_witness :
  state (this Shading.w_textured) = COMPLETE
  /\ appearance_changed (this Shading.w_textured) Shading.textured = true
  /\ length (ctx_calls (context Shading.w_textured)) = 7
  /\ _rs (this (update Sample.accept (Sample.frameState SCENE3D) []
                  Shading.w_textured).2) = Some 7
  /\ _sp (this (update Sample.accept (Sample.frameState SCENE3D) []
                  Shading.w_textured).2)
     = Some {| sp_handle := 8; sp_vertexAttributes := ["position"] |}.
Proof.
  assert (H1 : state (this Shading.w_textured) = COMPLETE) by (vm_compute; reflexivity).
  assert (H2 : early_exit (this Shading.w_textured) (Sample.frameState SCENE3D) = false)
    by (vm_compute; reflexivity).
  assert (H3 : appearance (this Shading.w_textured) = Some Shading.textured)
    by (vm_compute; reflexivity).
  assert (H4 : appearance_changed (this Shading.w_textured) Shading.textured
               || material_changed (this Shading.w_textured) Shading.textured = true)
    by (vm_compute; reflexivity).
  assert (H5 : _attributeIndices (this Shading.w_textured) = Some {[ "position" := 0 ]})
    by (vm_compute; reflexivity).
  assert (H6 : appendShow (this Shading.w_textured)
                 (createColumbusViewShader (this Shading.w_textured)
                    (ap_vertexShaderSource Shading.textured))
               = Return (ColumbusViewShader false (SourceText "vs2")))
    by (vm_compute; reflexivity).
  assert (H9 : commands_paired Shading.w_textured) by (vm_compute; reflexivity).
  assert (H10 : queue_writes (this Shading.w_textured)
                  (_dirtyAttributes (this Shading.w_textured)) = Some [])
    by (vm_compute; reflexivity).
  split; [exact H1|]. split; [vm_compute; reflexivity|]. split; [vm_compute; reflexivity|].
  destruct (@update_rebuilds_shading Sample.accept (Sample.frameState SCENE3D) []
              Shading.w_textured Shading.textured {[ "position" := 0 ]}
              (ColumbusViewShader false (SourceText "vs2")) []
              H1 H2 H3 H4 H5 H6 ltac:(vm_compute; reflexivity) ltac:(vm_compute; reflexivity)
              H9 H10)
    as (_ & _ & _ & _ & Hrs & Hsp & _).
  split; [rewrite Hrs; vm_compute; reflexivity | rewrite Hsp; vm_compute; reflexivity].
Defined.

(** X8. A mismatch between the new shader programs and the vertex
    attributes is reported by one update only.  The update that rebuilds the
    shading throws the DeveloperError after it has recorded the appearance
    and the material and replaced the programs, and before it touches the
    commands.  The next update therefore finds nothing changed: it neither
    links nor validates again, returns normally, and submits the commands
    with the render state, shader program and uniforms they had before. *)
Theorem shader_mismatch_reported_once taskProcessor frameState commandList commandList'
  w a attributeIndices vs e writes :
  let p := this w in
  let fs := ap_fragmentShaderSource a in
  let calls := length (ctx_calls (context w)) in
  let sp := linked (context w) vs fs (if appearance_changed p a then S calls else calls) in
  let pickSP := linked (context w) (createPickVertexShaderSource vs)
                  (createPickFragmentShaderSource fs "varying")
                  (S (if appearance_changed p a then S calls else calls)) in
  state p = COMPLETE ->
  early_exit p frameState = false ->
  appearance p = Some a ->
  appearance_changed p a || material_changed p a = true ->
  _attributeIndices p = Some attributeIndices ->
  appendShow p (createColumbusViewShader p (ap_vertexShaderSource a)) = Return vs ->
  validate_programs (Some sp) (Some pickSP) attributeIndices = Throw e ->
  commands_paired w ->
  queue_writes p (_dirtyAttributes p) = Some writes ->
  let r := update taskProcessor frameState commandList w in
  let r' := update taskProcessor frameState commandList' r.2 in
  r.1 = Throw e
  /\ _commandLists (this r.2) = _commandLists p
  /\ ctx_calls (context r.2) = ctx_calls (context w) ++ shading_calls a vs p
  /\ r'.1 = Return (commandList'
                    ++ [placed_commands (modelMatrix p)
                          (select_boundingSphere frameState p) (_commandLists p)])
  /\ ctx_calls (context r'.2) = ctx_calls (context r.2) ++ writes.
Proof.
  intros p fs calls sp pickSP Hstate Hexit Ha Hchanged Hai Hvs Hthrow Hpaired Hwrites r r'.
  subst p.
  assert (Hrun : update_appearance w = (Throw e, relinked a vs w)).
  { rewrite (update_appearance_outcome Ha Hchanged Hai Hvs Hpaired).
    rewrite validate_programs_relinked.
    unfold validate_programs, sp, pickSP, calls, fs in Hthrow. rewrite Hthrow.
    reflexivity. }
  assert (Hr : r = (Throw e, relinked a vs w)).
  { subst r. rewrite (update_COMPLETE taskProcessor commandList Hstate Hexit).
    unfold steady_state. erewrite bind_Throw by exact Hrun. reflexivity. }
  assert (Hq : queue_writes (this (relinked a vs w))
                 (_dirtyAttributes (this (relinked a vs w))) = Some writes).
  { rewrite <- Hwrites. exact (queue_writes_relinked a vs w). }
  destruct (@update_steady_run taskProcessor frameState commandList' (relinked a vs w) a
              writes Hstate Hexit Ha eq_refl eq_refl Hq Hpaired)
    as (table & Hrun2 & _).
  subst r'. rewrite Hr. cbn [fst snd]. rewrite Hrun2. cbn [fst snd].
  repeat split; reflexivity.
Qed.

Lemma shader_mismatch_reported_once_witness :
  state (this Shading.w_mismatch) = COMPLETE
  /\ (update Sample.accept (Sample.frameState SCENE3D) [] Shading.w_mismatch).1
     = Throw (DeveloperError (mismatch_message "st"))
  /\ (update Sample.accept (Sample.frameState SCENE3D) []
        (update Sample.accept (Sample.frameState SCENE3D) [] Shading.w_mismatch).2).1
     = Return [placed_commands (modelMatrix (this Shading.w_mismatch))
                 (select_boundingSphere (Sample.frameState SCENE3D)
                    (this Shading.w_mismatch))
                 (_commandLists (this Shading.w_mismatch))].
Proof.
  assert (H1 : state (this Shading.w_mismatch) = COMPLETE) by (vm_compute; reflexivity).
  assert (H2 : early_exit (this Shading.w_mismatch) (Sample.frameState SCENE3D) = false)
    by (vm_compute; reflexivity).
  assert (H3 : appearance (this Shading.w_mismatch) = Some Shading.textured)
    by (vm_compute; reflexivity).
  assert (H4 : appearance_changed (this Shading.w_mismatch) Shading.textured
               || material_changed (this Shading.w_mismatch) Shading.textured = true)
    by (vm_compute; reflexivity).
  assert (H5 : _attributeIndices (this Shading.w_mismatch) = Some {[ "position" := 0 ]})
    by (vm_compute; reflexivity).
  assert (H6 : appendShow (this Shading.w_mismatch)
                 (createColumbusViewShader (this Shading.w_mismatch)
                    (ap_vertexShaderSource Shading.textured))
               = Return (ColumbusViewShader false (SourceText "vs2")))
    by (vm_compute; reflexivity).
  assert (H9 : commands_paired Shading.w_mismatch) by (vm_compute; reflexivity).
  assert (H10 : queue_writes (this Shading.w_mismatch)
                  (_dirtyAttributes (this Shading.w_mismatch)) = Some [])
    by (vm_compute; reflexivity).
  split; [exact H1|].
  destruct (@shader_mismatch_reported_once Sample.accept (Sample.frameState SCENE3D) [] []
              Shading.w_mismatch Shading.textured {[ "position" := 0 ]}
              (ColumbusViewShader false (SourceText "vs2"))
              (DeveloperError (mismatch_message "st")) []
              H1 H2 H3 H4 H5 H6 ltac:(vm_compute; reflexivity) H9 H10)
    as (Hthrows & _ & _ & Hnext & _).
  split; [exact Hthrows | exact Hnext].
Defined.

(** ** What the primitive draws *)

Lemma set__vaAttributes_same p : set__vaAttributes (_vaAttributes p) p = p.
Proof. destruct p; reflexivity. Qed.

(** Whatever its outcome, the first loop of the COMBINED branch changes
    only the vertex array attributes and the context; when it returns, it
    has made one vertex array for each geometry. *)
Lemma create_vertex_arrays_outcome geometries : forall i attributeIndices va w,
  match create_vertex_arrays i geometries attributeIndices va w with
  | (r, w') =>
      (exists vaAttributes' c',
          w' = {| this := set__vaAttributes vaAttributes' (this w);
                  context := c'; callbacks := callbacks w |})
      /\ forall va', r = Return va' -> length va' = length va + length geometries
  end.
Proof.
  induction geometries as [|geometry rest IH]; intros i attributeIndices va w.
  - simpl. split.
    + exists (_vaAttributes (this w)), (context w).
      rewrite set__vaAttributes_same. destruct w; reflexivity.
    + intros va' [= <-]. lia.
  - assert (Hsame : exists vaAttributes' c',
               w = {| this := set__vaAttributes vaAttributes' (this w);
                      context := c'; callbacks := callbacks w |}).
    { exists (_vaAttributes (this w)), (context w).
      rewrite set__vaAttributes_same. destruct w; reflexivity. }
    cbn [create_vertex_arrays]. unfold bind at 1. unfold get at 1.
    destruct (_vaAttributes (this w)) as [vaAttributes|];
      [|split; [exact Hsame | discriminate]].
    unfold bind at 1. cbn [defined ret]. unfold bind at 1.
    destruct (vaAttributes !! i) as [attributes|];
      [|split; [exact Hsame | discriminate]].
    cbn [defined ret]. unfold bind at 1. rewrite create_vertex_buffers_run.
    unfold bind at 1. unfold assign at 1. unfold bind at 1. unfold call at 1.
    match goal with
    | |- context [create_vertex_arrays (S i) rest attributeIndices ?va1 ?w1] =>
        specialize (IH (S i) attributeIndices va1 w1);
        destruct (create_vertex_arrays (S i) rest attributeIndices va1 w1) as [r w']
    end.
    destruct IH as [(v & c & Hworld) Hlength]. split.
    + exists v, c. rewrite Hworld. reflexivity.
    + intros va' Hva'. rewrite (Hlength va' Hva'), length_app. simpl. lia.
Qed.

Lemma create_commands_exact geometries : forall i w,
  for_each_from i geometries (fun i geometry =>
    bind (get _va) (fun va =>
    bind (get _commandLists) (fun commandLists =>
    assign (set__commandLists
              {| colorList := colorList commandLists
                              ++ [new_DrawCommand (g_primitiveType geometry) (va !! i)];
                 pickList := pickList commandLists
                             ++ [new_DrawCommand (g_primitiveType geometry) (va !! i)] |}))))
    w
  = (Return tt,
     with_commands
       (colorList (_commandLists (this w)) ++ new_commands (_va (this w)) i geometries)
       (pickList (_commandLists (this w)) ++ new_commands (_va (this w)) i geometries) w).
Proof.
  induction geometries as [|geometry rest IH]; intros i w.
  - simpl. unfold ret, new_commands. simpl. rewrite !app_nil_r, with_commands_same.
    reflexivity.
  - cbn [for_each_from]. run_step. rewrite IH.
    unfold with_commands, new_commands.
    cbn [this set_this _commandLists set__commandLists colorList pickList _va imap].
    rewrite Nat.add_0_r, <- !app_assoc. cbn [app].
    assert (Himap : imap (fun j geometry0 =>
                            new_DrawCommand (g_primitiveType geometry0)
                              (_va (this w) !! (S i + j))) rest
                    = imap ((fun j geometry0 =>
                               new_DrawCommand (g_primitiveType geometry0)
                                 (_va (this w) !! (i + j))) ∘ S) rest).
    { apply imap_ext. intros j g _. simpl. f_equal. f_equal. lia. }
    rewrite Himap. reflexivity.
Qed.

Lemma drawn_new_commands geometries : forall va,
  length va = length geometries ->
  drawn (new_commands va 0 geometries) = commands_of geometries va.
Proof.
  unfold drawn, new_commands, commands_of.
  induction geometries as [|geometry rest IH]; intros va Hlen; [reflexivity|].
  destruct va as [|v va]; [discriminate|]. simpl in Hlen.
  rewrite imap_cons, fmap_cons. cbn [zip_with]. f_equal.
  rewrite <- IH by lia. reflexivity.
Qed.

(** The outcomes of the COMBINED branch.  It throws before it has changed
    anything, or after it has assigned the bounding spheres and some vertex
    array attributes; or it returns with one vertex array and one pair of
    commands for each geometry. *)
Lemma COMBINED_branch_outcome frameState w :
  match COMBINED_branch frameState w with
  | (Return _, w') =>
      exists first rest va,
        _geometries (this w) = Some (first :: rest)
        /\ length va = length (first :: rest)
        /\ rendering w'
           = rendering
               (set_this
                  (set_state COMPLETE
                     (set__commandLists
                        {| colorList :=
                             colorList
                               (_commandLists
                                  (with_spheres (scene2D_projection frameState) first
                                     (this w)))
                             ++ new_commands va 0 (first :: rest);
                           pickList :=
                             pickList
                               (_commandLists
                                  (with_spheres (scene2D_projection frameState) first
                                     (this w)))
                             ++ new_commands va 0 (first :: rest) |}
                        (set__va va
                           (with_spheres (scene2D_projection frameState) first (this w)))))
                  w)
  | (Throw _, w') =>
      w' = w
      \/ exists first rest,
           _geometries (this w) = Some (first :: rest)
           /\ rendering w'
              = rendering
                  (set_this (with_spheres (scene2D_projection frameState) first (this w)) w)
  end.
Proof.
  unfold COMBINED_branch.
  run_step. run_step.
  destruct (_geometries (this w)) as [[|first rest]|] eqn:Hg;
    [left; reflexivity| |left; reflexivity].
  run_step. run_step. run_step. run_step.
  set (w1 := set_this (set__boundingSphere (g_boundingSphere first) (this w)) w).
  erewrite (@bind_Return _ _ _ _ _ tt
              (set_this (with_spheres (scene2D_projection frameState) first (this w)) w)).
  2:{ unfold with_spheres. cbv zeta.
      change (set__boundingSphere (g_boundingSphere first) (this w)) with (this w1).
      destruct (_boundingSphere (this w1)) as [sphere|];
        [destruct (negb (_allow3DOnly (this w1)))|]; reflexivity. }
  clear w1.
  set (w2 := set_this (with_spheres (scene2D_projection frameState) first (this w)) w).
  unfold bind at 1.
  pose proof (create_vertex_arrays_outcome (first :: rest) 0 (_attributeIndices (this w))
                [] w2) as Houtcome.
  destruct (create_vertex_arrays 0 (first :: rest) (_attributeIndices (this w)) [] w2)
    as [[va|e] w3]; destruct Houtcome as [(v & c & ->) Hlength].
  - run_step. unfold create_commands, for_each.
    erewrite bind_Return by apply create_commands_exact. cbv beta.
    run_step.
    match goal with
    | |- context [if _releaseGeometryInstances ?p then _ else _] =>
        destruct (_releaseGeometryInstances p)
    end;
      (run_step; run_step; unfold assign; cbv beta iota;
       exists first, rest, va; split; [reflexivity|];
       split; [exact (Hlength va eq_refl) | reflexivity]).
  - right. exists first, rest. split; reflexivity.
Qed.

Lemma with_spheres_rendering projection first w :
  rendering (set_this (with_spheres projection first (this w)) w)
  = {| r_state := state (this w);
       r_geometries := _geometries (this w);
       r_va := _va (this w);
       r_color := drawn (colorList (_commandLists (this w)));
       r_pick := drawn (pickList (_commandLists (this w)));
       r_boundingSphere := g_boundingSphere first;
       r_boundingSphere2D :=
         match g_boundingSphere first with
         | Some sphere =>
             if _allow3DOnly (this w) then _boundingSphere2D (this w)
             else Some (ProjectTo2D sphere (proj_ellipsoid projection))
         | None => _boundingSphere2D (this w)
         end;
       r_allow3DOnly := _allow3DOnly (this w) |}.
Proof.
  unfold rendering, with_spheres. cbn [this set_this].
  change (_boundingSphere (set__boundingSphere (g_boundingSphere first) (this w)))
    with (g_boundingSphere first).
  change (_allow3DOnly (set__boundingSphere (g_boundingSphere first) (this w)))
    with (_allow3DOnly (this w)).
  destruct (g_boundingSphere first) as [sphere|]; [|reflexivity].
  destruct (_allow3DOnly (this w)) eqn:Hallow; cbn [negb];
    cbn [state _geometries _va _commandLists _boundingSphere _boundingSphere2D
           _allow3DOnly set__boundingSphere2D set__boundingSphere];
    rewrite ?Hallow; reflexivity.
Qed.

Lemma with_spheres_commandLists projection first p :
  _commandLists (with_spheres projection first p) = _commandLists p
  /\ _va (with_spheres projection first p) = _va p.
Proof.
  unfold with_spheres. cbv zeta.
  change (_boundingSphere (set__boundingSphere (g_boundingSphere first) p))
    with (g_boundingSphere first).
  destruct (g_boundingSphere first) as [sphere|]; [|split; reflexivity].
  destruct (negb (_allow3DOnly (set__boundingSphere (Some sphere) p))); split; reflexivity.
Qed.

Lemma spheres_of_with_spheres projection first w :
  r_boundingSphere2D (rendering w) = None \/ spheres_of first (rendering w) ->
  spheres_of first (rendering (set_this (with_spheres projection first (this w)) w)).
Proof.
  intros Hbefore. rewrite with_spheres_rendering. unfold spheres_of.
  cbn [r_boundingSphere r_boundingSphere2D r_allow3DOnly]. split; [reflexivity|].
  assert (H2D : (g_boundingSphere first = None \/ _allow3DOnly (this w) = true) ->
                _boundingSphere2D (this w) = None).
  { intros Hcase. destruct Hbefore as [Hnone | [_ Hspheres]]; [exact Hnone|].
    cbn [rendering r_boundingSphere2D r_allow3DOnly] in Hspheres.
    destruct Hcase as [Hcase | Hcase]; rewrite Hcase in Hspheres.
    - exact Hspheres.
    - destruct (g_boundingSphere first); exact Hspheres. }
  destruct (g_boundingSphere first) as [sphere|]; [|apply H2D; left; reflexivity].
  destruct (_allow3DOnly (this w)); [apply H2D; right; reflexivity|].
  eexists. reflexivity.
Qed.

Section KeepsRendering.

Variable g : DrawCommand -> DrawCommand.

Hypothesis g_drawn : forall command,
  dc_primitiveType (g command) = dc_primitiveType command
  /\ dc_vertexArray (g command) = dc_vertexArray command.

Lemma drawn_insert commands i command :
  commands !! i = Some command -> drawn (<[i := g command]> commands) = drawn commands.
Proof.
  intros H. unfold drawn. rewrite list_fmap_insert. apply list_insert_id.
  rewrite list_lookup_fmap, H. cbn [fmap option_fmap option_map].
  destruct (g_drawn command) as [-> ->]. reflexivity.
Qed.

Lemma modify_colorCommand_rendering i : keeps rendering (modify_colorCommand i g).
Proof.
  intros w. unfold modify_colorCommand, bind, get, defined.
  destruct (colorList (_commandLists (this w)) !! i) as [command|] eqn:H; [|reflexivity].
  cbn [ret assign snd]. unfold rendering.
  cbn [this set_this _commandLists set__commandLists colorList pickList].
  rewrite (drawn_insert H). reflexivity.
Qed.

Lemma modify_pickCommand_rendering i : keeps rendering (modify_pickCommand i g).
Proof.
  intros w. unfold modify_pickCommand, bind, get, defined.
  destruct (pickList (_commandLists (this w)) !! i) as [command|] eqn:H; [|reflexivity].
  cbn [ret assign snd]. unfold rendering.
  cbn [this set_this _commandLists set__commandLists colorList pickList].
  rewrite (drawn_insert H). reflexivity.
Qed.

End KeepsRendering.

Lemma store_record_rendering ref record w :
  rendering (set_this (store_record ref record (this w)) w) = rendering w.
Proof.
  destruct (store_record_table ref record (this w)) as [table ->]. reflexivity.
Qed.

Lemma update_appearance_rendering : keeps rendering update_appearance.
Proof.
  unfold update_appearance.
  repeat first
    [ apply modify_colorCommand_rendering; intros ?; split; reflexivity
    | apply modify_pickCommand_rendering; intros ?; split; reflexivity
    | apply keeps_assign; intros ?; reflexivity
    | keeps_step ].
Qed.

Lemma update_perInstanceAttributes_rendering : keeps rendering update_perInstanceAttributes.
Proof.
  unfold update_perInstanceAttributes, flush_attribute, flush_range.
  repeat first
    [ apply keeps_assign; intros ?; apply store_record_rendering
    | apply keeps_assign; intros ?; reflexivity
    | keeps_step ].
Qed.

Lemma update_commands_rendering boundingSphere :
  keeps rendering (update_commands boundingSphere).
Proof.
  unfold update_commands.
  repeat first
    [ apply modify_colorCommand_rendering; intros ?; split; reflexivity
    | apply modify_pickCommand_rendering; intros ?; split; reflexivity
    | keeps_step ].
Qed.

Lemma steady_state_rendering frameState commandList :
  keeps rendering (steady_state frameState commandList).
Proof.
  unfold steady_state.
  repeat first
    [ apply update_appearance_rendering
    | apply update_perInstanceAttributes_rendering
    | apply update_commands_rendering
    | keeps_step ].
Qed.

Lemma getGeometryInstanceAttributes_rendering id :
  keeps rendering (getGeometryInstanceAttributes id).
Proof.
  unfold getGeometryInstanceAttributes.
  repeat first [ apply keeps_assign; intros ?; reflexivity | keeps_step ].
Qed.

Lemma createSetFunction_rendering name perInstanceAttributes value :
  keeps rendering (createSetFunction name perInstanceAttributes value).
Proof.
  unfold createSetFunction.
  repeat first
    [ apply keeps_assign; intros ?; apply store_record_rendering
    | apply keeps_assign; intros ?; reflexivity
    | keeps_step ].
Qed.

Lemma coherent_rendering w w' : rendering w' = rendering w -> coherent w -> coherent w'.
Proof. unfold coherent. intros ->. auto. Qed.

Lemma drawn_app commands1 commands2 :
  drawn (commands1 ++ commands2) = drawn commands1 ++ drawn commands2.
Proof. unfold drawn. apply fmap_app. Qed.

Lemma update_coherent taskProcessor frameState commandList w :
  coherent w -> coherent (update taskProcessor frameState commandList w).2.
Proof.
  intros Hc.
  destruct (early_exit (this w) frameState) eqn:Hexit.
  { rewrite (update_when_early_exit taskProcessor commandList Hexit). exact Hc. }
  destruct (state (this w)) eqn:Hstate.
  - (* READY *)
    destruct (geometryInstances (this w)) as [geometryInstances0|] eqn:Hgi.
    + rewrite (update_READY taskProcessor commandList Hstate Hexit Hgi).
      unfold coherent in Hc. cbn [rendering r_state] in Hc. rewrite Hstate in Hc.
      destruct (scheduled taskProcessor frameState geometryInstances0 w).
      * unfold coherent. exact Hc.
      * unfold coherent. cbn [snd rendering r_state with_pick_ids this state set__pickIds].
        rewrite Hstate. exact Hc.
    + rewrite (update_READY_undefined taskProcessor commandList Hstate Hexit Hgi).
      exact Hc.
  - (* COMBINING *)
    rewrite (update_waiting taskProcessor frameState commandList (or_introl Hstate)).
    exact Hc.
  - (* COMBINED *)
    pose proof (COMBINED_branch_state_after frameState w) as Hafter.
    pose proof (COMBINED_branch_outcome frameState w) as Houtcome.
    assert (Hupdate : update taskProcessor frameState commandList w
                      = match COMBINED_branch frameState w with
                        | (Return _, w1) => steady_state frameState commandList w1
                        | (Throw e, w1) => (Throw e, w1)
                        end).
    { unfold update. run_step. rewrite Hexit, Hstate.
      unfold bind at 1. unfold bind at 1.
      destruct (COMBINED_branch frameState w) as [[[]|e] w1]; [|reflexivity].
      unfold ret at 1. cbv beta iota. run_step.
      assert (Hs : state (this w1) = COMPLETE) by exact (f_equal fst Hafter).
      rewrite Hs. reflexivity. }
    rewrite Hupdate. clear Hupdate Hafter.
    unfold coherent in Hc. cbn [rendering r_state] in Hc. rewrite Hstate in Hc.
    destruct Hc as [(Hva & Hcolor & Hpick) Hspheres].
    cbn [rendering r_va r_color r_pick] in Hva, Hcolor, Hpick.
    assert (Hbefore : forall first rest,
               _geometries (this w) = Some (first :: rest) ->
               r_boundingSphere2D (rendering w) = None \/ spheres_of first (rendering w)).
    { intros first rest Hg.
      destruct Hspheres as [[_ Hnone] | (first' & rest' & Hg' & Hs)]; [left; exact Hnone|].
      cbn [rendering r_geometries] in Hg'. rewrite Hg in Hg'. injection Hg' as <- <-.
      right. exact Hs. }
    destruct (COMBINED_branch frameState w) as [[[]|e] w1].
    + destruct Houtcome as (first & rest & va & Hg & Hlen & Hrendering).
      pose proof (with_spheres_rendering (scene2D_projection frameState) first w) as Hws.
      pose proof (spheres_of_with_spheres (scene2D_projection frameState)
                    (Hbefore first rest Hg)) as Hs.
      destruct (with_spheres_commandLists (scene2D_projection frameState) first (this w))
        as [Hcl _].
      eapply coherent_rendering.
      { rewrite (steady_state_rendering frameState commandList w1). exact Hrendering. }
      unfold coherent.
      cbn [rendering r_state r_geometries r_va r_color r_pick this set_this state
             set_state _geometries set__commandLists _va set__va _commandLists
             colorList pickList].
      exists first, rest.
      split; [rewrite <- Hg; exact (f_equal r_geometries Hws)|].
      split; [exact Hlen|].
      rewrite !drawn_app, Hcl, Hcolor, Hpick, (drawn_new_commands Hlen).
      split; [reflexivity|]. split; [reflexivity|]. exact Hs.
    + destruct Houtcome as [-> | (first & rest & Hg & Hrendering)].
      * unfold coherent. cbn [snd rendering r_state]. rewrite Hstate.
        split; [repeat split; assumption | exact Hspheres].
      * pose proof (with_spheres_rendering (scene2D_projection frameState) first w) as Hws.
        pose proof (spheres_of_with_spheres (scene2D_projection frameState)
                      (Hbefore first rest Hg)) as Hs.
        eapply coherent_rendering; [exact Hrendering|].
        unfold coherent. rewrite Hws in Hs |- *. cbn [r_state]. rewrite Hstate.
        split.
        -- repeat split; assumption.
        -- right. exists first, rest. split; [exact Hg | exact Hs].
  - (* COMPLETE *)
    rewrite (update_COMPLETE taskProcessor commandList Hstate Hexit).
    exact (coherent_rendering (steady_state_rendering frameState commandList w) Hc).
  - (* FAILED *)
    rewrite (update_waiting taskProcessor frameState commandList (or_intror Hstate)).
    exact Hc.
Qed.

Lemma perform_coherent op w : awaiting w -> coherent w -> coherent (perform op w).
Proof.
  intros Hawait Hc.
  destruct op as [tp fs cl|id|name i|name i value| |promise result|promise];
    cbn [perform].
  - apply update_coherent. exact Hc.
  - exact (coherent_rendering (getGeometryInstanceAttributes_rendering id w) Hc).
  - rewrite createGetFunction_pure. exact Hc.
  - exact (coherent_rendering (createSetFunction_rendering name i value w) Hc).
  - exact Hc.
  - destruct (settle_lifecycle promise (on_combined result) Hawait)
      as [-> | (Hstate & Hthis & _)]; [exact Hc|].
    unfold coherent, rendering in Hc |- *. rewrite Hthis.
    cbn [r_state] in Hc |- *. rewrite Hstate in Hc.
    cbn [on_combined state set_state]. destruct Hc as [Hunrendered Hnone].
    split; [exact Hunrendered | left; exact Hnone].
  - destruct (settle_lifecycle promise on_failed Hawait)
      as [-> | (Hstate & Hthis & _)]; [exact Hc|].
    unfold coherent, rendering in Hc |- *. rewrite Hthis.
    cbn [r_state] in Hc |- *. rewrite Hstate in Hc. exact Hc.
Qed.

Lemma reachable_coherent w : reachable w -> coherent w.
Proof.
  induction 1 as [options c | op w Hreach IH].
  - unfold coherent. cbn. repeat split; reflexivity.
  - apply perform_coherent; [exact (reachable_awaiting Hreach) | exact IH].
Qed.

Lemma length_commands_of geometries va :
  length va = length geometries -> length (commands_of geometries va) = length va.
Proof. intros H. unfold commands_of. rewrite length_zip_with. lia. Qed.

Lemma reachable_commands_paired w : reachable w -> commands_paired w.
Proof.
  intros Hreach. pose proof (reachable_coherent Hreach) as Hc.
  unfold coherent, unrendered in Hc.
  cbn [rendering r_state r_geometries r_va r_color r_pick] in Hc.
  assert (Hdrawn : drawn (colorList (_commandLists (this w)))
                   = drawn (pickList (_commandLists (this w)))).
  { destruct (state (this w)).
    - destruct Hc as [(_ & -> & ->) _]. reflexivity.
    - destruct Hc as [(_ & -> & ->) _]. reflexivity.
    - destruct Hc as [(_ & -> & ->) _]. reflexivity.
    - destruct Hc as (first & rest & _ & _ & -> & -> & _). reflexivity.
    - destruct Hc as [(_ & -> & ->) _]. reflexivity. }
  unfold commands_paired. apply (f_equal length) in Hdrawn. unfold drawn in Hdrawn.
  rewrite !length_fmap in Hdrawn. exact Hdrawn.
Qed.

(** X9. In every world a primitive can be in, the commands are those of
    the merged geometries.  Outside the COMPLETE state there is no vertex
    array and no command.  In the COMPLETE state the merged geometries are
    still held and are not empty, there is one vertex array for each of
    them, and the color command and the pick command at each position draw
    the geometry at that position: they have its primitive type and its
    vertex array.  Nothing an update assigns to the commands later changes
    that. *)
Theorem commands_of_merged_geometries (w : World) :
  reachable w ->
  (state (this w) <> COMPLETE ->
   _va (this w) = []
   /\ colorList (_commandLists (this w)) = []
   /\ pickList (_commandLists (this w)) = [])
  /\ (state (this w) = COMPLETE ->
      exists geometries,
        _geometries (this w) = Some geometries
        /\ geometries <> []
        /\ length (_va (this w)) = length geometries
        /\ drawn (colorList (_commandLists (this w))) = commands_of geometries (_va (this w))
        /\ drawn (pickList (_commandLists (this w))) = commands_of geometries (_va (this w))).
Proof.
  intros Hreach. pose proof (reachable_coherent Hreach) as Hc.
  unfold coherent, unrendered in Hc.
  cbn [rendering r_state r_geometries r_va r_color r_pick] in Hc.
  split.
  - intros Hstate.
    assert (Hunrendered : _va (this w) = []
                          /\ drawn (colorList (_commandLists (this w))) = []
                          /\ drawn (pickList (_commandLists (this w))) = []).
    { destruct (state (this w)); try (destruct Hc as [Hu _]; exact Hu).
      exfalso. apply Hstate. reflexivity. }
    destruct Hunrendered as (Hva & Hcolor & Hpick).
    split; [exact Hva|].
    split; [exact (fmap_nil_inv _ _ Hcolor) | exact (fmap_nil_inv _ _ Hpick)].
  - intros Hstate. rewrite Hstate in Hc.
    destruct Hc as (first & rest & Hg & Hlen & Hcolor & Hpick & _).
    exists (first :: rest).
    split; [exact Hg|]. split; [discriminate|]. split; [exact Hlen|].
    split; [exact Hcolor | exact Hpick].
Qed.

Lemma commands_of_merged_geometries_witness :
  reachable Sample.w3
  /\ state (this Sample.w3) = COMPLETE
  /\ exists geometries,
       _geometries (this Sample.w3) = Some geometries
       /\ drawn (colorList (_commandLists (this Sample.w3)))
          = commands_of geometries (_va (this Sample.w3)).
Proof.
  assert (H : reachable Sample.w3).
  { unfold Sample.w3, Sample.w2, Sample.w1. repeat apply reachable_perform.
    apply reachable_new. }
  assert (Hstate : state (this Sample.w3) = COMPLETE) by (vm_compute; reflexivity).
  split; [exact H|]. split; [exact Hstate|].
  destruct (commands_of_merged_geometries H) as [_ Hcomplete].
  destruct (Hcomplete Hstate) as (geometries & Hg & _ & _ & Hcolor & _).
  exists geometries. split; [exact Hg | exact Hcolor].
Defined.

(** X10. The bounding volume given to the commands is decided by the
    first merged geometry.  For a COMPLETE primitive a primitive can reach,
    and a frame that passes the early-exit test, the selected volume is
    undefined exactly when the first merged geometry has no bounding sphere;
    otherwise it is that sphere in 3D, its projection in Columbus view, the
    projection with centre x set to zero in 2D, and the union of the two
    while morphing. *)
Theorem bounding_volume_of_first_geometry (w : World) (frameState : FrameState) :
  reachable w ->
  state (this w) = COMPLETE ->
  early_exit (this w) frameState = false ->
  exists first rest,
    _geometries (this w) = Some (first :: rest)
    /\ match g_boundingSphere first with
       | None => select_boundingSphere frameState (this w) = None
       | Some sphere =>
           exists ellipsoid,
             select_boundingSphere frameState (this w)
             = Some match mode frameState with
                    | SCENE3D => sphere
                    | COLUMBUS_VIEW => ProjectTo2D sphere ellipsoid
                    | SCENE2D => CenterXZero (ProjectTo2D sphere ellipsoid)
                    | MORPHING => Union sphere (ProjectTo2D sphere ellipsoid)
                    end
       end.
Proof.
  intros Hreach Hstate Hexit. pose proof (reachable_coherent Hreach) as Hc.
  unfold coherent, spheres_of in Hc. cbn [rendering r_state r_geometries] in Hc.
  rewrite Hstate in Hc.
  destruct Hc as (first & rest & Hg & _ & _ & _ & Hsphere & Hspheres).
  cbn [rendering r_boundingSphere r_boundingSphere2D r_allow3DOnly] in Hsphere, Hspheres.
  exists first, rest. split; [exact Hg|].
  assert (Hallow : mode frameState <> SCENE3D -> _allow3DOnly (this w) = false).
  { intros Hmode. unfold early_exit in Hexit.
    apply orb_false_iff in Hexit as [Hexit _].
    apply orb_false_iff in Hexit as [_ Hexit].
    apply andb_false_iff in Hexit as [Hexit | Hexit]; [|exact Hexit].
    apply negb_false_iff, bool_decide_eq_true in Hexit. contradiction. }
  unfold select_boundingSphere. rewrite Hsphere.
  destruct (g_boundingSphere first) as [sphere|].
  - destruct (_allow3DOnly (this w)) eqn:Hallow3D.
    + assert (Hmode : mode frameState = SCENE3D).
      { destruct (decide (mode frameState = SCENE3D)) as [E|Hne]; [exact E|].
        specialize (Hallow Hne). congruence. }
      rewrite Hmode. exists 0. reflexivity.
    + destruct Hspheres as [ellipsoid ->]. exists ellipsoid.
      destruct (mode frameState); reflexivity.
  - rewrite Hspheres. destruct (mode frameState); reflexivity.
Qed.

Lemma bounding_volume_of_first_geometry_witness :
  reachable Sample.w3
  /\ state (this Sample.w3) = COMPLETE
  /\ early_exit (this Sample.w3) (Sample.frameState MORPHING) = false
  /\ exists ellipsoid,
       select_boundingSphere (Sample.frameState MORPHING) (this Sample.w3)
       = Some (Union (Sphere 0) (ProjectTo2D (Sphere 0) ellipsoid)).
Proof.
  assert (H : reachable Sample.w3).
  { unfold Sample.w3, Sample.w2, Sample.w1. repeat apply reachable_perform.
    apply reachable_new. }
  assert (Hstate : state (this Sample.w3) = COMPLETE) by (vm_compute; reflexivity).
  assert (Hexit : early_exit (this Sample.w3) (Sample.frameState MORPHING) = false)
    by (vm_compute; reflexivity).
  split; [exact H|]. split; [exact Hstate|]. split; [exact Hexit|].
  destruct (bounding_volume_of_first_geometry H Hstate Hexit)
    as (first & rest & Hg & Hvolume).
  assert (Hfirst : first = Sample.geometry).
  { assert (Hg' : _geometries (this Sample.w3) = Some [Sample.geometry])
      by (vm_compute; reflexivity).
    rewrite Hg' in Hg. injection Hg as <- _. reflexivity. }
  subst first. exact Hvolume.
Defined.

(** ** The transferable buffers *)

Lemma indexOf_absent l x : (indexOf l x <? 0)%Z = true <-> x ∉ l.
Proof.
  induction l as [|y rest IH]; simpl.
  - split; [intros _ H; inversion H | reflexivity].
  - destruct (decide (x = y)) as [->|Hne].
    + split; [discriminate | intros H; exfalso; apply H; left].
    + destruct (indexOf rest x <? 0)%Z eqn:E.
      * split; [|reflexivity]. intros _ H. apply elem_of_cons in H as [H|H];
          [contradiction|]. apply IH in H; [exact H | reflexivity].
      * split.
        -- intros H. apply Z.ltb_lt in H. apply Z.ltb_ge in E. lia.
        -- intros H. exfalso. assert (Hrest : x ∉ rest).
           { intros Hin. apply H. right. exact Hin. }
           apply IH in Hrest. discriminate.
Qed.

Lemma collect_attribute_buffers_spec i attributes : forall t,
  NoDup t ->
  NoDup (collect_attribute_buffers i attributes t)
  /\ forall x, x ∈ collect_attribute_buffers i attributes t
               <-> x ∈ t \/ exists name attribute,
                              x = AttributeBuffer i name
                              /\ (name, Some attribute) ∈ attributes.
Proof.
  induction attributes as [|[name [attribute|]] rest IH]; intros t Hnodup; simpl.
  - split; [exact Hnodup|]. intros x. split; [auto|].
    intros [H | (name & attribute & _ & H)]; [exact H | inversion H].
  - destruct (indexOf t (AttributeBuffer i name) <? 0)%Z eqn:E.
    + apply indexOf_absent in E.
      assert (Hnodup' : NoDup (t ++ [AttributeBuffer i name])).
      { apply NoDup_app. split; [exact Hnodup|]. split; [|apply NoDup_singleton].
        intros x Hx Hin. apply list_elem_of_singleton in Hin. subst x. exact (E Hx). }
      destruct (IH _ Hnodup') as [Hn Hmem]. split; [exact Hn|].
      intros x. rewrite Hmem, elem_of_app, list_elem_of_singleton. split.
      * intros [[H | ->] | (name' & attribute' & -> & H)].
        -- left. exact H.
        -- right. exists name, attribute. split; [reflexivity | left].
        -- right. exists name', attribute'. split; [reflexivity | right; exact H].
      * intros [H | (name' & attribute' & -> & H)]; [left; left; exact H|].
        apply elem_of_cons in H as [[= -> ->] | H].
        -- left. right. reflexivity.
        -- right. exists name', attribute'. split; [reflexivity | exact H].
    + assert (Hin : AttributeBuffer i name ∈ t).
      { destruct (decide (AttributeBuffer i name ∈ t)) as [H|H]; [exact H|].
        apply indexOf_absent in H. congruence. }
      destruct (IH _ Hnodup) as [Hn Hmem]. split; [exact Hn|].
      intros x. rewrite Hmem. split.
      * intros [H | (name' & attribute' & -> & H)]; [left; exact H|].
        right. exists name', attribute'. split; [reflexivity | right; exact H].
      * intros [H | (name' & attribute' & -> & H)]; [left; exact H|].
        apply elem_of_cons in H as [[= -> ->] | H]; [left; exact Hin|].
        right. exists name', attribute'. split; [reflexivity | exact H].
  - destruct (IH _ Hnodup) as [Hn Hmem]. split; [exact Hn|].
    intros x. rewrite Hmem. split.
    + intros [H | (name' & attribute' & -> & H)]; [left; exact H|].
      right. exists name', attribute'. split; [reflexivity | right; exact H].
    + intros [H | (name' & attribute' & -> & H)]; [left; exact H|].
      apply elem_of_cons in H as [Habs | H]; [discriminate Habs|].
      right. exists name', attribute'. split; [reflexivity | exact H].
Qed.

Lemma copy_instances_spec instances : forall i t,
  NoDup t ->
  (forall x, x ∈ t -> buffer_instance x < i) ->
  NoDup (copy_instances i instances t).2
  /\ forall x, x ∈ (copy_instances i instances t).2
               <-> x ∈ t \/ buffer_of i (copy_instances i instances t).1 x.
Proof.
  induction instances as [|instance rest IH]; intros i t Hnodup Hbelow.
  - simpl. split; [exact Hnodup|]. intros x. split; [auto|].
    intros [H | H]; [exact H|].
    destruct x as [j name | j]; simpl in H.
    + destruct H as (k & inst & attribute & _ & Habs & _). discriminate Habs.
    + destruct H as (k & inst & _ & Habs & _). discriminate Habs.
  - cbn [copy_instances]. cbv zeta.
    set (inst := cloneInstance instance).
    destruct (collect_attribute_buffers_spec i (g_attributes (gi_geometry inst)) Hnodup)
      as [Hnodup1 Hmem1].
    set (t1 := collect_attribute_buffers i (g_attributes (gi_geometry inst)) t) in *.
    set (t2 := match g_indices (gi_geometry inst) with
               | Some _ => t1 ++ [IndicesBuffer i]
               | None => t1
               end).
    assert (Hmem2 : forall x, x ∈ t2 <-> x ∈ t1 \/ (x = IndicesBuffer i
                                                   /\ g_indices (gi_geometry inst) <> None)).
    { intros x. unfold t2. destruct (g_indices (gi_geometry inst)).
      - rewrite elem_of_app, list_elem_of_singleton. split.
        + intros [H | ->]; [left; exact H | right; split; [reflexivity | discriminate]].
        + intros [H | [-> _]]; [left; exact H | right; reflexivity].
      - split; [auto|]. intros [H | [_ H]]; [exact H | contradiction]. }
    assert (Hnodup2 : NoDup t2).
    { unfold t2. destruct (g_indices (gi_geometry inst)); [|exact Hnodup1].
      apply NoDup_app. split; [exact Hnodup1|]. split; [|apply NoDup_singleton].
      intros x Hx Hin. apply list_elem_of_singleton in Hin. subst x.
      apply Hmem1 in Hx as [Hx | (name & attribute & Habs & _)]; [|discriminate Habs].
      apply Hbelow in Hx. simpl in Hx. lia. }
    assert (Hbelow2 : forall x, x ∈ t2 -> buffer_instance x < S i).
    { intros x Hx. apply Hmem2 in Hx as [Hx | [-> _]]; [|simpl; lia].
      apply Hmem1 in Hx as [Hx | (name & attribute & -> & _)]; [|simpl; lia].
      apply Hbelow in Hx. lia. }
    specialize (IH (S i) t2 Hnodup2 Hbelow2).
    destruct (copy_instances (S i) rest t2) as [insts t'].
    cbn [fst snd] in IH |- *. destruct IH as [Hn Hmem]. split; [exact Hn|].
    intros x. rewrite Hmem, Hmem2, Hmem1. clear Hmem Hmem2 Hmem1 Hn.
    split.
    + intros [[[H | (name & attribute & -> & H)] | [-> H]] | H].
      * left. exact H.
      * right. exists 0, inst, attribute. split; [lia|]. split; [reflexivity | exact H].
      * right. exists 0, inst. split; [lia|]. split; [reflexivity | exact H].
      * right. destruct x as [j name | j]; simpl in H |- *.
        -- destruct H as (k & inst' & attribute & -> & Hk & H).
           exists (S k), inst', attribute. split; [lia|]. split; [exact Hk | exact H].
        -- destruct H as (k & inst' & -> & Hk & H).
           exists (S k), inst'. split; [lia|]. split; [exact Hk | exact H].
    + intros [H | H]; [left; left; left; exact H|].
      destruct x as [j name | j]; simpl in H.
      * destruct H as ([|k] & inst' & attribute & -> & Hk & H).
        -- injection Hk as <-. left. left. right. exists name, attribute.
           split; [f_equal; lia | exact H].
        -- right. exists k, inst', attribute. split; [lia|]. split; [exact Hk | exact H].
      * destruct H as ([|k] & inst' & -> & Hk & H).
        -- injection Hk as <-. left. right. split; [f_equal; lia | exact H].
        -- right. exists k, inst'. split; [lia|]. split; [exact Hk | exact H].
Qed.

(** X11. The list of transferable objects that the dispatching update
    hands to the task processor, together with the combine message, names
    every buffer of the cloned instances exactly once: the values of each
    defined attribute of each clone, and the indices of each clone that has
    any, and nothing else. *)
Theorem transferable_buffers_exact (taskProcessor : TaskProcessor) (frameState : FrameState)
  (geometryInstances0 : GeometryInstances) (w : World) :
  let insts := map cloneInstance (instances_of geometryInstances0) in
  exists transferableObjects,
    scheduled taskProcessor frameState geometryInstances0 w
    = taskProcessor
        (combineGeometry (this w) (scene2D_projection frameState)
           (ctx_elementIndexUint (context w)) insts
           (map pick_color (new_pick_ids (length (ctx_calls (context w))) insts)))
        transferableObjects
    /\ NoDup transferableObjects
    /\ forall x, x ∈ transferableObjects <-> buffer_of 0 insts x.
Proof.
  cbv zeta. unfold scheduled.
  pose proof (copy_instances_clones 0 (instances_of geometryInstances0) []) as Hclones.
  destruct (@copy_instances_spec (instances_of geometryInstances0) 0 []
              (@NoDup_nil_2 BufferRef)) as [Hnodup Hmem].
  { intros x H. inversion H. }
  destruct (copy_instances 0 (instances_of geometryInstances0) []) as [insts t].
  cbn [fst snd] in Hclones, Hnodup, Hmem. subst insts.
  exists t. split; [reflexivity|]. split; [exact Hnodup|].
  intros x. rewrite Hmem. split; [|auto].
  intros [H | H]; [inversion H | exact H].
Qed.

(** ** The dirty flag and the dirty queue *)

Lemma createSetFunction_missing name perInstanceAttributes value w :
  lookup_record (perInstanceAttributes, name) (this w) = None ->
  (createSetFunction name perInstanceAttributes value w).2 = w.
Proof.
  intros Hnone. unfold createSetFunction.
  destruct value as [| | |elements]; try reflexivity.
  destruct ((length elements <? 1) || (4 <? length elements)); [reflexivity|].
  unfold bind at 1. unfold get at 1. rewrite Hnone. reflexivity.
Qed.

Lemma createSetFunction_queue_consistent name perInstanceAttributes value w :
  queue_consistent (this w) ->
  queue_consistent (this (createSetFunction name perInstanceAttributes value w).2).
Proof.
  intros [Hnodup Hqueue].
  destruct (InvalidArgument_dec value) as [Hinvalid | Hvalid].
  { destruct value as [| | |elements]; try (split; assumption).
    rewrite (createSetFunction_invalid name perInstanceAttributes w Hinvalid)
      by discriminate.
    split; assumption. }
  destruct (lookup_record (perInstanceAttributes, name) (this w)) as [record|] eqn:Hrecord.
  2:{ rewrite (createSetFunction_missing value Hrecord). split; assumption. }
  destruct value as [| | |elements];
    [exfalso; apply Hvalid; constructor | exfalso; apply Hvalid; constructor
    | exfalso; apply Hvalid; constructor |].
  assert (Hlen : 1 <= length elements <= 4).
  { destruct (decide (1 <= length elements <= 4)) as [H|H]; [exact H|].
    exfalso. apply Hvalid. constructor. lia. }
  destruct (createSetFunction_valid Hlen Hrecord) as (w' & Hrun & _ & _ & Hlookup & Hq).
  rewrite Hrun. cbn [snd]. set (ref := (perInstanceAttributes, name)) in *.
  assert (Hin : ref ∈ _dirtyAttributes (this w) <-> ar_dirty record = true).
  { rewrite Hqueue, Hrecord. simpl. split; [intros [= H]; exact H | intros ->; reflexivity]. }
  split.
  - rewrite Hq. destruct (ar_dirty record) eqn:Hdirty; [exact Hnodup|].
    apply NoDup_app. split; [exact Hnodup|]. split; [|apply NoDup_singleton].
    intros x Hx Hsingle. apply list_elem_of_singleton in Hsingle. subst x.
    apply Hin in Hx. discriminate Hx.
  - intros r. rewrite Hlookup, Hq.
    destruct (decide (r = ref)) as [->|Hne].
    + simpl. split; [reflexivity|]. intros _.
      destruct (ar_dirty record) eqn:Hdirty.
      * apply Hin. reflexivity.
      * apply elem_of_app. right. apply list_elem_of_singleton. reflexivity.
    + rewrite <- Hqueue. destruct (ar_dirty record); [reflexivity|].
      rewrite elem_of_app, list_elem_of_singleton. split; [|auto].
      intros [H | H]; [exact H | contradiction].
Qed.

Lemma getGeometryInstanceAttributes_queue id :
  keeps (fun w => (_dirtyAttributes (this w), _perInstanceAttributes (this w)))
    (getGeometryInstanceAttributes id).
Proof.
  unfold getGeometryInstanceAttributes.
  repeat first [ apply keeps_assign; intros ?; reflexivity | keeps_step ].
Qed.

(** X12. The dirty flag of an attribute record says whether the record
    is queued for the next flush.  If the queue holds no entry twice and
    holds exactly the records marked dirty, then this is still so after any
    assignment through an attribute setter, whether it returns or throws,
    after any lookup, and after an update in the steady state whose flush
    goes through, which moreover leaves the queue empty and every record
    clean. *)
Theorem dirty_flag_tracks_queue (w : World) :
  queue_consistent (this w) ->
  (forall name perInstanceAttributes value,
      queue_consistent (this (createSetFunction name perInstanceAttributes value w).2))
  /\ (forall id, queue_consistent (this (getGeometryInstanceAttributes id w).2))
  /\ (forall taskProcessor frameState commandList a writes,
        state (this w) = COMPLETE ->
        early_exit (this w) frameState = false ->
        appearance (this w) = Some a ->
        _appearance (this w) = Some (ap_identity a) ->
        _material (this w) = (mat_identity <$> ap_material a) ->
        queue_writes (this w) (_dirtyAttributes (this w)) = Some writes ->
        commands_paired w ->
        let w' := (update taskProcessor frameState commandList w).2 in
        _dirtyAttributes (this w') = []
        /\ (forall ref record, lookup_record ref (this w') = Some record ->
                               ar_dirty record = false)
        /\ queue_consistent (this w')).
Proof.
  intros Hconsistent. split; [|split].
  - intros name perInstanceAttributes value.
    apply createSetFunction_queue_consistent. exact Hconsistent.
  - intros id. pose proof (getGeometryInstanceAttributes_queue id w) as Hkeep.
    cbv beta in Hkeep. injection Hkeep as Hq Ht.
    destruct Hconsistent as [Hnodup Hqueue]. unfold queue_consistent. rewrite Hq.
    split; [exact Hnodup|]. intros ref.
    rewrite (lookup_record_ext ref Ht). apply Hqueue.
  - intros taskProcessor frameState commandList a writes
      Hstate Hexit Ha Hsame Hmaterial Hwrites Hpaired.
    destruct (update_steady_run taskProcessor commandList Hstate Hexit Ha Hsame Hmaterial
                Hwrites Hpaired) as (table & Hrun & Hlookup).
    cbv zeta. rewrite Hrun. cbn [snd this].
    assert (Hclean : forall ref record,
               lookup_record ref
                 (set__commandLists
                    (placed_commands (modelMatrix (this w))
                       (select_boundingSphere frameState (this w)) (_commandLists (this w)))
                    (set__dirtyAttributes [] (set__perInstanceAttributes table (this w))))
               = Some record ->
               ar_dirty record = false).
    { intros ref record Hrecord.
      change (lookup_record ref (set__perInstanceAttributes table (this w)) = Some record)
        in Hrecord.
      rewrite Hlookup in Hrecord. destruct Hconsistent as [_ Hqueue].
      destruct (decide (ref ∈ _dirtyAttributes (this w))) as [Hin|Hout].
      - destruct (lookup_record ref (this w)) as [record0|]; [|discriminate].
        injection Hrecord as <-. reflexivity.
      - destruct (ar_dirty record) eqn:Hdirty; [|reflexivity].
        exfalso. apply Hout. apply Hqueue. rewrite Hrecord. simpl. rewrite Hdirty.
        reflexivity. }
    split; [reflexivity|]. split; [exact Hclean|].
    split; [apply NoDup_nil_2|].
    intros ref. split; [intros H; inversion H|].
    destruct (lookup_record ref _) as [record|] eqn:Hrecord; [|discriminate].
    simpl. rewrite (Hclean ref record Hrecord). discriminate.
Qed.

Lemma dirty_flag_tracks_queue_witness :
  queue_consistent (this Sample.w3)
  /\ queue_consistent
       (this (createSetFunction "color" 0 (VArray [9; 9; 9; 9]%Z) Sample.w3).2).
Proof.
  assert (Hqueue : _dirtyAttributes (this Sample.w3) = []) by (vm_compute; reflexivity).
  assert (Htable : _perInstanceAttributes (this Sample.w3)
                   = Some {| pia_ids := Some [IdString "a"; IdUndefined];
                             pia_indices := Some [{[ "color" := Sample.colorOfA ]}; ∅] |})
    by (vm_compute; reflexivity).
  assert (H : queue_consistent (this Sample.w3)).
  { unfold queue_consistent. rewrite Hqueue. split; [apply NoDup_nil_2|].
    intros [i name]. split; [intros Hin; inversion Hin|].
    rewrite (lookup_record_table i name Htable eq_refl).
    destruct i as [|[|i]]; simpl.
    - destruct (decide (name = "color")) as [->|Hne].
      + rewrite lookup_singleton_eq. discriminate.
      + rewrite lookup_singleton_ne by congruence. discriminate.
    - rewrite lookup_empty. discriminate.
    - discriminate. }
  split; [exact H|].
  destruct (dirty_flag_tracks_queue H) as [Hset _].
  exact (Hset "color" 0 (VArray [9; 9; 9; 9]%Z)).
Defined.

(** ** The pick ids a primitive owns *)

Lemma pick_calls_app calls1 calls2 :
  pick_calls (calls1 ++ calls2) = pick_calls calls1 ++ pick_calls calls2.
Proof. apply omap_app. Qed.

Lemma quiet_same {A} (m : M A) :
  (forall w, context (m w).2 = context w) -> quiet m.
Proof. intros H w. exists []. rewrite H, app_nil_r. split; reflexivity. Qed.

Lemma quiet_ret {A} (a : A) : quiet (ret a).
Proof. apply quiet_same. reflexivity. Qed.

Lemma quiet_throw {A} e : quiet (throw (A := A) e).
Proof. apply quiet_same. reflexivity. Qed.

Lemma quiet_lift {A} (c : Completion A) : quiet (lift c).
Proof. apply quiet_same. reflexivity. Qed.

Lemma quiet_defined {A} (o : option A) : quiet (defined o).
Proof. apply quiet_same. intros w. destruct o; reflexivity. Qed.

Lemma quiet_get {A} (field : Primitive -> A) : quiet (get field).
Proof. apply quiet_same. reflexivity. Qed.

Lemma quiet_assign (setter : Primitive -> Primitive) : quiet (assign setter).
Proof. apply quiet_same. reflexivity. Qed.

Lemma quiet_bind {A C} (m : M A) (k : A -> M C) :
  quiet m -> (forall a, quiet (k a)) -> quiet (bind m k).
Proof.
  intros Hm Hk w. unfold bind. destruct (Hm w) as (calls1 & Hcalls1 & Hnone1).
  destruct (m w) as [[a|e] w1]; cbn [snd] in Hcalls1.
  - destruct (Hk a w1) as (calls2 & Hcalls2 & Hnone2).
    exists (calls1 ++ calls2). rewrite Hcalls2, Hcalls1, app_assoc.
    split; [reflexivity|]. rewrite pick_calls_app, Hnone1, Hnone2. reflexivity.
  - exists calls1. split; assumption.
Qed.

Lemma quiet_for_each_from {A} (l : list A) (body : nat -> A -> M unit) :
  (forall j x, quiet (body j x)) -> forall i, quiet (for_each_from i l body).
Proof.
  intros Hbody. induction l as [|x rest IH]; intros i; simpl.
  - apply quiet_ret.
  - apply quiet_bind; [apply Hbody | intros _; apply IH].
Qed.

Lemma quiet_call c : pick_calls [c] = [] -> quiet (call c).
Proof. intros H w. exists [c]. split; [reflexivity | exact H]. Qed.

Lemma quiet_replaceShaderProgram shaderProgram vs fs attributeIndices :
  quiet (shaderCache_replaceShaderProgram shaderProgram vs fs attributeIndices).
Proof.
  intros w. exists [replaceShaderProgram shaderProgram vs fs attributeIndices].
  split; reflexivity.
Qed.

Ltac quiet_step :=
  lazymatch goal with
  | |- quiet (bind _ _) => apply quiet_bind; [|intros ?]
  | |- quiet (ret _) => apply quiet_ret
  | |- quiet (throw _) => apply quiet_throw
  | |- quiet (lift _) => apply quiet_lift
  | |- quiet (defined _) => apply quiet_defined
  | |- quiet (get _) => apply quiet_get
  | |- quiet (assign _) => apply quiet_assign
  | |- quiet (call _) => apply quiet_call; reflexivity
  | |- quiet (shaderCache_replaceShaderProgram _ _ _ _) => apply quiet_replaceShaderProgram
  | |- quiet (for_each _ _) => apply quiet_for_each_from; intros ? ?
  | |- quiet (for_range _ _) => apply quiet_for_each_from; intros ? ?
  | |- quiet (modify_colorCommand _ _) => unfold modify_colorCommand
  | |- quiet (modify_pickCommand _ _) => unfold modify_pickCommand
  | |- quiet (if ?b then _ else _) => destruct b
  | |- quiet (match ?x with _ => _ end) => destruct x
  end.

Lemma quiet_create_vertex_buffers attributes : quiet (create_vertex_buffers attributes).
Proof.
  induction attributes as [|attribute rest IH]; simpl; [apply quiet_ret|].
  repeat first [ exact IH | quiet_step ].
Qed.

Lemma quiet_create_vertex_arrays geometries : forall i attributeIndices va,
  quiet (create_vertex_arrays i geometries attributeIndices va).
Proof.
  induction geometries as [|geometry rest IH]; intros i attributeIndices va; simpl;
    [apply quiet_ret|].
  repeat first [ apply quiet_create_vertex_buffers | apply IH | quiet_step ].
Qed.

Lemma quiet_COMBINED_branch frameState : quiet (COMBINED_branch frameState).
Proof.
  unfold COMBINED_branch, create_commands.
  repeat first [ apply quiet_create_vertex_arrays | quiet_step ].
Qed.

Lemma quiet_steady_state frameState commandList :
  quiet (steady_state frameState commandList).
Proof.
  unfold steady_state, update_appearance, update_perInstanceAttributes, flush_attribute,
    flush_range, update_commands.
  repeat quiet_step.
Qed.

Lemma COMBINED_branch_pickIds frameState :
  keeps (fun w => _pickIds (this w)) (COMBINED_branch frameState).
Proof.
  unfold COMBINED_branch, create_commands.
  assert (Hbuffers : forall attributes,
             keeps (fun w => _pickIds (this w)) (create_vertex_buffers attributes)).
  { induction attributes as [|attribute rest IH]; simpl; [apply keeps_ret|].
    repeat first [ exact IH | keeps_step ]. }
  assert (Harrays : forall geometries i attributeIndices va,
             keeps (fun w => _pickIds (this w))
               (create_vertex_arrays i geometries attributeIndices va)).
  { induction geometries as [|geometry rest IH]; intros i attributeIndices va; simpl;
      [apply keeps_ret|].
    repeat first
      [ apply Hbuffers | apply IH | apply keeps_assign; intros ?; reflexivity
      | keeps_step ]. }
  repeat first
    [ apply Harrays | apply keeps_assign; intros ?; reflexivity | keeps_step ].
Qed.

Lemma tracks_quiet w w' calls :
  ctx_calls (context w') = ctx_calls (context w) ++ calls ->
  pick_calls calls = [] ->
  _pickIds (this w') = _pickIds (this w) ->
  tracks w w'.
Proof.
  intros Hcalls Hnone Hids. exists calls, []. rewrite app_nil_r.
  split; [exact Hcalls|]. split; [exact Hids|]. split; [rewrite Hnone; reflexivity|].
  intros pickId H. inversion H.
Qed.

Lemma tracks_same w w' :
  context w' = context w -> _pickIds (this w') = _pickIds (this w) -> tracks w w'.
Proof.
  intros Hc Hids. apply (@tracks_quiet w w' []); [|reflexivity | exact Hids].
  rewrite Hc, app_nil_r. reflexivity.
Qed.

Lemma new_pick_ids_objects key insts :
  pick_object <$> new_pick_ids key insts
  = pick_calls (map (fun inst => createPickId (pickObject (gi_id inst))) insts).
Proof.
  revert key. induction insts as [|inst rest IH]; intros key; [reflexivity|].
  simpl. rewrite IH. reflexivity.
Qed.

Lemma new_pick_ids_colors insts : forall key calls pickId,
  length calls = key ->
  pickId ∈ new_pick_ids key insts ->
  (calls ++ map (fun inst => createPickId (pickObject (gi_id inst))) insts)
    !! pick_color pickId
  = Some (createPickId (pick_object pickId)).
Proof.
  induction insts as [|inst rest IH]; intros key calls pickId Hkey Hin; simpl in Hin.
  - inversion Hin.
  - apply elem_of_cons in Hin as [-> | Hin].
    + cbn [pick_color pick_object map]. rewrite lookup_app_r by lia.
      rewrite Hkey, Nat.sub_diag. reflexivity.
    + change (map (fun inst0 => createPickId (pickObject (gi_id inst0))) (inst :: rest))
        with ([createPickId (pickObject (gi_id inst))]
              ++ map (fun inst0 => createPickId (pickObject (gi_id inst0))) rest).
      rewrite app_assoc.
      apply (IH (S key)); [|exact Hin]. rewrite length_app. simpl. lia.
Qed.

Lemma with_pick_ids_tracks insts w : tracks w (with_pick_ids insts w).
Proof.
  exists (map (fun inst => createPickId (pickObject (gi_id inst))) insts),
         (new_pick_ids (length (ctx_calls (context w))) insts).
  split; [reflexivity|]. split; [reflexivity|].
  split; [apply new_pick_ids_objects|].
  intros pickId Hin. exact (new_pick_ids_colors (calls := ctx_calls (context w)) eq_refl Hin).
Qed.

Lemma update_tracks taskProcessor frameState commandList w :
  tracks w (update taskProcessor frameState commandList w).2.
Proof.
  destruct (early_exit (this w) frameState) eqn:Hexit.
  { rewrite (update_when_early_exit taskProcessor commandList Hexit).
    apply tracks_same; reflexivity. }
  destruct (state (this w)) eqn:Hstate.
  - destruct (geometryInstances (this w)) as [geometryInstances0|] eqn:Hgi.
    + rewrite (update_READY taskProcessor commandList Hstate Hexit Hgi). cbn [snd].
      destruct (scheduled taskProcessor frameState geometryInstances0 w);
        apply with_pick_ids_tracks.
    + rewrite (update_READY_undefined taskProcessor commandList Hstate Hexit Hgi).
      apply tracks_same; reflexivity.
  - rewrite (update_waiting taskProcessor frameState commandList (or_introl Hstate)).
    apply tracks_same; reflexivity.
  - pose proof (COMBINED_branch_state_after frameState w) as Hafter.
    assert (Hupdate : update taskProcessor frameState commandList w
                      = match COMBINED_branch frameState w with
                        | (Return _, w1) => steady_state frameState commandList w1
                        | (Throw e, w1) => (Throw e, w1)
                        end).
    { unfold update. run_step. rewrite Hexit, Hstate.
      unfold bind at 1. unfold bind at 1.
      destruct (COMBINED_branch frameState w) as [[[]|e] w1]; [|reflexivity].
      unfold ret at 1. cbv beta iota. run_step.
      assert (Hs : state (this w1) = COMPLETE) by exact (f_equal fst Hafter).
      rewrite Hs. reflexivity. }
    rewrite Hupdate. clear Hupdate Hafter.
    destruct (quiet_COMBINED_branch frameState w) as (calls1 & Hcalls1 & Hnone1).
    pose proof (COMBINED_branch_pickIds frameState w) as Hids1. cbv beta in Hids1.
    destruct (COMBINED_branch frameState w) as [[[]|e] w1]; cbn [snd] in Hcalls1, Hids1.
    + destruct (quiet_steady_state frameState commandList w1) as (calls2 & Hcalls2 & Hnone2).
      pose proof (f_equal sf_pickIds (steady_state_steady frameState commandList w1))
        as Hids2.
      cbn [steady_fields sf_pickIds] in Hids2.
      apply (@tracks_quiet _ _ (calls1 ++ calls2)).
      * rewrite Hcalls2, Hcalls1, app_assoc. reflexivity.
      * rewrite pick_calls_app, Hnone1, Hnone2. reflexivity.
      * rewrite Hids2. exact Hids1.
    + exact (tracks_quiet Hcalls1 Hnone1 Hids1).
  - rewrite (update_COMPLETE taskProcessor commandList Hstate Hexit).
    destruct (quiet_steady_state frameState commandList w) as (calls & Hcalls & Hnone).
    pose proof (f_equal sf_pickIds (steady_state_steady frameState commandList w)) as Hids.
    cbn [steady_fields sf_pickIds] in Hids.
    exact (tracks_quiet Hcalls Hnone Hids).
  - rewrite (update_waiting taskProcessor frameState commandList (or_intror Hstate)).
    apply tracks_same; reflexivity.
Qed.

Lemma getGeometryInstanceAttributes_pickIds id :
  keeps (fun w => (_pickIds (this w), context w)) (getGeometryInstanceAttributes id).
Proof.
  unfold getGeometryInstanceAttributes.
  repeat first [ apply keeps_assign; intros ?; reflexivity | keeps_step ].
Qed.

Lemma perform_tracks op w : tracks w (perform op w).
Proof.
  destruct op as [tp fs cl|id|name i|name i value| |promise result|promise];
    cbn [perform].
  - apply update_tracks.
  - pose proof (getGeometryInstanceAttributes_pickIds id w) as H. cbv beta in H.
    injection H as Hids Hc. apply tracks_same; assumption.
  - rewrite createGetFunction_pure. apply tracks_same; reflexivity.
  - pose proof (createSetFunction_beyond_attributes name i value w) as H.
    apply tracks_same.
    + exact (f_equal ba_context H).
    + exact (f_equal sf_pickIds (f_equal ba_steady H)).
  - apply tracks_same; reflexivity.
  - unfold settle. destruct (bool_decide (promise ∈ callbacks w));
      apply tracks_same; reflexivity.
  - unfold settle. destruct (bool_decide (promise ∈ callbacks w));
      apply tracks_same; reflexivity.
Qed.

Lemma tracks_refl w : tracks w w.
Proof. apply tracks_same; reflexivity. Qed.

Lemma tracks_trans w1 w2 w3 : tracks w1 w2 -> tracks w2 w3 -> tracks w1 w3.
Proof.
  intros (calls1 & ids1 & Hc1 & Hi1 & Ho1 & Hl1) (calls2 & ids2 & Hc2 & Hi2 & Ho2 & Hl2).
  exists (calls1 ++ calls2), (ids1 ++ ids2).
  split; [rewrite Hc2, Hc1, app_assoc; reflexivity|].
  split; [rewrite Hi2, Hi1, app_assoc; reflexivity|].
  split; [rewrite fmap_app, pick_calls_app, Ho1, Ho2; reflexivity|].
  intros pickId Hin. apply elem_of_app in Hin as [Hin | Hin].
  - rewrite Hc2. apply lookup_app_l_Some. exact (Hl1 pickId Hin).
  - exact (Hl2 pickId Hin).
Qed.

Lemma perform_all_tracks ops : forall w, tracks w (perform_all ops w).
Proof.
  induction ops as [|op ops IH]; intros w; [apply tracks_refl|].
  exact (tracks_trans (perform_tracks op w) (IH (perform op w))).
Qed.

Lemma destroyed_pick_ids_destroy p : destroyed_pick_ids (destroy p) = _pickIds p.
Proof.
  unfold destroyed_pick_ids, destroy. rewrite !omap_app.
  assert (Hva : omap (fun release => match release with
                                     | destroy_pickId pickId => Some pickId
                                     | _ => None
                                     end) (destroy_vertexArray <$> _va p) = []).
  { induction (_va p) as [|v rest IH]; [reflexivity | exact IH]. }
  assert (Hids : omap (fun release => match release with
                                      | destroy_pickId pickId => Some pickId
                                      | _ => None
                                      end) (destroy_pickId <$> _pickIds p) = _pickIds p).
  { induction (_pickIds p) as [|pickId rest IH]; [reflexivity|].
    cbn. f_equal. exact IH. }
  rewrite Hva, Hids. destruct (_sp p), (_pickSP p); reflexivity.
Qed.

(** X13. No pick id is lost.  Whatever is done with a primitive after its
    construction, [destroy] destroys exactly one pick id for each
    [createPickId] call the primitive has made on the context, in the order
    of the calls, each with the object it was created for and with the
    position of its call as color; this includes the pick ids that pile up
    when the task processor declines the combine task. *)
Theorem destroy_releases_every_pick_id (options : Options) (c : Context)
  (ops : list Operation) :
  let w := perform_all ops {| this := new_Primitive options; context := c; callbacks := [] |} in
  exists calls,
    ctx_calls (context w) = ctx_calls c ++ calls
    /\ pick_object <$> destroyed_pick_ids (destroy (this w)) = pick_calls calls
    /\ forall pickId, pickId ∈ destroyed_pick_ids (destroy (this w)) ->
         ctx_calls (context w) !! pick_color pickId
         = Some (createPickId (pick_object pickId)).
Proof.
  cbv zeta.
  destruct (perform_all_tracks ops
              {| this := new_Primitive options; context := c; callbacks := [] |})
    as (calls & pickIds & Hcalls & Hids & Hobjects & Hcolors).
  cbn [this context new_Primitive _pickIds app] in Hcalls, Hids.
  exists calls. rewrite destroyed_pick_ids_destroy, Hids.
  split; [exact Hcalls|]. split; [exact Hobjects | exact Hcolors].
Qed.

(** ** Cloning *)

Lemma cloneAttribute_same attribute : cloneAttribute attribute = attribute.
Proof. destruct attribute; reflexivity. Qed.

Lemma assign_property_names {A} property (value : A) object :
  (assign_property property value object).*1
  = if decide (property ∈ object.*1) then object.*1 else object.*1 ++ [property].
Proof.
  induction object as [|[name old] rest IH]; [reflexivity|].
  cbn [assign_property]. rewrite fmap_cons. cbn [fst].
  - destruct (decide (name = property)) as [->|Hne]; [|rewrite fmap_cons; cbn [fst]].
    + rewrite decide_True by (apply elem_of_cons; auto). reflexivity.
    + rewrite IH. destruct (decide (property ∈ rest.*1)) as [Hin|Hnot].
      * rewrite decide_True by (apply elem_of_cons; auto). reflexivity.
      * rewrite decide_False; [reflexivity|].
        intros H. apply elem_of_cons in H as [H|H]; [congruence | contradiction].
Qed.

Lemma assign_property_absent {A} property (value : A) object :
  property ∉ object.*1 -> assign_property property value object = object ++ [(property, value)].
Proof.
  induction object as [|[name old] rest IH]; intros Hnot; simpl; [reflexivity|].
  destruct (decide (name = property)) as [->|Hne].
  - exfalso. apply Hnot. simpl. apply elem_of_cons. auto.
  - rewrite IH; [reflexivity|]. intros H. apply Hnot. simpl. apply elem_of_cons. auto.
Qed.

Lemma assign_property_present {A} property (value : A) object :
  NoDup object.*1 ->
  property ∈ object.*1 ->
  assign_property property value object
  = (fun entry : string * A =>
       if decide (entry.1 = property) then (entry.1, value) else entry) <$> object.
Proof.
  induction object as [|[name old] rest IH]; intros Hnodup Hin; simpl;
    [inversion Hin|].
  simpl in Hnodup. apply NoDup_cons in Hnodup as [Hname Hrest].
  destruct (decide (name = property)) as [->|Hne].
  - f_equal. symmetry. rewrite <- (list_fmap_id rest) at 2.
    apply list_fmap_ext. intros i [name' old'] Hi. simpl.
    rewrite decide_False; [reflexivity|].
    intros ->. apply Hname. apply list_elem_of_fmap.
    exists (property, old'). split; [reflexivity|].
    apply list_elem_of_lookup. eauto.
  - f_equal. apply IH; [exact Hrest|].
    simpl in Hin. apply elem_of_cons in Hin as [H|H]; [congruence | exact H].
Qed.

Lemma property_of_absent {A} (object : list (string * option A)) name :
  name ∉ object.*1 -> property_of object name = None.
Proof.
  induction object as [|[property value] rest IH]; intros Hnot; simpl; [reflexivity|].
  destruct (decide (property = name)) as [->|Hne].
  - exfalso. apply Hnot. simpl. apply elem_of_cons. auto.
  - apply IH. intros H. apply Hnot. simpl. apply elem_of_cons. auto.
Qed.

Lemma filter_ext_elem {A} (P Q : A -> Prop) `{forall x, Decision (P x)}
  `{forall x, Decision (Q x)} (l : list A) :
  (forall x, x ∈ l -> P x <-> Q x) -> filter P l = filter Q l.
Proof.
  induction l as [|x rest IH]; intros Hext; [reflexivity|].
  rewrite !filter_cons.
  rewrite IH by (intros y Hy; apply Hext, elem_of_cons; auto).
  destruct (decide (P x)) as [HP|HP]; destruct (decide (Q x)) as [HQ|HQ];
    try reflexivity; exfalso;
    [apply HQ | apply HP]; apply (Hext x); try (apply elem_of_cons; auto); assumption.
Qed.

(** The attributes after the loop of [cloneGeometry], in closed form: the
    properties [newAttributes] had, each holding the attribute of that name
    when the source has one and what it held otherwise, and after them the
    other attributes of the source, those holding [undefined] left out. *)
Lemma cloneAttributes_closed attributes : forall newAttributes,
  NoDup attributes.*1 ->
  NoDup newAttributes.*1 ->
  cloneAttributes attributes newAttributes
  = ((fun entry : string * option GeometryAttribute =>
        (entry.1, match property_of attributes entry.1 with
                  | Some attribute => Some attribute
                  | None => entry.2
                  end)) <$> newAttributes)
    ++ filter (fun entry : string * option GeometryAttribute =>
                 (entry.1 ∉ newAttributes.*1) /\ is_Some entry.2) attributes.
Proof.
  induction attributes as [|[property [attribute|]] rest IH];
    intros newAttributes Hnodup Hnew; cbn [cloneAttributes].
  - rewrite filter_nil, app_nil_r. rewrite <- (list_fmap_id newAttributes) at 1.
    apply list_fmap_ext. intros i [name value] _. reflexivity.
  - simpl in Hnodup. apply NoDup_cons in Hnodup as [Hproperty Hrest].
    rewrite cloneAttribute_same.
    assert (Habsent : property_of rest property = None)
      by (apply property_of_absent; exact Hproperty).
    rewrite IH; [|exact Hrest|].
    2:{ rewrite assign_property_names.
        destruct (decide (property ∈ newAttributes.*1)); [exact Hnew|].
        apply NoDup_app. split; [exact Hnew|]. split; [|apply NoDup_singleton].
        intros x Hx Hsingle. apply list_elem_of_singleton in Hsingle. subst x.
        contradiction. }
    rewrite assign_property_names.
    destruct (decide (property ∈ newAttributes.*1)) as [Hin|Hnot].
    + rewrite (assign_property_present _ Hnew Hin).
      rewrite filter_cons_False by (simpl; tauto).
      f_equal. rewrite <- list_fmap_compose.
      apply list_fmap_ext. intros i [name value] _. simpl.
      destruct (decide (name = property)) as [->|Hne]; simpl.
      * rewrite decide_True by reflexivity. rewrite Habsent. reflexivity.
      * rewrite decide_False by congruence. reflexivity.
    + rewrite (assign_property_absent _ Hnot).
      rewrite filter_cons_True by (simpl; split; [exact Hnot | eauto]).
      rewrite fmap_app. cbn [fmap list_fmap fst snd]. rewrite Habsent.
      rewrite <- app_assoc. cbn [app]. f_equal.
      * apply list_fmap_ext. intros i [name value]Hi. simpl.
        rewrite decide_False; [reflexivity|].
        intros ->. apply Hnot. apply list_elem_of_fmap.
        exists (name, value). split; [reflexivity|]. apply list_elem_of_lookup. eauto.
      * f_equal. apply filter_ext_elem. intros [name value] Hin. simpl.
        rewrite elem_of_app, list_elem_of_singleton.
        assert (Hne : name <> property).
        { intros ->. apply Hproperty. apply list_elem_of_fmap.
          exists (property, value). split; [reflexivity | exact Hin]. }
        tauto.
  - simpl in Hnodup. apply NoDup_cons in Hnodup as [Hproperty Hrest].
    rewrite IH by assumption.
    rewrite filter_cons_False by (simpl; intros [_ [x H]]; discriminate).
    f_equal. apply list_fmap_ext. intros i [name value] _. simpl.
    destruct (decide (property = name)) as [->|Hne]; [|reflexivity].
    rewrite (property_of_absent Hproperty). reflexivity.
Qed.

Lemma cloneGeometryInstanceAttribute_same attribute :
  cloneGeometryInstanceAttribute attribute = attribute.
Proof. destruct attribute; reflexivity. Qed.

Lemma cloneInstanceAttributes_closed attributes : forall newAttributes,
  NoDup (newAttributes ++ attributes).*1 ->
  cloneInstanceAttributes attributes newAttributes = newAttributes ++ attributes.
Proof.
  induction attributes as [|[property attribute] rest IH]; intros newAttributes Hnodup;
    cbn [cloneInstanceAttributes].
  - rewrite app_nil_r. reflexivity.
  - rewrite cloneGeometryInstanceAttribute_same.
    rewrite fmap_app, fmap_cons in Hnodup. cbn [fst] in Hnodup.
    rewrite assign_property_absent.
    + rewrite IH; [rewrite <- app_assoc; reflexivity|].
      rewrite <- app_assoc, fmap_app. exact Hnodup.
    + apply NoDup_app in Hnodup as (_ & Hdisjoint & _).
      intros Hin. apply (Hdisjoint property Hin). apply elem_of_cons. auto.
Qed.

Lemma cloneInstance_attributes (attributes : list (string * GeometryInstanceAttribute)) :
  NoDup attributes.*1 -> cloneInstanceAttributes attributes [] = attributes.
Proof. intros Hnodup. apply (cloneInstanceAttributes_closed (newAttributes := [])). exact Hnodup. Qed.

Lemma NoDup_new_GeometryAttributes : NoDup new_GeometryAttributes.*1.
Proof. refine (bool_decide_unpack _ _). vm_compute. exact I. Qed.

Lemma cloneGeometry_attributes geometry :
  NoDup (g_attributes geometry).*1 ->
  g_attributes (cloneGeometry geometry)
  = ((fun name => (name, property_of (g_attributes geometry) name))
       <$> new_GeometryAttributes.*1)
    ++ filter (fun entry : string * option GeometryAttribute =>
                 (entry.1 ∉ new_GeometryAttributes.*1) /\ is_Some entry.2)
         (g_attributes geometry).
Proof.
  intros Hnodup. unfold cloneGeometry. cbn [g_attributes].
  rewrite (cloneAttributes_closed Hnodup NoDup_new_GeometryAttributes).
  f_equal. rewrite <- list_fmap_compose.
  apply list_fmap_ext. intros i [name value] Hi. simpl.
  assert (Hvalue : value = None).
  { apply list_elem_of_lookup_2 in Hi. unfold new_GeometryAttributes in Hi.
    rewrite !elem_of_cons in Hi.
    destruct Hi as [H|[H|[H|[H|[H|[H|H]]]]]]; try (injection H as _ ->; reflexivity).
    inversion H. }
  subst value. destruct (property_of (g_attributes geometry) name); reflexivity.
Qed.

Lemma property_of_listed {A} (f : string -> option A) names rest name :
  name ∈ names ->
  property_of (((fun name => (name, f name)) <$> names) ++ rest) name = f name.
Proof.
  induction names as [|first names IH]; intros Hin; [inversion Hin|].
  rewrite fmap_cons. cbn [app property_of].
  destruct (decide (first = name)) as [->|Hne]; [reflexivity|].
  apply IH. apply elem_of_cons in Hin as [H|H]; [congruence | exact H].
Qed.

Lemma filter_none {A} (P : A -> Prop) `{forall x, Decision (P x)} (l : list A) :
  (forall x, x ∈ l -> ~ P x) -> filter P l = [].
Proof.
  induction l as [|x rest IH]; intros Hnone; [reflexivity|].
  rewrite filter_cons_False by (apply Hnone, elem_of_cons; auto).
  apply IH. intros y Hy. apply Hnone, elem_of_cons. auto.
Qed.

Lemma Geometry_ext geometry geometry' :
  g_attributes geometry = g_attributes geometry' ->
  g_indices geometry = g_indices geometry' ->
  g_primitiveType geometry = g_primitiveType geometry' ->
  g_boundingSphere geometry = g_boundingSphere geometry' ->
  geometry = geometry'.
Proof. destruct geometry, geometry'. simpl. intros -> -> -> ->. reflexivity. Qed.

(** Cloning a clone gives the clone again. *)
Lemma cloneGeometry_again geometry :
  NoDup (g_attributes geometry).*1 ->
  NoDup (g_attributes (cloneGeometry geometry)).*1
  /\ cloneGeometry (cloneGeometry geometry) = cloneGeometry geometry.
Proof.
  intros Hnodup.
  pose proof (cloneGeometry_attributes Hnodup) as Hclone.
  set (names := new_GeometryAttributes.*1) in *.
  set (others := filter (fun entry : string * option GeometryAttribute =>
                           (entry.1 ∉ names) /\ is_Some entry.2)
                   (g_attributes geometry)) in *.
  assert (Hkeys : (g_attributes (cloneGeometry geometry)).*1 = names ++ others.*1).
  { rewrite Hclone, fmap_app. f_equal. }
  assert (Hnodup' : NoDup (g_attributes (cloneGeometry geometry)).*1).
  { rewrite Hkeys. apply NoDup_app. split; [exact NoDup_new_GeometryAttributes|]. split.
    - intros name Hname Hother. apply list_elem_of_fmap in Hother as ([name' value] & -> & Hin).
      unfold others in Hin. apply list_elem_of_filter in Hin as [[Hnot _] _].
      exact (Hnot Hname).
    - eapply sublist_NoDup; [exact Hnodup | apply fmap_sublist, sublist_filter]. }
  split; [exact Hnodup'|].
  pose proof (cloneGeometry_attributes Hnodup') as Hagain.
  fold names in Hagain.
  assert (Hattributes : g_attributes (cloneGeometry (cloneGeometry geometry))
                        = g_attributes (cloneGeometry geometry)).
  { rewrite Hagain. etransitivity; [|symmetry; exact Hclone]. f_equal.
    - apply list_fmap_ext. intros i name Hi. f_equal.
      rewrite Hclone. apply property_of_listed.
      apply list_elem_of_lookup_2 in Hi. exact Hi.
    - rewrite Hclone, filter_app. rewrite filter_none.
      + cbn [app]. unfold others. rewrite list_filter_filter.
        apply list_filter_iff. intros entry. tauto.
      + intros [name value] Hin [Hnot _]. apply Hnot.
        apply list_elem_of_fmap in Hin as (name' & [= -> _] & Hname). exact Hname. }
  apply Geometry_ext; [exact Hattributes | reflexivity | reflexivity | reflexivity].
Qed.

(** X14. Take an instance whose geometry attributes and whose per-instance
    attributes each list a property once.  A clone of it carries the same
    id, model matrix, per-instance attributes, indices, primitive type and
    bounding sphere.  The attributes of its geometry are the six standard
    properties of a new [GeometryAttributes] object, in their fixed order,
    each holding the attribute of that name when the geometry has one and
    [undefined] otherwise, followed by the other attributes of the geometry
    in their order, except that those holding [undefined] are left out.
    Cloning a clone changes nothing more. *)
Theorem cloneInstance_geometry_attributes (instance : GeometryInstance) :
  NoDup (g_attributes (gi_geometry instance)).*1 ->
  NoDup (gi_attributes instance).*1 ->
  let clone := cloneInstance instance in
  let attributes := g_attributes (gi_geometry instance) in
  let standard := ["position"; "normal"; "st"; "binormal"; "tangent"; "color"] in
  gi_id clone = gi_id instance
  /\ gi_modelMatrix clone = gi_modelMatrix instance
  /\ gi_attributes clone = gi_attributes instance
  /\ g_attributes (gi_geometry clone)
     = ((fun name => (name, property_of attributes name)) <$> standard)
       ++ filter (fun entry : string * option GeometryAttribute =>
                    (entry.1 ∉ standard) /\ is_Some entry.2) attributes
  /\ g_indices (gi_geometry clone) = g_indices (gi_geometry instance)
  /\ g_primitiveType (gi_geometry clone) = g_primitiveType (gi_geometry instance)
  /\ g_boundingSphere (gi_geometry clone) = g_boundingSphere (gi_geometry instance)
  /\ cloneInstance clone = clone.
Proof.
  intros Hnodup Hinstance clone attributes standard.
  split; [reflexivity|]. split; [reflexivity|].
  split; [exact (cloneInstance_attributes Hinstance)|].
  split; [exact (cloneGeometry_attributes Hnodup)|].
  split; [reflexivity|]. split; [reflexivity|]. split; [reflexivity|].
  unfold clone, cloneInstance.
  cbn [gi_geometry gi_modelMatrix gi_id gi_attributes].
  rewrite (cloneInstance_attributes Hinstance), (cloneInstance_attributes Hinstance).
  rewrite (proj2 (cloneGeometry_again Hnodup)). reflexivity.
Qed.

Lemma cloneInstance_geometry_attributes_witness :
  NoDup (g_attributes (gi_geometry Scenario.mixed)).*1
  /\ NoDup (gi_attributes Scenario.mixed).*1
  /\ g_attributes (gi_geometry Scenario.mixed)
     = [("color", Some Sample.position); ("custom", Some Sample.position);
        ("dropped", None); ("position", Some Sample.position)]
  /\ g_attributes (gi_geometry (cloneInstance Scenario.mixed))
     = [("position", Some Sample.position); ("normal", None); ("st", None);
        ("binormal", None); ("tangent", None); ("color", Some Sample.position);
        ("custom", Some Sample.position)].
Proof.
  assert (H : NoDup (g_attributes (gi_geometry Scenario.mixed)).*1).
  { refine (bool_decide_unpack _ _). vm_compute. exact I. }
  assert (H' : NoDup (gi_attributes Scenario.mixed).*1).
  { refine (bool_decide_unpack _ _). vm_compute. exact I. }
  split; [exact H|]. split; [exact H'|]. split; [reflexivity|].
  destruct (cloneInstance_geometry_attributes H H') as (_ & _ & _ & Hattributes & _).
  rewrite Hattributes. vm_compute. reflexivity.
Defined.

(** ** The first frame *)

Lemma shading_inputs_call c : keeps shading_inputs (call c).
Proof. intros w. reflexivity. Qed.

Lemma COMBINED_branch_shading_inputs frameState :
  keeps shading_inputs (COMBINED_branch frameState).
Proof.
  unfold COMBINED_branch, create_commands.
  assert (Hbuffers : forall attributes,
             keeps shading_inputs (create_vertex_buffers attributes)).
  { induction attributes as [|attribute rest IH]; simpl; [apply keeps_ret|].
    repeat first [ exact IH | apply shading_inputs_call | keeps_step ]. }
  assert (Harrays : forall geometries i attributeIndices va,
             keeps shading_inputs (create_vertex_arrays i geometries attributeIndices va)).
  { induction geometries as [|geometry rest IH]; intros i attributeIndices va; simpl;
      [apply keeps_ret|].
    repeat first
      [ apply Hbuffers | apply IH | apply shading_inputs_call
      | apply keeps_assign; intros ?; reflexivity
      | keeps_step ]. }
  repeat first
    [ apply Harrays | apply keeps_assign; intros ?; reflexivity | keeps_step ].
Qed.

Lemma rendered_command_drawn renderState shaderProgram uniformMap modelMatrix
  boundingVolume command :
  placed modelMatrix boundingVolume
    (set_shading renderState shaderProgram uniformMap command)
  = rendered_command renderState shaderProgram uniformMap modelMatrix boundingVolume
      (dc_primitiveType command, dc_vertexArray command).
Proof. reflexivity. Qed.

Lemma rendered_commands renderState shaderProgram uniformMap modelMatrix boundingVolume
  commands :
  placed modelMatrix boundingVolume
  <$> (set_shading renderState shaderProgram uniformMap <$> commands)
  = rendered_command renderState shaderProgram uniformMap modelMatrix boundingVolume
    <$> drawn commands.
Proof.
  unfold drawn. rewrite <- !list_fmap_compose. apply list_fmap_ext.
  intros i command _. apply rendered_command_drawn.
Qed.

Lemma linked_active c c' vs fs handle :
  ctx_activeVertexAttributes c' = ctx_activeVertexAttributes c ->
  linked c' vs fs handle = linked c vs fs handle.
Proof. intros H. unfold linked. rewrite H. reflexivity. Qed.

Lemma update_perInstanceAttributes_reshaded a vs w :
  _dirtyAttributes (this w) = [] ->
  update_perInstanceAttributes (reshaded a vs w) = (Return tt, reshaded a vs w).
Proof. intros H. apply update_perInstanceAttributes_clean. exact H. Qed.

Lemma commands_paired_reshaded a vs w :
  commands_paired w -> commands_paired (reshaded a vs w).
Proof.
  intros H. unfold commands_paired, reshaded, with_commands.
  cbn [this set_this _commandLists set__commandLists colorList pickList].
  rewrite !length_fmap. exact H.
Qed.

Lemma placed_commands_reshaded frameState a vs w :
  appearance_changed (this w) a = true ->
  placed_commands (modelMatrix (this (reshaded a vs w)))
    (select_boundingSphere frameState (this (reshaded a vs w)))
    (_commandLists (this (reshaded a vs w)))
  = {| colorList :=
         rendered_command (Some (length (ctx_calls (context w))))
           (Some (linked (context w) vs (ap_fragmentShaderSource a)
                    (S (length (ctx_calls (context w))))))
           (mat_uniforms <$> ap_material a) (modelMatrix (this w))
           (select_boundingSphere frameState (this w))
         <$> drawn (colorList (_commandLists (this w)));
       pickList :=
         rendered_command (Some (length (ctx_calls (context w))))
           (Some (linked (context w) (createPickVertexShaderSource vs)
                    (createPickFragmentShaderSource (ap_fragmentShaderSource a) "varying")
                    (S (S (length (ctx_calls (context w)))))))
           (mat_uniforms <$> ap_material a) (modelMatrix (this w))
           (select_boundingSphere frameState (this w))
         <$> drawn (pickList (_commandLists (this w))) |}.
Proof.
  intros Hchanged.
  unfold placed_commands, reshaded, with_commands.
  cbn [this set_this _commandLists set__commandLists colorList pickList].
  rewrite !rendered_commands.
  unfold relinked. cbn [this _rs _sp _pickSP set__pickSP set__sp set__rs].
  rewrite Hchanged. reflexivity.
Qed.

(** The steady state for an appearance not seen before, with programs that
    match: the commands pushed are determined by what the commands draw. *)
Lemma steady_state_rebuild frameState commandList w a attributeIndices vs :
  appearance (this w) = Some a ->
  appearance_changed (this w) a = true ->
  _attributeIndices (this w) = Some attributeIndices ->
  appendShow (this w) (createColumbusViewShader (this w) (ap_vertexShaderSource a))
  = Return vs ->
  (forall handle,
      validateShaderMatching
        (linked (context w) vs (ap_fragmentShaderSource a) handle) attributeIndices
      = Return tt) ->
  (forall handle,
      validateShaderMatching
        (linked (context w) (createPickVertexShaderSource vs)
           (createPickFragmentShaderSource (ap_fragmentShaderSource a) "varying") handle)
        attributeIndices
      = Return tt) ->
  commands_paired w ->
  _dirtyAttributes (this w) = [] ->
  (steady_state frameState commandList w).1
  = Return
      (commandList
       ++ [{| colorList :=
                rendered_command (Some (length (ctx_calls (context w))))
                  (Some (linked (context w) vs (ap_fragmentShaderSource a)
                           (S (length (ctx_calls (context w))))))
                  (mat_uniforms <$> ap_material a) (modelMatrix (this w))
                  (select_boundingSphere frameState (this w))
                <$> drawn (colorList (_commandLists (this w)));
              pickList :=
                rendered_command (Some (length (ctx_calls (context w))))
                  (Some (linked (context w) (createPickVertexShaderSource vs)
                           (createPickFragmentShaderSource (ap_fragmentShaderSource a)
                              "varying")
                           (S (S (length (ctx_calls (context w)))))))
                  (mat_uniforms <$> ap_material a) (modelMatrix (this w))
                  (select_boundingSphere frameState (this w))
                <$> drawn (pickList (_commandLists (this w))) |}]).
Proof.
  intros Ha Hchanged Hai Hvs Hsp HpickSP Hpaired Hqueue.
  assert (Hrun : update_appearance w = (Return tt, reshaded a vs w)).
  { rewrite (@update_appearance_outcome w a attributeIndices vs Ha
               ltac:(rewrite Hchanged; reflexivity) Hai Hvs Hpaired).
    rewrite validate_programs_relinked, Hsp, HpickSP. reflexivity. }
  rewrite (steady_state_from frameState commandList Hrun
             (update_perInstanceAttributes_reshaded a vs Hqueue)
             (commands_paired_reshaded a vs Hpaired)).
  cbn [fst]. rewrite (placed_commands_reshaded frameState vs Hchanged). reflexivity.
Qed.

Lemma select_boundingSphere_spheres frameState p p' :
  _boundingSphere p' = _boundingSphere p ->
  _boundingSphere2D p' = _boundingSphere2D p ->
  select_boundingSphere frameState p' = select_boundingSphere frameState p.
Proof. intros H H2D. unfold select_boundingSphere. rewrite H, H2D. reflexivity. Qed.

Lemma create_vertex_arrays_exact geometries :
  forall i attributeIndices va w vaAttributes n,
  _vaAttributes (this w) = Some vaAttributes ->
  i + length geometries <= length vaAttributes ->
  length (ctx_calls (context w)) = n ->
  exists vaAttributes',
    create_vertex_arrays i geometries attributeIndices va w
    = (Return (va ++ vertex_arrays n geometries (drop i vaAttributes)),
       {| this := set__vaAttributes (Some vaAttributes') (this w);
          context := log_calls (vertex_array_calls n geometries attributeIndices
                                  (drop i vaAttributes)) (context w);
          callbacks := callbacks w |})
    /\ length vaAttributes' = length vaAttributes.
Proof.
  induction geometries as [|geometry rest IH];
    intros i attributeIndices va w vaAttributes n Hva Hlen Hn.
  - exists vaAttributes. split; [|reflexivity].
    cbn [create_vertex_arrays vertex_arrays vertex_array_calls]. unfold ret.
    rewrite app_nil_r, log_calls_nil. f_equal.
    destruct w as [p c cb]. simpl in *. f_equal. destruct p. simpl in *. subst.
    reflexivity.
  - simpl in Hlen.
    destruct (vaAttributes !! i) as [attributes|] eqn:Hi;
      [|apply lookup_ge_None in Hi; lia].
    rewrite (drop_S _ _ _ Hi).
    cbn [create_vertex_arrays vertex_arrays vertex_array_calls].
    unfold bind at 1. unfold get at 1. rewrite Hva.
    unfold bind at 1. unfold defined at 1, ret at 1.
    unfold bind at 1. unfold defined at 1, ret at 1. rewrite Hi.
    unfold bind at 1. rewrite create_vertex_buffers_run.
    unfold bind at 1. unfold assign at 1.
    unfold bind at 1. unfold call at 1.
    match goal with
    | |- context [create_vertex_arrays (S i) rest attributeIndices ?va1 ?w1] =>
        destruct (IH (S i) attributeIndices va1 w1
                    (<[i := with_vertex_buffers (length (ctx_calls (context w))) attributes]>
                       vaAttributes)
                    (S (n + length attributes)))
          as (vaAttributes' & Hrun & Hlvas)
    end.
    + reflexivity.
    + rewrite length_insert. lia.
    + simpl. rewrite !length_app, length_map. simpl. lia.
    + exists vaAttributes'. rewrite Hrun.
      rewrite drop_insert_lt by lia.
      split; [|rewrite Hlvas, length_insert; reflexivity].
      f_equal.
      * f_equal. rewrite <- app_assoc. f_equal. simpl.
        rewrite length_app, length_map, Hn. reflexivity.
      * unfold set_this, set_context, log_calls, log_call. simpl. rewrite Hn.
        f_equal. f_equal. rewrite <- !app_assoc. reflexivity.
Qed.

Lemma length_vertex_arrays geometries : forall handle vaAttributes,
  length geometries <= length vaAttributes ->
  length (vertex_arrays handle geometries vaAttributes) = length geometries.
Proof.
  induction geometries as [|geometry rest IH]; intros handle [|attributes vaAttributes] Hlen;
    simpl in *; try reflexivity; try lia.
  rewrite IH by lia. reflexivity.
Qed.

(** Every vertex array is named by the position of the call that made it
    from the geometry at the same position. *)
Lemma vertex_arrays_created attributeIndices geometries :
  forall handle vaAttributes before after i geometry,
  length before = handle ->
  length geometries <= length vaAttributes ->
  geometries !! i = Some geometry ->
  exists vertexArray attributes,
    vertex_arrays handle geometries vaAttributes !! i = Some vertexArray
    /\ (before ++ vertex_array_calls handle geometries attributeIndices vaAttributes
        ++ after) !! vertexArray
       = Some (createVertexArrayFromGeometry geometry attributeIndices STATIC_DRAW
                 attributes).
Proof.
  induction geometries as [|geometry0 rest IH];
    intros handle [|attributes vaAttributes] before after i geometry Hbefore Hlen Hi;
    simpl in Hlen; try discriminate Hi; try lia.
  cbn [vertex_arrays vertex_array_calls].
  destruct i as [|j].
  - injection Hi as <-.
    exists (handle + length attributes), (with_vertex_buffers handle attributes).
    split; [reflexivity|].
    rewrite lookup_app_r by lia. rewrite Hbefore, Nat.add_comm, Nat.add_sub.
    rewrite <- app_assoc, lookup_app_r by (rewrite length_map; lia).
    rewrite length_map, Nat.sub_diag. reflexivity.
  - destruct (IH (S (handle + length attributes)) vaAttributes
                (before
                 ++ map (fun a => createVertexBuffer (vaa_values a) DYNAMIC_DRAW) attributes
                 ++ [createVertexArrayFromGeometry geometry0 attributeIndices STATIC_DRAW
                       (with_vertex_buffers handle attributes)])
                after j geometry)
      as (vertexArray & attributes' & Hva & Hcall).
    + rewrite !length_app, length_map. simpl. lia.
    + lia.
    + exact Hi.
    + exists vertexArray, attributes'. split; [exact Hva|].
      rewrite <- Hcall. f_equal. rewrite <- !app_assoc. reflexivity.
Qed.

Lemma COMBINED_branch_exact frameState w first rest vaAttributes :
  _geometries (this w) = Some (first :: rest) ->
  _vaAttributes (this w) = Some vaAttributes ->
  length (first :: rest) <= length vaAttributes ->
  exists vaAttributes' commandLists,
    COMBINED_branch frameState w
    = (Return tt,
       {| this := completed (scene2D_projection frameState) first vaAttributes'
                    (vertex_arrays (length (ctx_calls (context w))) (first :: rest)
                       vaAttributes)
                    commandLists (this w);
          context := log_calls
                       (vertex_array_calls (length (ctx_calls (context w))) (first :: rest)
                          (_attributeIndices (this w)) vaAttributes)
                       (context w);
          callbacks := callbacks w |}).
Proof.
  intros Hg Hva Hlen. unfold COMBINED_branch.
  run_step. run_step. rewrite Hg. run_step. run_step. run_step. run_step.
  set (w1 := set_this (set__boundingSphere (g_boundingSphere first) (this w)) w).
  set (p2 := match _boundingSphere (this w1) with
             | Some sphere =>
                 if negb (_allow3DOnly (this w1))
                 then set__boundingSphere2D
                        (Some (ProjectTo2D sphere
                                 (proj_ellipsoid (scene2D_projection frameState)))) (this w1)
                 else this w1
             | None => this w1
             end).
  erewrite (@bind_Return _ _ _ _ _ tt (set_this p2 w1)).
  2:{ unfold p2. destruct (_boundingSphere (this w1)) as [sphere|];
        [destruct (negb (_allow3DOnly (this w1)))|]; reflexivity. }
  assert (Hva2 : _vaAttributes (this (set_this p2 w1)) = Some vaAttributes).
  { simpl. unfold p2. destruct (_boundingSphere (this w1));
      [destruct (negb (_allow3DOnly (this w1)))|]; exact Hva. }
  destruct (@create_vertex_arrays_exact (first :: rest) 0 (_attributeIndices (this w)) []
              (set_this p2 w1) vaAttributes (length (ctx_calls (context w))) Hva2 Hlen
              eq_refl)
    as (vaAttributes' & Hrun & _).
  rewrite drop_0, app_nil_l in Hrun.
  erewrite bind_Return by exact Hrun. cbv beta.
  run_step.
  match goal with
  | |- context [bind (create_commands (first :: rest)) _ ?w3] =>
      destruct (create_commands_run (first :: rest) w3) as (commandLists & Hcmd & _ & _)
  end.
  exists vaAttributes', commandLists.
  erewrite bind_Return by exact Hcmd. cbv beta.
  run_step.
  assert (Hrel : _releaseGeometryInstances p2 = _releaseGeometryInstances (this w)).
  { unfold p2. destruct (_boundingSphere (this w1));
      [destruct (negb (_allow3DOnly (this w1)))|]; reflexivity. }
  unfold completed. fold w1. cbv zeta.
  change (set__boundingSphere (g_boundingSphere first) (this w)) with (this w1).
  fold p2. simpl. rewrite Hrel.
  destruct (_releaseGeometryInstances (this w)); reflexivity.
Qed.

(** The vertex arrays and the context the COMBINED branch leaves. *)
Lemma COMBINED_branch_resources frameState w first rest vaAttributes :
  _geometries (this w) = Some (first :: rest) ->
  _vaAttributes (this w) = Some vaAttributes ->
  length (first :: rest) <= length vaAttributes ->
  _va (this (COMBINED_branch frameState w).2)
  = vertex_arrays (length (ctx_calls (context w))) (first :: rest) vaAttributes
  /\ ctx_calls (context (COMBINED_branch frameState w).2)
     = ctx_calls (context w)
       ++ vertex_array_calls (length (ctx_calls (context w))) (first :: rest)
            (_attributeIndices (this w)) vaAttributes.
Proof.
  intros Hg Hva Hlen.
  destruct (COMBINED_branch_exact frameState Hg Hva Hlen)
    as (vaAttributes' & commandLists & Hrun).
  rewrite Hrun. cbn [snd this context]. split; [|reflexivity].
  apply completed_guard.
Qed.

(** The COMBINED branch on a combine result that has its vertex array
    attributes: it returns, and leaves the vertex arrays it created and one
    fresh command of each kind for each geometry. *)
Lemma COMBINED_branch_returns frameState w first rest vaAttributes :
  _geometries (this w) = Some (first :: rest) ->
  _vaAttributes (this w) = Some vaAttributes ->
  length (first :: rest) <= length vaAttributes ->
  _commandLists (this w) = {| colorList := []; pickList := [] |} ->
  let handle := length (ctx_calls (context w)) in
  let va := vertex_arrays handle (first :: rest) vaAttributes in
  exists w1,
    COMBINED_branch frameState w = (Return tt, w1)
    /\ state (this w1) = COMPLETE
    /\ _va (this w1) = va
    /\ ctx_calls (context w1)
       = ctx_calls (context w)
         ++ vertex_array_calls handle (first :: rest) (_attributeIndices (this w))
              vaAttributes
    /\ drawn (colorList (_commandLists (this w1))) = commands_of (first :: rest) va
    /\ drawn (pickList (_commandLists (this w1))) = commands_of (first :: rest) va
    /\ select_boundingSphere frameState (this w1)
       = select_boundingSphere frameState
           (with_spheres (scene2D_projection frameState) first (this w))
    /\ shading_inputs w1 = shading_inputs w.
Proof.
  intros Hg Hvas Hlen Hcl handle va.
  destruct (COMBINED_branch_run frameState Hg Hvas Hlen)
    as (vaAttributes' & va0 & commandLists0 & c' & Hbranch & _).
  pose proof (COMBINED_branch_state_after frameState w) as Hafter.
  pose proof (COMBINED_branch_outcome frameState w) as Houtcome.
  pose proof (COMBINED_branch_shading_inputs frameState w) as Hinputs.
  destruct (COMBINED_branch_resources frameState Hg Hvas Hlen) as [Hva Hcalls].
  fold handle in Hva, Hcalls. fold va in Hva.
  destruct (COMBINED_branch frameState w) as [[[]|e] w1]; [|discriminate].
  clear Hbranch. cbn [snd] in Hinputs, Hva, Hcalls.
  destruct Houtcome as (first' & rest' & va' & Hg' & Hlva & Hrendering).
  rewrite Hg in Hg'. injection Hg' as <- <-.
  assert (Hva' : va' = va).
  { rewrite <- Hva. symmetry. exact (f_equal r_va Hrendering). }
  subst va'.
  exists w1. split; [reflexivity|].
  split; [exact (f_equal fst Hafter)|].
  destruct (with_spheres_commandLists (scene2D_projection frameState) first (this w))
    as [Hcl_spheres _].
  split; [exact Hva|]. split; [exact Hcalls|].
  split.
  { transitivity (drawn (colorList (_commandLists
                                      (with_spheres (scene2D_projection frameState) first
                                         (this w)))
                         ++ new_commands va 0 (first :: rest))).
    - exact (f_equal r_color Hrendering).
    - rewrite Hcl_spheres, Hcl. apply (drawn_new_commands Hlva). }
  split.
  { transitivity (drawn (pickList (_commandLists
                                     (with_spheres (scene2D_projection frameState) first
                                        (this w)))
                         ++ new_commands va 0 (first :: rest))).
    - exact (f_equal r_pick Hrendering).
    - rewrite Hcl_spheres, Hcl. apply (drawn_new_commands Hlva). }
  split; [|exact Hinputs].
  apply select_boundingSphere_spheres.
  - exact (f_equal r_boundingSphere Hrendering).
  - exact (f_equal r_boundingSphere2D Hrendering).
Qed.

Lemma update_after_COMBINED_branch taskProcessor frameState commandList w w1 :
  state (this w) = COMBINED ->
  early_exit (this w) frameState = false ->
  COMBINED_branch frameState w = (Return tt, w1) ->
  state (this w1) = COMPLETE ->
  update taskProcessor frameState commandList w = steady_state frameState commandList w1.
Proof.
  intros Hstate Hexit Hbranch Hstate1.
  unfold update. run_step. rewrite Hexit, Hstate.
  erewrite bind_Return.
  2:{ erewrite bind_Return by exact Hbranch. reflexivity. }
  cbv beta iota. run_step. rewrite Hstate1. reflexivity.
Qed.

Lemma appendShow_shading_inputs w w1 vs :
  shading_inputs w1 = shading_inputs w ->
  appendShow (this w1) (createColumbusViewShader (this w1) vs)
  = appendShow (this w) (createColumbusViewShader (this w) vs).
Proof.
  intros Hinputs.
  pose proof (f_equal si_attributeIndices Hinputs) as Hai.
  pose proof (f_equal si_allow3DOnly Hinputs) as Hallow.
  unfold shading_inputs in Hai, Hallow. cbn [si_attributeIndices si_allow3DOnly] in Hai, Hallow.
  unfold appendShow, createColumbusViewShader. rewrite Hai, Hallow. reflexivity.
Qed.

Lemma shading_calls_inputs w w1 a vs :
  shading_inputs w1 = shading_inputs w ->
  shading_calls a vs (this w1) = shading_calls a vs (this w).
Proof.
  intros Hinputs.
  pose proof (f_equal si__appearance Hinputs) as H_a.
  pose proof (f_equal si_attributeIndices Hinputs) as Hai.
  pose proof (f_equal si_sp Hinputs) as Hsp.
  pose proof (f_equal si_pickSP Hinputs) as HpickSP.
  unfold shading_inputs in H_a, Hai, Hsp, HpickSP.
  cbn [si__appearance si_attributeIndices si_sp si_pickSP] in H_a, Hai, Hsp, HpickSP.
  unfold shading_calls, appearance_changed. rewrite H_a, Hai, Hsp, HpickSP. reflexivity.
Qed.

(** The calls of the steady state for an appearance not seen before, with
    programs that match and nothing to flush. *)
Lemma steady_state_rebuild_calls frameState commandList w a attributeIndices vs :
  appearance (this w) = Some a ->
  appearance_changed (this w) a = true ->
  _attributeIndices (this w) = Some attributeIndices ->
  appendShow (this w) (createColumbusViewShader (this w) (ap_vertexShaderSource a))
  = Return vs ->
  (forall handle,
      validateShaderMatching
        (linked (context w) vs (ap_fragmentShaderSource a) handle) attributeIndices
      = Return tt) ->
  (forall handle,
      validateShaderMatching
        (linked (context w) (createPickVertexShaderSource vs)
           (createPickFragmentShaderSource (ap_fragmentShaderSource a) "varying") handle)
        attributeIndices
      = Return tt) ->
  commands_paired w ->
  _dirtyAttributes (this w) = [] ->
  ctx_calls (context (steady_state frameState commandList w).2)
  = ctx_calls (context w) ++ shading_calls a vs (this w).
Proof.
  intros Ha Hchanged Hai Hvs Hsp HpickSP Hpaired Hqueue.
  assert (Hrun : update_appearance w = (Return tt, reshaded a vs w)).
  { rewrite (@update_appearance_outcome w a attributeIndices vs Ha
               ltac:(rewrite Hchanged; reflexivity) Hai Hvs Hpaired).
    rewrite validate_programs_relinked, Hsp, HpickSP. reflexivity. }
  rewrite (steady_state_from frameState commandList Hrun
             (update_perInstanceAttributes_reshaded a vs Hqueue)
             (commands_paired_reshaded a vs Hpaired)).
  reflexivity.
Qed.

(** The steady state of a world whose shading inputs are those of [w], for
    an appearance that [w] has not seen and programs that match. *)
Lemma steady_state_rebuild_inputs frameState commandList w w1 a attributeIndices vs :
  shading_inputs w1 = shading_inputs w ->
  appearance (this w) = Some a ->
  _appearance (this w) <> Some (ap_identity a) ->
  _attributeIndices (this w) = Some attributeIndices ->
  appendShow (this w) (createColumbusViewShader (this w) (ap_vertexShaderSource a))
  = Return vs ->
  (forall handle,
      validateShaderMatching
        (linked (context w) vs (ap_fragmentShaderSource a) handle) attributeIndices
      = Return tt) ->
  (forall handle,
      validateShaderMatching
        (linked (context w) (createPickVertexShaderSource vs)
           (createPickFragmentShaderSource (ap_fragmentShaderSource a) "varying") handle)
        attributeIndices
      = Return tt) ->
  _dirtyAttributes (this w) = [] ->
  commands_paired w1 ->
  (steady_state frameState commandList w1).1
  = Return
      (commandList
       ++ [{| colorList :=
                rendered_command (Some (length (ctx_calls (context w1))))
                  (Some (linked (context w) vs (ap_fragmentShaderSource a)
                           (S (length (ctx_calls (context w1))))))
                  (mat_uniforms <$> ap_material a) (modelMatrix (this w))
                  (select_boundingSphere frameState (this w1))
                <$> drawn (colorList (_commandLists (this w1)));
              pickList :=
                rendered_command (Some (length (ctx_calls (context w1))))
                  (Some (linked (context w) (createPickVertexShaderSource vs)
                           (createPickFragmentShaderSource (ap_fragmentShaderSource a)
                              "varying")
                           (S (S (length (ctx_calls (context w1)))))))
                  (mat_uniforms <$> ap_material a) (modelMatrix (this w))
                  (select_boundingSphere frameState (this w1))
                <$> drawn (pickList (_commandLists (this w1))) |}])
  /\ ctx_calls (context (steady_state frameState commandList w1).2)
     = ctx_calls (context w1)
       ++ [createRenderState (ap_renderState a);
           replaceShaderProgram (_sp (this w)) vs (ap_fragmentShaderSource a)
             (Some attributeIndices);
           replaceShaderProgram (_pickSP (this w)) (createPickVertexShaderSource vs)
             (createPickFragmentShaderSource (ap_fragmentShaderSource a) "varying")
             (Some attributeIndices)].
Proof.
  intros Hinputs Ha Hnew Hai Hvs Hsp HpickSP Hqueue Hpaired1.
  pose proof (f_equal si_appearance Hinputs) as Ha1.
  pose proof (f_equal si__appearance Hinputs) as H_a1.
  pose proof (f_equal si_attributeIndices Hinputs) as Hai1.
  pose proof (f_equal si_dirtyAttributes Hinputs) as Hqueue1.
  pose proof (f_equal si_modelMatrix Hinputs) as Hmm1.
  pose proof (f_equal si_activeVertexAttributes Hinputs) as Hactive1.
  unfold shading_inputs in Ha1, H_a1, Hai1, Hqueue1, Hmm1, Hactive1.
  cbn [si_appearance si__appearance si_attributeIndices si_dirtyAttributes si_modelMatrix
         si_activeVertexAttributes] in Ha1, H_a1, Hai1, Hqueue1, Hmm1, Hactive1.
  assert (Ha' : appearance (this w1) = Some a) by (rewrite Ha1; exact Ha).
  assert (Hchanged : appearance_changed (this w) a = true).
  { unfold appearance_changed. apply negb_true_iff, bool_decide_eq_false. exact Hnew. }
  assert (Hchanged' : appearance_changed (this w1) a = true).
  { unfold appearance_changed. rewrite H_a1. exact Hchanged. }
  assert (Hai' : _attributeIndices (this w1) = Some attributeIndices)
    by (rewrite Hai1; exact Hai).
  assert (Hvs' : appendShow (this w1)
                   (createColumbusViewShader (this w1) (ap_vertexShaderSource a))
                 = Return vs).
  { rewrite (appendShow_shading_inputs _ Hinputs). exact Hvs. }
  assert (Hsp' : forall handle,
             validateShaderMatching
               (linked (context w1) vs (ap_fragmentShaderSource a) handle) attributeIndices
             = Return tt).
  { intros handle. rewrite (linked_active _ _ _ Hactive1). apply Hsp. }
  assert (HpickSP' : forall handle,
             validateShaderMatching
               (linked (context w1) (createPickVertexShaderSource vs)
                  (createPickFragmentShaderSource (ap_fragmentShaderSource a) "varying")
                  handle)
               attributeIndices
             = Return tt).
  { intros handle. rewrite (linked_active _ _ _ Hactive1). apply HpickSP. }
  assert (Hqueue' : _dirtyAttributes (this w1) = []) by (rewrite Hqueue1; exact Hqueue).
  split.
  - rewrite <- Hmm1, <- !(linked_active _ _ _ Hactive1).
    exact (steady_state_rebuild frameState commandList Ha' Hchanged' Hai' Hvs' Hsp' HpickSP'
             Hpaired1 Hqueue').
  - rewrite (steady_state_rebuild_calls frameState commandList Ha' Hchanged' Hai' Hvs'
               Hsp' HpickSP' Hpaired1 Hqueue').
    rewrite (shading_calls_inputs a vs Hinputs).
    unfold shading_calls. rewrite Hchanged, Hai. reflexivity.
Qed.

(** X15. The first frame.  Take a COMBINED primitive that has no command
    yet, whose combine result has at least one geometry and vertex array
    attributes for each, whose appearance has not been seen, whose shader
    programs match the vertex attributes, and whose dirty queue is empty.
    One update then completes it.  On the context it makes, for each merged
    geometry in order, one vertex buffer for each of its vertex array
    attributes and then its vertex array, and after these the render state,
    the color program and the pick program, and nothing else.  The vertex
    arrays it keeps are the ones these calls made, one for each geometry.
    It submits, for each merged geometry in order, one color command and one
    pick command with the primitive type of the geometry, the vertex array
    made for it, that render state, the color or pick program, the uniforms
    of the material, the model matrix of the primitive and the bounding
    volume for the mode of the frame. *)
Theorem first_frame taskProcessor frameState commandList w first rest vaAttributes a
  attributeIndices vs :
  let p := this w in
  let geometries := first :: rest in
  let fs := ap_fragmentShaderSource a in
  let pickVS := createPickVertexShaderSource vs in
  let pickFS := createPickFragmentShaderSource fs "varying" in
  let uniforms := mat_uniforms <$> ap_material a in
  let boundingVolume :=
    select_boundingSphere frameState
      (with_spheres (scene2D_projection frameState) first p) in
  let handle := length (ctx_calls (context w)) in
  let creation := vertex_array_calls handle geometries (Some attributeIndices) vaAttributes in
  let va := vertex_arrays handle geometries vaAttributes in
  let renderState := handle + length creation in
  state p = COMBINED ->
  early_exit p frameState = false ->
  _geometries p = Some geometries ->
  _vaAttributes p = Some vaAttributes ->
  length geometries <= length vaAttributes ->
  _commandLists p = {| colorList := []; pickList := [] |} ->
  appearance p = Some a ->
  _appearance p <> Some (ap_identity a) ->
  _attributeIndices p = Some attributeIndices ->
  appendShow p (createColumbusViewShader p (ap_vertexShaderSource a)) = Return vs ->
  (forall handle,
      validateShaderMatching (linked (context w) vs fs handle) attributeIndices
      = Return tt) ->
  (forall handle,
      validateShaderMatching (linked (context w) pickVS pickFS handle) attributeIndices
      = Return tt) ->
  _dirtyAttributes p = [] ->
  let r := update taskProcessor frameState commandList w in
  state (this r.2) = COMPLETE
  /\ ctx_calls (context r.2)
     = ctx_calls (context w) ++ creation
       ++ [createRenderState (ap_renderState a);
           replaceShaderProgram (_sp p) vs fs (Some attributeIndices);
           replaceShaderProgram (_pickSP p) pickVS pickFS (Some attributeIndices)]
  /\ _va (this r.2) = va
  /\ length va = length geometries
  /\ (forall i geometry,
         geometries !! i = Some geometry ->
         exists vertexArray attributes,
           va !! i = Some vertexArray
           /\ ctx_calls (context r.2) !! vertexArray
              = Some (createVertexArrayFromGeometry geometry (Some attributeIndices)
                        STATIC_DRAW attributes))
  /\ r.1 = Return
             (commandList
              ++ [{| colorList :=
                       rendered_command (Some renderState)
                         (Some (linked (context w) vs fs (S renderState)))
                         uniforms (modelMatrix p) boundingVolume
                       <$> commands_of geometries va;
                     pickList :=
                       rendered_command (Some renderState)
                         (Some (linked (context w) pickVS pickFS (S (S renderState))))
                         uniforms (modelMatrix p) boundingVolume
                       <$> commands_of geometries va |}]).
Proof.
  intros p geometries fs pickVS pickFS uniforms boundingVolume handle creation va
    renderState Hstate Hexit Hg Hvas Hlen Hcl Ha Hnew Hai Hvs Hsp HpickSP Hqueue r.
  destruct (COMBINED_branch_returns frameState Hg Hvas Hlen Hcl)
    as (w1 & Hbranch & Hstate1 & Hva1 & Hcalls1 & Hcolor1 & Hpick1 & Hvolume & Hinputs).
  fold p in Hcalls1. rewrite Hai in Hcalls1.
  fold handle geometries in Hva1, Hcalls1, Hcolor1, Hpick1.
  fold creation in Hcalls1. fold va in Hva1, Hcolor1, Hpick1.
  assert (Hupdate : r = steady_state frameState commandList w1).
  { exact (update_after_COMBINED_branch taskProcessor commandList
             Hstate Hexit Hbranch Hstate1). }
  assert (Hlva : length va = length geometries) by (apply length_vertex_arrays; exact Hlen).
  assert (Hpaired1 : commands_paired w1).
  { unfold commands_paired. apply (f_equal length) in Hcolor1, Hpick1.
    unfold drawn in Hcolor1, Hpick1. rewrite length_fmap in Hcolor1, Hpick1. congruence. }
  assert (Hlog1 : length (ctx_calls (context w1)) = renderState).
  { rewrite Hcalls1, length_app. reflexivity. }
  pose proof (steady_state_steady frameState commandList w1) as Hsteady.
  destruct (steady_state_rebuild_inputs frameState commandList Hinputs Ha Hnew Hai Hvs
              Hsp HpickSP Hqueue Hpaired1) as [Hresult Hcalls].
  rewrite <- Hupdate in Hsteady, Hresult, Hcalls.
  rewrite Hlog1 in Hresult. rewrite Hcalls1, <- app_assoc in Hcalls.
  split; [rewrite <- Hstate1; exact (f_equal sf_state Hsteady)|].
  split; [exact Hcalls|].
  split; [rewrite <- Hva1; exact (f_equal sf_va Hsteady)|].
  split; [exact Hlva|].
  split.
  - intros i geometry Hi. rewrite Hcalls.
    exact (@vertex_arrays_created (Some attributeIndices) geometries handle vaAttributes
             (ctx_calls (context w)) _ i geometry eq_refl Hlen Hi).
  - rewrite Hresult, Hcolor1, Hpick1, Hvolume. reflexivity.
Qed.

Lemma first_frame_witness :
  state (this Sample.w2) = COMBINED
  /\ _geometries (this Sample.w2) = Some [Sample.geometry]
  /\ _commandLists (this Sample.w2) = {| colorList := []; pickList := [] |}
  /\ _appearance (this Sample.w2) <> Some (ap_identity Sample.surface)
  /\ length (ctx_calls (context Sample.w2)) = 2
  /\ state (this (update Sample.accept (Sample.frameState SCENE3D) [] Sample.w2).2)
     = COMPLETE
  /\ drop 2 (ctx_calls (context (update Sample.accept (Sample.frameState SCENE3D) []
                                   Sample.w2).2))
     = [createVertexBuffer (Some [0; 0; 0]%Z) DYNAMIC_DRAW;
        createVertexArrayFromGeometry Sample.geometry (Some {[ "position" := 0 ]})
          STATIC_DRAW
          [{| vaa_index := 1; vaa_componentDatatype := Sample.FLOAT;
              vaa_componentsPerAttribute := 4; vaa_normalize := false;
              vaa_values := None; vaa_vertexBuffer := Some 2 |}];
        createRenderState 0;
        replaceShaderProgram None (ColumbusViewShader false (SourceText "vs"))
          (SourceText "fs") (Some {[ "position" := 0 ]});
        replaceShaderProgram None
          (createPickVertexShaderSource (ColumbusViewShader false (SourceText "vs")))
          (createPickFragmentShaderSource (SourceText "fs") "varying")
          (Some {[ "position" := 0 ]})]
  /\ _va (this (update Sample.accept (Sample.frameState SCENE3D) [] Sample.w2).2) = [3]
  /\ (update Sample.accept (Sample.frameState SCENE3D) [] Sample.w2).1
     = Return
         [{| colorList :=
               [{| dc_primitiveType := 4; dc_vertexArray := Some 3;
                   dc_renderState := Some 4;
                   dc_shaderProgram :=
                     Some {| sp_handle := 5; sp_vertexAttributes := ["position"] |};
                   dc_uniformMap := None;
                   dc_modelMatrix := Some Matrix4_IDENTITY;
                   dc_boundingVolume := Some (Sphere 0) |}];
             pickList :=
               [{| dc_primitiveType := 4; dc_vertexArray := Some 3;
                   dc_renderState := Some 4;
                   dc_shaderProgram :=
                     Some {| sp_handle := 6; sp_vertexAttributes := ["position"] |};
                   dc_uniformMap := None;
                   dc_modelMatrix := Some Matrix4_IDENTITY;
                   dc_boundingVolume := Some (Sphere 0) |}] |}].
Proof.
  assert (H1 : state (this Sample.w2) = COMBINED) by (vm_compute; reflexivity).
  assert (H2 : early_exit (this Sample.w2) (Sample.frameState SCENE3D) = false)
    by (vm_compute; reflexivity).
  assert (H3 : _geometries (this Sample.w2) = Some [Sample.geometry])
    by (vm_compute; reflexivity).
  assert (H4 : _vaAttributes (this Sample.w2) = Some (res_vaAttributes Sample.result))
    by (vm_compute; reflexivity).
  assert (H5 : length [Sample.geometry] <= length (res_vaAttributes Sample.result))
    by (simpl; lia).
  assert (H6 : _commandLists (this Sample.w2) = {| colorList := []; pickList := [] |})
    by (vm_compute; reflexivity).
  assert (H7 : appearance (this Sample.w2) = Some Sample.surface)
    by (vm_compute; reflexivity).
  assert (H8 : _appearance (this Sample.w2) <> Some (ap_identity Sample.surface))
    by (vm_compute; discriminate).
  assert (H9 : _attributeIndices (this Sample.w2) = Some {[ "position" := 0 ]})
    by (vm_compute; reflexivity).
  assert (H10 : appendShow (this Sample.w2)
                  (createColumbusViewShader (this Sample.w2)
                     (ap_vertexShaderSource Sample.surface))
                = Return (ColumbusViewShader false (SourceText "vs")))
    by (vm_compute; reflexivity).
  assert (H13 : _dirtyAttributes (this Sample.w2) = []) by (vm_compute; reflexivity).
  split; [exact H1|]. split; [exact H3|]. split; [exact H6|]. split; [exact H8|].
  split; [vm_compute; reflexivity|].
  destruct (@first_frame Sample.accept (Sample.frameState SCENE3D) [] Sample.w2
              Sample.geometry [] (res_vaAttributes Sample.result) Sample.surface
              {[ "position" := 0 ]} (ColumbusViewShader false (SourceText "vs"))
              H1 H2 H3 H4 H5 H6 H7 H8 H9 H10
              ltac:(intros handle; vm_compute; reflexivity)
              ltac:(intros handle; vm_compute; reflexivity) H13)
    as (Hstate & Hcalls & Hva & _ & _ & Hresult).
  split; [exact Hstate|].
  split; [rewrite Hcalls; vm_compute; reflexivity|].
  split; [rewrite Hva; vm_compute; reflexivity|].
  rewrite Hresult. vm_compute. reflexivity.
Defined.
